(** * simple-s3-server: the file bucket, the credential store and the
      request dispatcher

    The model follows the packages of the Go code:

    - [GoPath]    : the functions of Go's [path] and [strings] packages the
                    code calls ([path.Join], [path.Clean], [path.Dir],
                    [strings.Trim], [strings.SplitN]);
    - [OS]        : the part of package [os] the bucket uses, over a tree of
                    directories and regular files;
    - [bucket]    : [bucket.FileBucket] and the [bucket.Bucket] interface
                    (bucket/bucket.go);
    - [signature] : the types of package [signature] the server refers to;
    - [Creds]     : [defaultCredentialStore];
    - [S3]        : the [server] type, its handlers, its options and
                    [NewFileServer].

    The statements use the vocabulary of [PathSpec], [TreeSpec],
    [BucketSpec], [CredsSpec] and [ServerSpec]; [Fixture] gives concrete
    values to the library functions the model leaves open, for the worked
    examples at the end. *)

From Stdlib Require Import ZArith Ascii String.
From Stdlib.Strings Require Import Byte.
From stdpp Require Import gmap strings list fin_maps.

Open Scope string_scope.

(** ** Go's [path] and [strings] helpers *)
Module GoPath.

(** [strings.Split(s, "/")]: the pieces between slashes, empty pieces
    included; always at least one piece. *)
Fixpoint split (s : string) : list string :=
  match s with
  | EmptyString => [EmptyString]
  | String c s' =>
      if Ascii.eqb c "/" then EmptyString :: split s'
      else match split s' with
           | x :: xs => String c x :: xs
           | [] => [String c EmptyString]
           end
  end.

(** [strings.Join(es, "/")]. *)
Fixpoint join (es : list string) : string :=
  match es with
  | [] => EmptyString
  | [e] => e
  | e :: es' => e +:+ "/" +:+ join es'
  end.

(** [path[0] == '/'] *)
Definition rooted (s : string) : bool :=
  match s with
  | String c _ => Ascii.eqb c "/"
  | EmptyString => false
  end.

(** The [out.w > dotdot] test of [path.Clean]: the output buffer ends in a
    real element, not in the leading slash or a leading [../..] prefix.
    The buffer is kept as the stack of its elements, last element first. *)
Definition can_backtrack (out : list string) : bool :=
  match out with
  | top :: _ => negb (String.eqb top "..")
  | [] => false
  end.

(** One turn of the loop of [path.Clean], on the path element [e]. *)
Definition clean_step (is_rooted : bool) (out : list string) (e : string)
  : list string :=
  if String.eqb e EmptyString then out                   (* empty path element *)
  else if String.eqb e "." then out              (* . element *)
  else if String.eqb e ".." then                 (* .. element *)
    if can_backtrack out then tail out
    else if is_rooted then out
    else ".." :: out
  else e :: out.                                 (* real path element *)

(** The elements [path.Clean] keeps, in order. *)
Definition clean_elems (is_rooted : bool) (es : list string) : list string :=
  rev (fold_left (clean_step is_rooted) es []).

(** The output buffer as a string; an empty buffer is ["."] . *)
Definition render (is_rooted : bool) (es : list string) : string :=
  match es with
  | [] => if is_rooted then "/" else "."
  | _ => (if is_rooted then "/" else EmptyString) +:+ join es
  end.

(** [path.Clean] *)
Definition Clean (s : string) : string :=
  if String.eqb s EmptyString then "."
  else render (rooted s) (clean_elems (rooted s) (split s)).

Definition nonempty (s : string) : bool := negb (String.eqb s EmptyString).

(** [path.Join]: empty elements are ignored, the rest is joined with
    slashes and cleaned; the empty string when every element is empty. *)
Definition Join (elem : list string) : string :=
  match filter (λ e, nonempty e = true) elem with
  | [] => EmptyString
  | es => Clean (join es)
  end.

(** [path.Split]'s first component: the path up to and including its
    final slash. *)
Definition dir_part (s : string) : string :=
  fold_right (λ e acc, e +:+ "/" +:+ acc) EmptyString (removelast (split s)).

(** [path.Dir] *)
Definition Dir (s : string) : string := Clean (dir_part s).

(** [strings.TrimLeft(s, "/")] and [strings.Trim(s, "/")]. *)
Fixpoint trim_left (s : string) : string :=
  match s with
  | String c s' => if Ascii.eqb c "/" then trim_left s' else s
  | EmptyString => EmptyString
  end.

Fixpoint trim_right (s : string) : string :=
  match s with
  | EmptyString => EmptyString
  | String c s' =>
      match trim_right s' with
      | EmptyString => if Ascii.eqb c "/" then EmptyString
                       else String c EmptyString
      | t => String c t
      end
  end.

Definition Trim (s : string) : string := trim_right (trim_left s).

(** [strings.SplitN(s, "/", 2)]: cut at the first slash only. *)
Fixpoint SplitN2 (s : string) : list string :=
  match s with
  | EmptyString => [EmptyString]
  | String c s' =>
      if Ascii.eqb c "/" then [EmptyString; s']
      else match SplitN2 s' with
           | x :: xs => String c x :: xs
           | [] => [String c EmptyString]
           end
  end.

End GoPath.

(** ** Go values shared by the packages *)

Abbreviation bytes := (list Byte.byte).

(** The errno values the modelled system calls can fail with. *)
Inductive Errno :=
  | ENOENT | ENOTDIR | EISDIR | ENOTEMPTY | EBUSY | ENAMETOOLONG | EINVAL.

(** Go's [error] values, as far as the code can tell them apart:
    [*fs.PathError] from package [os] (operation, path, errno), a decoding
    error of [encoding/json], and an error of the request body reader. *)
Inductive error :=
  | PathError (op : string) (path : string) (errno : Errno)
  | UnmarshalError
  | ReadError (msg : string).

(** A Go result pair [(value, err)] of which exactly one part is set. *)
Inductive res (A : Type) :=
  | Ok (a : A)
  | Err (e : error).
Arguments Ok {A} a.
Arguments Err {A} e.

(** ** The part of package [os] the bucket uses

    The file system is a finite tree of directories and regular files,
    without symbolic links, so that the kernel resolves a path exactly as
    [path.Clean] reads it.  A location is a cleaned path: whether it starts
    at the root, and its elements.  The root, the working directory and its
    ancestors (the locations made of [..] elements only) always exist and are
    directories.  Permissions, quotas and device errors are outside the
    model: a system call fails only for the shape of the tree and for the
    shape of the path (a NUL byte, an element over [NAME_MAX] bytes, a path
    of [PATH_MAX] bytes or more).

    The bucket hands only cleaned paths to package [os] (results of
    [path.Join] and [path.Dir]); such a path is the rendering of its
    location, and the limits on the path are read off that rendering. *)
Module OS.

Inductive node :=
  | File (content : bytes) (mtime : Z)
  | Directory.

Definition loc : Type := bool * list string.

(** The world outside the program: the file system and the wall clock
    ([time.Now().UnixMilli()]). *)
Record World := mkWorld { files : gmap loc node; clock : Z }.

Definition set_files (w : World) (fs : gmap loc node) : World :=
  {| files := fs; clock := clock w |}.

Definition resolve (name : string) : option loc :=
  if String.eqb name EmptyString then None
  else Some (GoPath.rooted name,
             GoPath.clean_elems (GoPath.rooted name) (GoPath.split name)).

Definition all_dotdot (es : list string) : bool :=
  forallb (String.eqb "..") es.

Definition node_at (fs : gmap loc node) (l : loc) : option node :=
  if all_dotdot l.2 then Some Directory else fs !! l.

(** The limits of Linux on a path element and on a whole path (the latter
    counts the closing NUL byte). *)
Definition NAME_MAX : nat := 255.
Definition PATH_MAX : nat := 4096.

Definition name_fits (e : string) : bool :=
  (String.length e <=? NAME_MAX)%nat.

Definition has_nul (s : string) : bool :=
  existsb (Ascii.eqb "000"%char) (list_ascii_of_string s).

(** The cleaned path that names a location. *)
Definition name_of (l : loc) : string := GoPath.render l.1 l.2.

(** What is refused before the path is resolved: package [syscall] refuses
    a path that holds a NUL byte (EINVAL), the kernel a path that is too
    long (ENAMETOOLONG). *)
Definition path_errno (l : loc) : option Errno :=
  if has_nul (name_of l) then Some EINVAL
  else if (PATH_MAX <=? String.length (name_of l))%nat then Some ENAMETOOLONG
  else None.

(** Path resolution: from the directory reached by [pre], follow the
    elements [rest].  A missing element is ENOENT, a regular file in the
    middle of the path is ENOTDIR, an element that is too long to be
    looked up in a directory is ENAMETOOLONG. *)
Fixpoint walk (fs : gmap loc node) (r : bool) (pre rest : list string)
  : Errno + node :=
  match node_at fs (r, pre) with
  | None => inl ENOENT
  | Some n =>
      match rest with
      | [] => inr n
      | e :: rest' =>
          match n with
          | Directory =>
              if name_fits e then walk fs r (pre ++ [e]) rest'
              else inl ENAMETOOLONG
          | File _ _ => inl ENOTDIR
          end
      end
  end.

Definition lookup_path (fs : gmap loc node) (l : loc) : Errno + node :=
  match path_errno l with
  | Some e => inl e
  | None => walk fs l.1 [] l.2
  end.

Definition parent (l : loc) : loc := (l.1, removelast l.2).

(** An open [*os.File]: where it is, and the node that was opened. *)
Record file := mkFile { fd_loc : loc; fd_node : node }.

(** [os.Open]; a directory can be opened too (reading it fails later). *)
Definition Open (name : string) (w : World) : res file :=
  match resolve name with
  | None => Err (PathError "open" name ENOENT)
  | Some l =>
      match lookup_path (files w) l with
      | inr n => Ok (mkFile l n)
      | inl e => Err (PathError "open" name e)
      end
  end.

(** What [os.Stat] and [os.Mkdir] refuse for the path alone, the
    directories above its last element being there. *)
Definition mkdir_errno (l : loc) : option Errno :=
  match path_errno l with
  | Some e => Some e
  | None =>
      if name_fits (List.last l.2 EmptyString) then None
      else Some ENAMETOOLONG
  end.

(** The descent of [os.MkdirAll], from the top: every missing directory on
    the way is made; it stops at the first path that cannot be a
    directory, a regular file (ENOTDIR) or a path that [os.Mkdir] refuses.
    The failure tells the errno, the path it stopped at, and the tree with
    the directories made until then. *)
Fixpoint mkdir_walk (fs : gmap loc node) (r : bool) (pre rest : list string)
  : Errno * list string * gmap loc node + gmap loc node :=
  match mkdir_errno (r, pre) with
  | Some e => inl (e, pre, fs)
  | None =>
      match node_at fs (r, pre) with
      | Some (File _ _) => inl (ENOTDIR, pre, fs)
      | o =>
          let fs' := match o with
                     | None => <[(r, pre) := Directory]> fs
                     | Some _ => fs
                     end in
          match rest with
          | [] => inr fs'
          | e :: rest' => mkdir_walk fs' r (pre ++ [e]) rest'
          end
      end
  end.

(** [os.MkdirAll]; its error names the path it stopped at, and the
    directories made above that path stay. *)
Definition MkdirAll (name : string) (w : World) : option error * World :=
  match resolve name with
  | None => (Some (PathError "mkdir" name ENOENT), w)
  | Some l =>
      match mkdir_walk (files w) l.1 [] l.2 with
      | inr fs' => (None, set_files w fs')
      | inl (e, stop, fs') =>
          (Some (PathError "mkdir" (name_of (l.1, stop)) e), set_files w fs')
      end
  end.

(** [os.Create]: the file is made, or truncated when it exists; its
    directory must exist. *)
Definition Create (name : string) (w : World) : res file * World :=
  match resolve name with
  | None => (Err (PathError "open" name ENOENT), w)
  | Some l =>
      let empty := File [] (clock w) in
      let fresh := set_files w (<[l := empty]> (files w)) in
      match lookup_path (files w) l with
      | inr Directory => (Err (PathError "open" name EISDIR), w)
      | inr (File _ _) => (Ok (mkFile l empty), fresh)
      | inl ENOENT =>
          match lookup_path (files w) (parent l) with
          | inr Directory => (Ok (mkFile l empty), fresh)
          | inr (File _ _) => (Err (PathError "open" name ENOTDIR), w)
          | inl e => (Err (PathError "open" name e), w)
          end
      | inl e => (Err (PathError "open" name e), w)
      end
  end.

(** [File.Write] on a handle just created: the file now holds
    [content]. *)
Definition Write (f : file) (content : bytes) (w : World) : World :=
  set_files w (<[fd_loc f := File content (clock w)]> (files w)).

Definition has_children (fs : gmap loc node) (l : loc) : bool :=
  existsb (λ kv, bool_decide (kv.1.1 = l.1 ∧ removelast kv.1.2 = l.2
                              ∧ kv.1.2 ≠ []))
          (map_to_list fs).

(** [os.Remove]: unlinks a regular file or removes an empty directory.
    The root and the working directory cannot be removed ([EBUSY]
    stands for what the kernel answers there). *)
Definition Remove (name : string) (w : World) : option error * World :=
  match resolve name with
  | None => (Some (PathError "remove" name ENOENT), w)
  | Some l =>
      match lookup_path (files w) l with
      | inl e => (Some (PathError "remove" name e), w)
      | inr (File _ _) => (None, set_files w (delete l (files w)))
      | inr Directory =>
          if all_dotdot l.2 then (Some (PathError "remove" name EBUSY), w)
          else if has_children (files w) l
               then (Some (PathError "remove" name ENOTEMPTY), w)
               else (None, set_files w (delete l (files w)))
      end
  end.

(** [io.ReadAll] on an open file; reading a directory fails, the error
    names the file as it was opened. *)
Definition ReadAll (f : file) : res bytes :=
  match fd_node f with
  | File content _ => Ok content
  | Directory => Err (PathError "read" (name_of (fd_loc f)) EISDIR)
  end.

(** [os.IsNotExist] *)
Definition IsNotExist (e : error) : bool :=
  match e with
  | PathError _ _ ENOENT => true
  | _ => false
  end.

End OS.

(** ** Package [bucket] *)
Module bucket.
Import OS.

(** [type Metadata struct] *)
Record Metadata := mkMetadata {
  Digest : string;
  ContentLength : Z;
  ContentType : string;
  ModTime : Z
}.

(** The [io.ReadCloser] values the program hands to a bucket or gets back
    from one: the request body as it arrived, the request body behind
    [newChunkedReader], and an open file. *)
Inductive Reader :=
  | BodyReader (body : bytes)
  | ChunkedReader (body : bytes)
  | FileReader (f : file).

(** [type Object struct]; the embedded [io.ReadCloser] is [ReadCloser]. *)
Record Object := mkObject {
  Key : string;
  ObjectContentType : string;
  ObjectMetadata : option Metadata;
  ReadCloser : Reader
}.

(** [type Bucket interface]; a [nil] pointer with a [nil] error is [Ok None]
    where the interface's users test for it. *)
Record Bucket := mkBucket {
  PutObject : Object → World → res Metadata * World;
  DeleteObject : string → World → option error * World;
  GetObject : string → World → res (option Object) * World;
  PutObjectMetadata : string → Metadata → World → res Metadata * World;
  GetObjectMetadata : string → World → res (option Metadata) * World
}.

(** The library functions the bucket calls and the model leaves open:
    [md5.Sum], [json.Marshal] and [json.Unmarshal] at type [Metadata]
    ([Marshal] cannot fail on a struct of strings and integers), and what
    reading the chunked reader of the s3server package to its end gives. *)
Class Codec := {
  md5_Sum : bytes → bytes;
  json_Marshal : Metadata → bytes;
  json_Unmarshal : bytes → res Metadata;
  chunked_ReadAll : bytes → res bytes
}.

(** [hex.EncodeToString] *)
Definition hex_digit (n : N) : ascii :=
  nth (N.to_nat n) (list_ascii_of_string "0123456789abcdef") "0"%char.

Definition hex_byte (b : Byte.byte) : string :=
  String (hex_digit (Byte.to_N b / 16))
    (String (hex_digit (Byte.to_N b mod 16)) EmptyString).

Fixpoint EncodeToString (bs : bytes) : string :=
  match bs with
  | [] => EmptyString
  | b :: bs' => hex_byte b +:+ EncodeToString bs'
  end.

(** [type FileBucket struct] *)
Record FileBucket := mkFileBucket {
  path : string;
  name : string;
  directStore : bool
}.

Section FileBucket.
Context `{Codec}.

(** [io.ReadAll(object)] *)
Definition io_ReadAll (r : Reader) : res bytes :=
  match r with
  | BodyReader body => Ok body
  | ChunkedReader body => chunked_ReadAll body
  | FileReader f => ReadAll f
  end.

Definition getObjectPath (f : FileBucket) (key : string) : string * string :=
  if directStore f then
    (GoPath.Join [path f; name f; key],
     GoPath.Join [path f; ".metadata"; name f; key])
  else
    (GoPath.Join [path f; name f; key; ".content"],
     GoPath.Join [path f; name f; key; "metadata.json"]).

Definition getObjectFile (f : FileBucket) (key : string) (create : bool)
  (w : World) : res file * World :=
  let keyPath := (getObjectPath f key).1 in
  let keyDir := GoPath.Dir keyPath in
  match MkdirAll keyDir w with
  | (Some err, w1) => (Err err, w1)
  | (None, w1) =>
      if create then Create keyPath w1 else (Open keyPath w1, w1)
  end.

Definition FileBucket_PutObjectMetadata (f : FileBucket) (key : string)
  (meta : Metadata) (w : World) : res Metadata * World :=
  let metadata := json_Marshal meta in
  let metadataPath := (getObjectPath f key).2 in
  match MkdirAll (GoPath.Dir metadataPath) w with
  | (Some err, w1) => (Err err, w1)
  | (None, w1) =>
      match Create metadataPath w1 with
      | (Err err, w2) => (Err err, w2)
      | (Ok mf, w2) => (Ok meta, Write mf metadata w2)
      end
  end.

Definition FileBucket_PutObject (f : FileBucket) (object : Object)
  (w : World) : res Metadata * World :=
  match getObjectFile f (Key object) true w with
  | (Err err, w1) => (Err err, w1)
  | (Ok cf, w1) =>
      match io_ReadAll (ReadCloser object) with
      | Err err => (Err err, w1)
      | Ok content =>
          let w2 := Write cf content w1 in
          let digest := EncodeToString (md5_Sum content) in
          FileBucket_PutObjectMetadata f (Key object)
            {| Digest := digest;
               ContentType := ObjectContentType object;
               ContentLength := Z.of_nat (length content);
               ModTime := clock w2 |} w2
      end
  end.

Definition FileBucket_DeleteObject (f : FileBucket) (key : string)
  (w : World) : option error * World :=
  let '(keyPath, MetadataPath) := getObjectPath f key in
  match Remove keyPath w with
  | (Some err, w1) => (Some err, w1)
  | (None, w1) =>
      match Remove MetadataPath w1 with
      | (Some err, w2) => (Some err, w2)
      | (None, w2) => (None, w2)
      end
  end.

Definition FileBucket_GetObjectMetadata (f : FileBucket) (key : string)
  (w : World) : res (option Metadata) * World :=
  let metadataPath := (getObjectPath f key).2 in
  match Open metadataPath w with
  | Err err => if IsNotExist err then (Ok None, w) else (Err err, w)
  | Ok mf =>
      match ReadAll mf with
      | Err err => (Err err, w)
      | Ok meta =>
          match json_Unmarshal meta with
          | Err err => (Err err, w)
          | Ok metadata => (Ok (Some metadata), w)
          end
      end
  end.

Definition createMetadataFromFile (f : FileBucket) (key : string)
  (w : World) : res Metadata * World :=
  let keyPath := (getObjectPath f key).1 in
  match Open keyPath w with
  | Err err => (Err err, w)
  | Ok fc =>
      match fd_node fc with
      | Directory => (Err (PathError "read" keyPath EISDIR), w)
      | File content mtime =>
          let digest := EncodeToString (md5_Sum content) in
          FileBucket_PutObjectMetadata f key
            {| Digest := digest;
               ContentType := "application/octet-stream";
               ContentLength := Z.of_nat (length content);
               ModTime := mtime |} w
      end
  end.

Definition FileBucket_GetObject (f : FileBucket) (key : string)
  (w : World) : res (option Object) * World :=
  match getObjectFile f key false w with
  | (Err err, w1) =>
      if IsNotExist err then (Ok None, w1) else (Err err, w1)
  | (Ok fc, w1) =>
      match FileBucket_GetObjectMetadata f key w1 with
      | (Err err, w2) =>
          if IsNotExist err then (Ok None, w2) else (Err err, w2)
      | (Ok metadata, w2) =>
          let found (m : Metadata) :=
            Ok (Some {| ReadCloser := FileReader fc;
                        Key := key;
                        ObjectContentType := ContentType m;
                        ObjectMetadata := Some m |}) in
          match metadata with
          | Some m => (found m, w2)
          | None =>
              match createMetadataFromFile f key w2 with
              | (Err err, w3) => (Err err, w3)
              | (Ok m, w3) => (found m, w3)
              end
          end
      end
  end.

(** [FileBucket] implements [Bucket]. *)
Definition FileBucket_Bucket (f : FileBucket) : Bucket :=
  {| PutObject := FileBucket_PutObject f;
     DeleteObject := FileBucket_DeleteObject f;
     GetObject := FileBucket_GetObject f;
     PutObjectMetadata := FileBucket_PutObjectMetadata f;
     GetObjectMetadata := FileBucket_GetObjectMetadata f |}.

Definition NewFileBucket (basePath bucketName : string) (direct : bool)
  (w : World) : res Bucket * World :=
  let bucket := {| path := basePath; name := bucketName;
                   directStore := direct |} in
  match MkdirAll (GoPath.Join [basePath; bucketName]) w with
  | (Some err, w1) => (Err err, w1)
  | (None, w1) =>
      if directStore bucket then
        match MkdirAll (GoPath.Join [basePath; ".metadata"; bucketName]) w1 with
        | (Some err, w2) => (Err err, w2)
        | (None, w2) => (Ok (FileBucket_Bucket bucket), w2)
        end
      else (Ok (FileBucket_Bucket bucket), w1)
  end.

End FileBucket.
End bucket.

(** ** Package [signature], as far as the server refers to it

    The package itself is not part of the sources at hand; its types are
    declared here and its functions are left open in [S3.Env]. *)
Module signature.

(** [type Credentials struct]: the access key identifies the credential. *)
Record Credentials := mkCredentials {
  AccessKey : string;
  SecretKey : string
}.

(** [signature.Credential(accessKey, secretKey)] *)
Definition Credential (accessKey secretKey : string) : Credentials :=
  {| AccessKey := accessKey; SecretKey := secretKey |}.

(** [type CredentialStore interface]: the methods of an implementation
    with state [T]. *)
Class CredentialStoreImpl (T : Type) := {
  Get : string → T → Credentials * bool;
  Put : Credentials → T → T
}.

(** A value of the interface type: an implementation and its state. *)
Record CredentialStore := mkStore {
  store_type : Type;
  store_impl : CredentialStoreImpl store_type;
  store_state : store_type
}.

Definition store_Get (accessKey : string) (cs : CredentialStore)
  : Credentials * bool :=
  @Get _ (store_impl cs) accessKey (store_state cs).

Definition store_Put (c : Credentials) (cs : CredentialStore)
  : CredentialStore :=
  {| store_type := store_type cs;
     store_impl := store_impl cs;
     store_state := @Put _ (store_impl cs) c (store_state cs) |}.

End signature.

(** ** [defaultCredentialStore] *)
Module Creds.
Import signature.

(** [type defaultCredentialStore struct]; the [sync.Map] is a finite map
    from access keys to credentials. *)
Record defaultCredentialStore := mkDefaultStore {
  credStore : gmap string Credentials
}.

(** The zero value [defaultCredentialStore{}]. *)
Definition empty_store : defaultCredentialStore := {| credStore := ∅ |}.

Definition default_Get (accessKey : string) (d : defaultCredentialStore)
  : Credentials * bool :=
  match credStore d !! accessKey with
  | None => ({| AccessKey := EmptyString; SecretKey := EmptyString |}, false)
  | Some v => (v, true)
  end.

Definition default_Put (credentials : Credentials)
  (d : defaultCredentialStore) : defaultCredentialStore :=
  {| credStore := <[AccessKey credentials := credentials]> (credStore d) |}.

#[export] Instance default_impl : CredentialStoreImpl defaultCredentialStore :=
  {| Get := default_Get; Put := default_Put |}.

Definition default_store (d : defaultCredentialStore) : CredentialStore :=
  {| store_type := defaultCredentialStore;
     store_impl := default_impl;
     store_state := d |}.

End Creds.

(** ** Package [s3server] *)
Module S3.
Import OS bucket signature Creds.

(** [*http.Request], the parts the handlers read.  Header names are stored
    in canonical form, as [net/http] does. *)
Record Request := mkRequest {
  Method : string;
  URL_Path : string;
  URL_Query : gmap string (list string);
  Header : gmap string (list string);
  Body : bytes
}.

(** [http.Header.Get] *)
Definition Header_Get (h : gmap string (list string)) (key : string) : string :=
  match h !! key with
  | Some (v :: _) => v
  | _ => EmptyString
  end.

(** [http.Header.Set] *)
Definition Header_Set (h : gmap string (list string)) (key value : string)
  : gmap string (list string) :=
  <[key := [value]]> h.

(** [url.Values.Has] *)
Definition Query_Has (q : gmap string (list string)) (key : string) : bool :=
  bool_decide (is_Some (q !! key)).

(** [http.ResponseWriter]: the header map, and the calls of [WriteHeader]
    and [Write] made so far, oldest first. *)
Inductive Call :=
  | WriteHeaderCall (statusCode : Z)
  | WriteCall (body : bytes).

Record ResponseWriter := mkResponseWriter {
  w_Header : gmap string (list string);
  w_calls : list Call
}.

Definition WriteHeader (statusCode : Z) (w : ResponseWriter) : ResponseWriter :=
  {| w_Header := w_Header w; w_calls := w_calls w ++ [WriteHeaderCall statusCode] |}.

Definition Write (body : bytes) (w : ResponseWriter) : ResponseWriter :=
  {| w_Header := w_Header w; w_calls := w_calls w ++ [WriteCall body] |}.

Definition SetHeader (key value : string) (w : ResponseWriter) : ResponseWriter :=
  {| w_Header := Header_Set (w_Header w) key value; w_calls := w_calls w |}.

Definition StatusOK : Z := 200.
Definition StatusBadRequest : Z := 400.
Definition StatusNotFound : Z := 404.
Definition StatusMethodNotAllowed : Z := 405.
Definition StatusInternalServerError : Z := 500.

Definition HeaderEtag : string := "Etag".

(** What the server uses and the sources at hand do not define: the error
    codes and the verifier of package [signature], the [Error] type of this
    package with its constructors [ErrWith] and [ErrSignature], and the
    encoders of the standard library. *)
Class Env := {
  ErrorCode : Type;
  ErrorCode_eq_dec :: EqDecision ErrorCode;
  ErrNone : ErrorCode;
  V4SignVerify : Request → CredentialStore → World → ErrorCode;
  Error : Type;
  httpCode : Error → Z;
  set_RequestId : string → Error → Error;
  set_HostId : string → Error → Error;
  ErrWith : Z → option error → Error;
  ErrSignature : ErrorCode → Error;
  xml_Marshal : Error → bytes;
  xml_LocationConstraint : bytes;
  FormatHTTPTime : Z → string
}.

(** [type server struct] *)
Record server := mkServer {
  bucketFn : string → World → res Bucket * World;
  credentials : option CredentialStore
}.

Definition STREAMING_PAYLOAD : string := "STREAMING-AWS4-HMAC-SHA256-PAYLOAD".

(** The buffer of [io.Copy], and a content cut into the pieces that fill
    it; [fuel] bounds the number of pieces. *)
Definition copy_buffer : nat := 32 * 1024.

Fixpoint pieces (fuel : nat) (content : bytes) : list bytes :=
  match fuel, content with
  | S fuel', _ :: _ =>
      take copy_buffer content :: pieces fuel' (drop copy_buffer content)
  | _, _ => []
  end.

(** The double quote that [fmt.Sprintf] puts around the digest. *)
Definition dquote : string := String (ascii_of_nat 34) EmptyString.

Section Server.
Context `{Codec} `{Env}.

Definition GetBucket (s : server) (bucketName : string) (world : World)
  : res Bucket * World :=
  bucketFn s bucketName world.

(** [errors.Is(err, signature.ErrNone)]: the codes are plain comparable
    values. *)
Definition errors_Is (err target : ErrorCode) : bool :=
  bool_decide (err = target).

Definition WriteError (w : ResponseWriter) (err : Error) : ResponseWriter :=
  let err1 := set_RequestId (Header_Get (w_Header w) "X-Amz-Request-Id") err in
  let err2 := set_HostId (Header_Get (w_Header w) "X-Amz-Id-2") err1 in
  let body := xml_Marshal err2 in
  Write body (WriteHeader (httpCode err) w).

(** [strings.SplitN(strings.Trim(r.URL.Path, "/"), "/", 2)] *)
Definition uri_of (r : Request) : list string :=
  GoPath.SplitN2 (GoPath.Trim (URL_Path r)).

Definition HandlePutObject (s : server) (w : ResponseWriter) (r : Request)
  (world : World) : ResponseWriter * World :=
  if negb (String.eqb (Method r) "PUT") then
    (WriteError w (ErrWith StatusMethodNotAllowed None), world)
  else
    match uri_of r with
    | [uri0; uri1] =>
        let object := {| Key := uri1;
                         ObjectContentType := Header_Get (Header r) "Content-Type";
                         ObjectMetadata :=
                           Some {| Digest := EmptyString; ContentLength := 0;
                                   ContentType := EmptyString;
                                   ModTime := clock world |};
                         ReadCloser := BodyReader (Body r) |} in
        let streaming :=
          String.eqb (Header_Get (Header r) "X-Amz-Content-Sha256")
                     STREAMING_PAYLOAD in
        let object :=
          if streaming then
            {| Key := Key object;
               ObjectContentType := ObjectContentType object;
               ObjectMetadata := ObjectMetadata object;
               ReadCloser := ChunkedReader (Body r) |}
          else object in
        if streaming
           && String.eqb (Header_Get (Header r) "X-Amz-Decoded-Content-Length")
                         EmptyString
        then (WriteError w (ErrWith StatusBadRequest None), world)
        else
          match GetBucket s uri0 world with
          | (Err err, world1) =>
              (WriteError w (ErrWith StatusInternalServerError (Some err)), world1)
          | (Ok b, world1) =>
              match PutObject b object world1 with
              | (Err err, world2) =>
                  (WriteError w (ErrWith StatusInternalServerError (Some err)),
                   world2)
              | (Ok metadata, world2) =>
                  let w1 := SetHeader HeaderEtag
                              (dquote +:+ Digest metadata +:+ dquote) w in
                  (Write [] (WriteHeader StatusOK w1), world2)
              end
          end
    | _ => (WriteError w (ErrWith StatusNotFound None), world)
    end.

(** [io.Copy(w, object)] on a writer without [ReadFrom]: the object is
    read through a buffer of 32 KiB and each piece is written to the
    response, so that nothing is written for an empty object; a failing
    read ends the copy, its error is dropped. *)
Definition io_Copy (w : ResponseWriter) (object : Object) : ResponseWriter :=
  match io_ReadAll (ReadCloser object) with
  | Ok content =>
      fold_left (λ w piece, Write piece w)
        (pieces (length content) content) w
  | Err _ => w
  end.

(** An object without metadata makes [object.Metadata.ModTime] panic;
    the [recover] of [ServeHTTP] ends the request there. *)
Definition HandleGetObject (s : server) (w : ResponseWriter) (r : Request)
  (world : World) : ResponseWriter * World :=
  if negb (String.eqb (Method r) "GET") then
    (WriteError w (ErrWith StatusMethodNotAllowed None), world)
  else
    let uri := uri_of r in
    if Query_Has (URL_Query r) "location" && bool_decide (length uri = 1%nat) then
      (Write xml_LocationConstraint (WriteHeader StatusOK w), world)
    else
      match uri with
      | [uri0; uri1] =>
          match GetBucket s uri0 world with
          | (Err err, world1) =>
              (WriteError w (ErrWith StatusInternalServerError (Some err)), world1)
          | (Ok b, world1) =>
              match GetObject b uri1 world1 with
              | (Err err, world2) =>
                  (WriteError w (ErrWith StatusInternalServerError (Some err)),
                   world2)
              | (Ok None, world2) =>
                  (WriteError w (ErrWith StatusNotFound None), world2)
              | (Ok (Some object), world2) =>
                  let w1 := SetHeader "Content-Type" (ObjectContentType object) w in
                  match ObjectMetadata object with
                  | None => (w1, world2)
                  | Some metadata =>
                      let w2 := SetHeader "Last-Modified"
                                  (FormatHTTPTime (ModTime metadata)) w1 in
                      let w3 := SetHeader HeaderEtag (Digest metadata) w2 in
                      (io_Copy (WriteHeader StatusOK w3) object, world2)
                  end
              end
          end
      | _ => (WriteError w (ErrWith StatusNotFound None), world)
      end.

Definition HandleDeleteObject (s : server) (w : ResponseWriter) (r : Request)
  (world : World) : ResponseWriter * World :=
  if negb (String.eqb (Method r) "DELETE") then
    (WriteError w (ErrWith StatusMethodNotAllowed None), world)
  else
    match uri_of r with
    | [uri0; uri1] =>
        match GetBucket s uri0 world with
        | (Err err, world1) =>
            (WriteError w (ErrWith StatusInternalServerError (Some err)), world1)
        | (Ok b, world1) =>
            let '(failure, world2) := DeleteObject b uri1 world1 in
            let w1 := match failure with
                      | Some err =>
                          WriteError w (ErrWith StatusInternalServerError (Some err))
                      | None => w
                      end in
            (Write [] (WriteHeader StatusOK w1), world2)
        end
    | _ => (WriteError w (ErrWith StatusNotFound None), world)
    end.

Definition HandleGetObjectMetadata (s : server) (w : ResponseWriter)
  (r : Request) (world : World) : ResponseWriter * World :=
  if negb (String.eqb (Method r) "HEAD") then
    (WriteError w (ErrWith StatusMethodNotAllowed None), world)
  else
    match uri_of r with
    | [uri0; uri1] =>
        match GetBucket s uri0 world with
        | (Err err, world1) =>
            (WriteError w (ErrWith StatusInternalServerError (Some err)), world1)
        | (Ok b, world1) =>
            match GetObjectMetadata b uri1 world1 with
            | (Err err, world2) =>
                (WriteError w (ErrWith StatusInternalServerError (Some err)),
                 world2)
            | (Ok None, world2) =>
                (WriteError w (ErrWith StatusNotFound None), world2)
            | (Ok (Some metadata), world2) =>
                let w1 := SetHeader "Content-Type" (ContentType metadata) w in
                let w2 := SetHeader "Last-Modified"
                            (FormatHTTPTime (ModTime metadata)) w1 in
                let w3 := SetHeader HeaderEtag (Digest metadata) w2 in
                (Write [] (WriteHeader StatusOK w3), world2)
            end
        end
    | _ => (WriteError w (ErrWith StatusNotFound None), world)
    end.

(** The [switch r.Method] of [ServeHTTP]. *)
Definition dispatch (s : server) (w : ResponseWriter) (r : Request)
  (world : World) : ResponseWriter * World :=
  if String.eqb (Method r) "HEAD" then HandleGetObjectMetadata s w r world
  else if String.eqb (Method r) "PUT" then HandlePutObject s w r world
  else if String.eqb (Method r) "DELETE" then HandleDeleteObject s w r world
  else if String.eqb (Method r) "GET" then HandleGetObject s w r world
  else (w, world).

(** [ServeHTTP]; its deferred [recover] only logs. *)
Definition ServeHTTP (s : server) (w : ResponseWriter) (r : Request)
  (world : World) : ResponseWriter * World :=
  match credentials s with
  | Some store =>
      let err := V4SignVerify r store world in
      if negb (errors_Is err ErrNone) then
        (WriteError w (ErrSignature err), world)
      else dispatch s w r world
  | None => dispatch s w r world
  end.

(** [type Option]: a function on the server under construction, and
    its three constructors. *)
Definition Option : Type := server → server.

Definition WithBucket (fn : string → World → res Bucket * World) : Option :=
  λ s, {| bucketFn := fn; credentials := credentials s |}.

Definition WithAuthStore (store : option CredentialStore) : Option :=
  λ s, {| bucketFn := bucketFn s; credentials := store |}.

Definition WithAuth (creds : gmap string string) : Option :=
  λ s,
    let store := match credentials s with
                 | None => default_store empty_store
                 | Some cs => cs
                 end in
    {| bucketFn := bucketFn s;
       credentials :=
         Some (map_fold (λ accessKey secretKey cs,
                           store_Put (Credential accessKey secretKey) cs)
                        store creds) |}.

Definition NewFileServer (basePath : string) (options : list Option) : server :=
  fold_left (λ s o, o s) options
    {| bucketFn := λ bucketName, NewFileBucket basePath bucketName false;
       credentials := None |}.

End Server.
End S3.

Open Scope list_scope.

(** * The vocabulary of the statements *)

Module PathSpec.
Import GoPath.

(** A string without a slash: splitting it gives the string itself. *)
Definition no_slash (s : string) : Prop := split s = [s].

(** A real path element, as opposed to the ones [path.Clean] drops or
    resolves. *)
Definition real (e : string) : Prop :=
  e ≠ EmptyString ∧ e ≠ "." ∧ e ≠ "..".

(** The shape of a cleaned path: [..] elements first (none when the path
    is rooted), then real elements. *)
Definition cleaned (r : bool) (es : list string) : Prop :=
  ∃ n reals, es = (replicate n ".." ++ reals)%list
             ∧ Forall real reals ∧ Forall no_slash es ∧ (r = true → n = 0%nat).

(** The location a path string names: rooted or not, and the elements
    that cleaning keeps. *)
Definition loc_of (s : string) : OS.loc :=
  (rooted s, clean_elems (rooted s) (split s)).

(** An element that is neither [.] nor [..] *)
Definition plain (e : string) : Prop := e ≠ "." ∧ e ≠ "..".

(** The path [p] lies in the directory [dir] or is the directory itself:
    its elements are those of [dir], followed by elements that do not
    climb. *)
Definition inside (dir p : string) : Prop :=
  ∃ ld lp, OS.resolve dir = Some ld ∧ OS.resolve p = Some lp
           ∧ ld.1 = lp.1 ∧ ∃ k, lp.2 = ld.2 ++ k ∧ ".." ∉ k.

End PathSpec.

Module TreeSpec.
Import OS.

(** Every entry of the tree lies in a directory. *)
Definition wf (fs : gmap loc node) : Prop :=
  ∀ l n, fs !! l = Some n → node_at fs (parent l) = Some Directory.

Definition proper_prefix (q es : list string) : Prop :=
  q `prefix_of` es ∧ q ≠ es.

(** No element is longer than [NAME_MAX]. *)
Definition names_fit (es : list string) : Prop :=
  Forall (λ e, name_fits e = true) es.

(** [fs'] is [fs] with directories added at some of the locations [P]. *)
Definition grown (P : loc → Prop) (fs fs' : gmap loc node) : Prop :=
  ∀ l, fs' !! l = fs !! l
       ∨ (fs !! l = None ∧ fs' !! l = Some Directory ∧ P l).

(** The tree that [mkdir_walk] leaves, however it ends. *)
Definition mkdir_tree
  (result : Errno * list string * gmap loc node + gmap loc node)
  : gmap loc node :=
  match result with
  | inl (_, _, fs) => fs
  | inr fs => fs
  end.

End TreeSpec.

Module BucketSpec.
Import OS bucket PathSpec.

(** What the model asks of [encoding/json]: a [Metadata] whose digest is a
    hexadecimal string decodes from its own encoding with the same digest
    and the same content length. *)
Definition json_round_trip `{Codec} : Prop :=
  ∀ bs len ct mt,
    ∃ m', json_Unmarshal (json_Marshal
            {| Digest := EncodeToString bs; ContentLength := len;
               ContentType := ct; ModTime := mt |}) = Ok m'
          ∧ Digest m' = EncodeToString bs ∧ ContentLength m' = len.

(** The directory of a bucket, and the directory of its metadata files. *)
Definition bucketDir (f : FileBucket) : string :=
  GoPath.Join [path f; name f].

Definition metadataDir (f : FileBucket) : string :=
  if directStore f then GoPath.Join [path f; ".metadata"; name f]
  else GoPath.Join [path f; name f].

(** None of the segments of the key is [.] or [..]. *)
Definition traversal_free (key : string) : Prop :=
  Forall plain (GoPath.split key).

End BucketSpec.

Module CredsSpec.
Import signature Creds.

(** The store after a sequence of [Put] calls, oldest first. *)
Definition put_all (puts : list Credentials) (d : defaultCredentialStore)
  : defaultCredentialStore :=
  fold_left (λ d c, default_Put c d) puts d.

(** The most recent of the [puts] that carries [accessKey]. *)
Definition last_put (accessKey : string) (puts : list Credentials)
  : option Credentials :=
  last (filter (λ c, AccessKey c = accessKey) puts).

End CredsSpec.

Module ServerSpec.
Import OS bucket signature Creds S3.

(** The environment [E] with another verifier. *)
Definition with_verifier (E : Env)
  (verify : Request → CredentialStore → World → @ErrorCode E) : Env :=
  {| ErrorCode := @ErrorCode E;
     ErrorCode_eq_dec := @ErrorCode_eq_dec E;
     ErrNone := @ErrNone E;
     V4SignVerify := verify;
     Error := @Error E;
     httpCode := @httpCode E;
     set_RequestId := @set_RequestId E;
     set_HostId := @set_HostId E;
     ErrWith := @ErrWith E;
     ErrSignature := @ErrSignature E;
     xml_Marshal := @xml_Marshal E;
     xml_LocationConstraint := @xml_LocationConstraint E;
     FormatHTTPTime := @FormatHTTPTime E |}.

Section WithEnv.
Context `{C : Codec} `{E : Env}.

(** How [HandlePutObject] answers the outcome of [PutObject]. *)
Definition put_reply (w : ResponseWriter) (outcome : res Metadata * World)
  : ResponseWriter * World :=
  match outcome with
  | (Err err, world2) =>
      (WriteError w (ErrWith StatusInternalServerError (Some err)), world2)
  | (Ok metadata, world2) =>
      (Write [] (WriteHeader StatusOK
                   (SetHeader HeaderEtag
                      (dquote +:+ Digest metadata +:+ dquote) w)),
       world2)
  end.

End WithEnv.

End ServerSpec.

(** * A concrete instance of the open parts, for the worked examples *)

Module Fixture.
Import OS bucket signature Creds S3.

(** A small self-delimiting encoding of [Metadata], standing in for JSON:
    a number is that many [x01] bytes and a closing [x00]; a string is its
    length and its bytes; an integer is a sign byte and its magnitude. *)
Definition put_nat (n : nat) : bytes := replicate n x01 ++ [x00].

Fixpoint get_nat (bs : bytes) : option (nat * bytes) :=
  match bs with
  | x01 :: rest =>
      match get_nat rest with
      | Some (n, rest') => Some (S n, rest')
      | None => None
      end
  | x00 :: rest => Some (0%nat, rest)
  | _ => None
  end.

Definition put_string (s : string) : bytes :=
  put_nat (length (list_byte_of_string s)) ++ list_byte_of_string s.

Definition get_string (bs : bytes) : option (string * bytes) :=
  match get_nat bs with
  | Some (n, rest) =>
      if decide (n ≤ length rest)%nat
      then Some (string_of_list_byte (take n rest), drop n rest)
      else None
  | None => None
  end.

Definition put_int (z : Z) : bytes :=
  (if decide (z < 0)%Z then x01 else x00) :: put_nat (Z.abs_nat z).

Definition get_int (bs : bytes) : option (Z * bytes) :=
  match bs with
  | sign :: rest =>
      match get_nat rest with
      | Some (n, rest') =>
          Some (if Byte.eqb sign x01 then (- Z.of_nat n)%Z else Z.of_nat n, rest')
      | None => None
      end
  | [] => None
  end.

Definition encode (m : Metadata) : bytes :=
  put_string (Digest m) ++ put_int (ContentLength m)
    ++ put_string (ContentType m) ++ put_int (ModTime m).

Definition decode (bs : bytes) : res Metadata :=
  match get_string bs with
  | Some (digest, bs1) =>
      match get_int bs1 with
      | Some (len, bs2) =>
          match get_string bs2 with
          | Some (ctype, bs3) =>
              match get_int bs3 with
              | Some (mtime, []) =>
                  Ok {| Digest := digest; ContentLength := len;
                        ContentType := ctype; ModTime := mtime |}
              | _ => Err UnmarshalError
              end
          | None => Err UnmarshalError
          end
      | None => Err UnmarshalError
      end
  | None => Err UnmarshalError
  end.

(** A stand-in for MD5: the sum of the bytes, modulo 256. *)
Definition checksum (bs : bytes) : bytes :=
  match Byte.of_N (fold_right (λ b acc, (Byte.to_N b + acc) mod 256)%N 0%N bs) with
  | Some b => [b]
  | None => []
  end.

#[export] Instance codec : Codec :=
  {| md5_Sum := checksum;
     json_Marshal := encode;
     json_Unmarshal := decode;
     chunked_ReadAll := λ _, Err (ReadError "chunk-signature") |}.

Inductive Verdict := Passed | Denied.

#[export] Instance Verdict_eq_dec : EqDecision Verdict.
Proof. solve_decision. Defined.

Record Reply := mkReply { status : Z; requestId : string; hostId : string }.

(** A verifier that passes the requests with an [Authorization] header. *)
#[export] Instance env : Env :=
  {| ErrorCode := Verdict;
     ErrNone := Passed;
     V4SignVerify := λ r _ _,
       if decide (Header_Get (Header r) "Authorization" = EmptyString)
       then Denied else Passed;
     Error := Reply;
     httpCode := status;
     set_RequestId := λ id e,
       {| status := status e; requestId := id; hostId := hostId e |};
     set_HostId := λ id e,
       {| status := status e; requestId := requestId e; hostId := id |};
     ErrWith := λ code _,
       {| status := code; requestId := EmptyString; hostId := EmptyString |};
     ErrSignature := λ _,
       {| status := 403; requestId := EmptyString; hostId := EmptyString |};
     xml_Marshal := λ e, list_byte_of_string (requestId e);
     xml_LocationConstraint := list_byte_of_string "<LocationConstraint/>";
     FormatHTTPTime := λ _, "Thu, 01 Jan 1970 00:00:00 GMT" |}.

Definition world0 : World := {| files := ∅; clock := 1000 |}.

Definition data_b1 : FileBucket :=
  {| path := "/data"; name := "b1"; directStore := false |}.

Definition data_b2 : FileBucket :=
  {| path := "/data"; name := "b2"; directStore := false |}.

Definition hello : bytes := list_byte_of_string "hello".

Definition object_at (key : string) : Object :=
  {| Key := key; ObjectContentType := "text/plain";
     ObjectMetadata := None; ReadCloser := BodyReader hello |}.

Definition fresh_writer : ResponseWriter :=
  {| w_Header := ∅; w_calls := [] |}.

Definition request (method target : string)
  (headers : list (string * list string)) (body : bytes) : Request :=
  {| Method := method; URL_Path := target; URL_Query := ∅;
     Header := list_to_map headers; Body := body |}.

(** The server of [NewFileServer("/data")], without and with credentials. *)
Definition open_server : server := NewFileServer "/data" [].

Definition locked_store : CredentialStore :=
  store_Put (Credential "AKIDEXAMPLE" "secret1234") (default_store empty_store).

Definition locked_server : server :=
  NewFileServer "/data" [WithAuth {[ "AKIDEXAMPLE" := "secret1234" ]}].

Definition streaming_put (target : string) : Request :=
  request "PUT" target [("X-Amz-Content-Sha256", [STREAMING_PAYLOAD])] hello.

(** The world after storing [a] in bucket [b1]. *)
Definition world_a : World :=
  (FileBucket_PutObject data_b1 (object_at "a") world0).2.

(** The world after storing [k] in bucket [b1] and losing its metadata
    file. *)
Definition world_k : World :=
  (Remove "/data/b1/k/metadata.json"
     (FileBucket_PutObject data_b1 (object_at "k") world0).2).2.

(** The world after storing [k/metadata.json/z] and then [k] in bucket
    [b1]: the second put fails, but leaves the content file of [k]. *)
Definition world_z : World :=
  (FileBucket_PutObject data_b1 (object_at "k/metadata.json/z") world0).2.

Definition world_zk : World :=
  (FileBucket_PutObject data_b1 (object_at "k") world_z).2.

End Fixture.

Module KeySpec.
Import GoPath.

(** The non-empty segments of a key. *)
Definition key_segments (key : string) : list string :=
  filter (λ e, nonempty e = true) (split key).

(** The route of a relative path, read as [path.Clean] reads it: how many
    levels it climbs above its start, and the elements it goes down from
    there.  While it is read, the elements to go down are kept last
    first. *)
Definition route_step (st : nat * list string) (e : string)
  : nat * list string :=
  if String.eqb e EmptyString then st
  else if String.eqb e "." then st
  else if String.eqb e ".." then
    match st.2 with
    | _ :: down => (st.1, down)
    | [] => (S st.1, [])
    end
  else (st.1, e :: st.2).

Definition route (es : list string) : nat * list string :=
  let st := fold_left route_step es (0%nat, []) in (st.1, rev st.2).

(** A path that climbs [climb] levels out of the directory at [ld] and
    then goes [down] comes back into the directory: the directories it
    left are the first it goes down again (and it does not climb above
    the start of a relative directory). *)
Definition reenters (ld : OS.loc) (climb : nat) (down : list string) : Prop :=
  drop (length ld.2 - climb)%nat ld.2 `prefix_of` down
  ∧ (ld.1 = true ∨ (climb ≤ length ld.2)%nat).

(** What the content path and the metadata path of a key end in. *)
Definition content_suffix (f : bucket.FileBucket) : list string :=
  if bucket.directStore f then [] else [".content"].

Definition metadata_suffix (f : bucket.FileBucket) : list string :=
  if bucket.directStore f then [] else ["metadata.json"].

(** One [..] element under the loop of [path.Clean]. *)
Definition pop (r : bool) (out : list string) : list string :=
  clean_step r out "..".

End KeySpec.

Module Scenario.
Import OS bucket signature Creds S3 Fixture.

(** Bucket [b1] in direct-store mode. *)
Definition direct_b1 : FileBucket :=
  {| path := "/data"; name := "b1"; directStore := true |}.

(** The world after [NewFileBucket] made bucket [b1]. *)
Definition world_b1 : World := (NewFileBucket "/data" "b1" false world0).2.

(** The world after storing [a] and then [k] in bucket [b1]. *)
Definition world_ak : World :=
  (FileBucket_PutObject data_b1 (object_at "k") world_a).2.

(** The world after storing [a] in the direct-store bucket. *)
Definition world_direct_a : World :=
  (FileBucket_PutObject direct_b1 (object_at "a") world0).2.

(** The world after storing [k] and overwriting its metadata file with a
    byte that is no encoding of a [Metadata]. *)
Definition world_garbled : World :=
  OS.Write (mkFile (true, ["data"; "b1"; "k"; "metadata.json"]) (File [] 1000))
    [x02] (FileBucket_PutObject data_b1 (object_at "k") world0).2.

(** An object whose reader fails: a chunked body with a bad signature. *)
Definition stalled_at (key : string) : Object :=
  {| Key := key; ObjectContentType := "text/plain";
     ObjectMetadata := None; ReadCloser := ChunkedReader hello |}.

(** A path element of 300 bytes, over [NAME_MAX]. *)
Definition long_element : string :=
  string_of_list_ascii (repeat "a"%char 300).

Definition put_k : Request :=
  request "PUT" "/b1/k" [("Content-Type", ["text/plain"])] hello.

(** [GET /?location] *)
Definition location_request : Request :=
  {| Method := "GET"; URL_Path := "/"; URL_Query := {[ "location" := [] ]};
     Header := ∅; Body := [] |}.

End Scenario.

(** * Facts about paths *)

Module GoPathFacts.
Import GoPath PathSpec.

(** The examples of the documentation of [path.Clean], [path.Join] and
    [path.Dir]. *)
Example Clean_doc :
  map Clean ["a/c"; "a//c"; "a/c/."; "a/c/b/.."; "/../a/c";
             "/../a/b/../././/c"; EmptyString; "../../a/.."; "a/../.."; "/"]
  = ["a/c"; "a/c"; "a/c"; "a/c"; "/a/c"; "/a/c"; "."; "../.."; ".."; "/"].
Proof. reflexivity. Qed.

Example Join_doc :
  map Join [["a"; "b"; "c"]; ["a"; "b/c"]; ["a/b"; "c"]; ["a/b"; "../../../xyz"];
            [EmptyString; EmptyString]; ["a"; EmptyString]; [EmptyString; "a"]]
  = ["a/b/c"; "a/b/c"; "a/b/c"; "../xyz"; EmptyString; "a"; "a"].
Proof. reflexivity. Qed.

Example Dir_doc :
  map Dir ["/a/b/c"; "a/b/c"; "/a/"; "a/"; "/"; EmptyString; "a"]
  = ["/a/b"; "a/b"; "/a"; "a"; "/"; "."; "."].
Proof. reflexivity. Qed.

Example SplitN2_doc :
  map (λ s, SplitN2 (Trim s)) ["/bkt/a/b"; "/bkt/"; "/"; EmptyString; "//bkt//a//"]
  = [["bkt"; "a/b"]; ["bkt"]; [EmptyString]; [EmptyString]; ["bkt"; "/a"]].
Proof. reflexivity. Qed.

Lemma split_nonnil s : split s ≠ [].
Proof.
  destruct s as [|c s]; simpl; [done|].
  destruct (Ascii.eqb c "/"); [done|]. by destruct (split s).
Qed.

Lemma append_String c a b : String c a +:+ b = String c (a +:+ b).
Proof. reflexivity. Qed.

Lemma append_nil_l b : EmptyString +:+ b = b.
Proof. reflexivity. Qed.

Lemma split_app_slash a b :
  split (a +:+ "/" +:+ b) = (split a ++ split b)%list.
Proof.
  induction a as [|c a IH].
  - reflexivity.
  - rewrite append_String. simpl.
    destruct (Ascii.eqb c "/"); simpl.
    + by rewrite IH.
    + rewrite IH. pose proof (split_nonnil a).
      destruct (split a); [done|]. reflexivity.
Qed.

Lemma split_no_slash s : Forall no_slash (split s).
Proof.
  induction s as [|c s IH]; simpl.
  - by constructor.
  - destruct (Ascii.eqb c "/") eqn:Hc.
    + constructor; [reflexivity|done].
    + pose proof (split_nonnil s).
      destruct (split s) as [|x xs]; [done|].
      inversion IH as [|? ? Hx Hxs]; subst.
      constructor; [|done].
      unfold no_slash in *. simpl. by rewrite Hc, Hx.
Qed.

Lemma no_slash_rooted e : no_slash e → e ≠ EmptyString → rooted e = false.
Proof.
  unfold no_slash. destruct e as [|c e]; [done|]. simpl. intros He _.
  destruct (Ascii.eqb c "/"); [|done].
  pose proof (split_nonnil e). by destruct (split e).
Qed.

Lemma split_join es :
  es ≠ [] → Forall no_slash es → split (join es) = es.
Proof.
  induction es as [|e es IH]; [done|]. intros _ Hes.
  inversion Hes as [|? ? He Hes']; subst.
  destruct es as [|e' es]; [exact He|].
  change (join (e :: e' :: es)) with (e +:+ "/" +:+ join (e' :: es)).
  rewrite split_app_slash, He, IH; done.
Qed.

Lemma join_nonempty e es : e ≠ EmptyString → join (e :: es) ≠ EmptyString.
Proof.
  intros He. destruct es; [done|].
  change (join (e :: s :: es)) with (e +:+ "/" +:+ join (s :: es)).
  destruct e; [done|]. by rewrite append_String.
Qed.

Lemma rooted_join e es :
  no_slash e → e ≠ EmptyString → rooted (join (e :: es)) = false.
Proof.
  intros Hs He. destruct es as [|e' es]; [by apply no_slash_rooted|].
  change (join (e :: e' :: es)) with (e +:+ "/" +:+ join (e' :: es)).
  pose proof (no_slash_rooted e Hs He) as Hr.
  destruct e; [done|]. by rewrite append_String.
Qed.

(** *** The loop of [path.Clean] on elements of known kind *)

Lemma eqb_false_iff' a b : a ≠ b → String.eqb a b = false.
Proof. by intros; apply String.eqb_neq. Qed.

Lemma clean_step_real r out e : real e → clean_step r out e = e :: out.
Proof.
  intros (H1 & H2 & H3). unfold clean_step.
  by rewrite !eqb_false_iff'.
Qed.

Lemma fold_real r reals out :
  Forall real reals →
  fold_left (clean_step r) reals out = (rev reals ++ out)%list.
Proof.
  revert out. induction reals as [|e es IH]; intros out Hes; [done|].
  inversion Hes; subst. simpl. rewrite clean_step_real, IH by done.
  by rewrite <- app_assoc.
Qed.

Lemma fold_dotdot n m :
  fold_left (clean_step false) (replicate n "..") (replicate m "..")
  = replicate (n + m) "..".
Proof.
  revert m. induction n as [|n IH]; intros m; [done|].
  simpl. replace (clean_step false (replicate m "..") "..")
    with (replicate (S m) "..").
  - rewrite IH. by replace (n + S m)%nat with (S (n + m)) by lia.
  - destruct m; reflexivity.
Qed.

Lemma rev_replicate {A} n (x : A) : rev (replicate n x) = replicate n x.
Proof.
  induction n as [|n IH]; [done|]. simpl. rewrite IH.
  clear IH. induction n; simpl; [done|]. by f_equal.
Qed.

(** A cleaned list of elements is left as it is. *)
Lemma clean_elems_cleaned_id r es : cleaned r es → clean_elems r es = es.
Proof.
  intros (n & reals & -> & Hreal & _ & Hr). unfold clean_elems.
  rewrite fold_left_app.
  assert (fold_left (clean_step r) (replicate n "..") [] = replicate n "..") as ->.
  { destruct r.
    - by rewrite Hr.
    - pose proof (fold_dotdot n 0) as Hd. simpl in Hd. rewrite Hd.
      by replace (n + 0)%nat with n by lia. }
  rewrite fold_real by done. rewrite rev_app_distr, rev_involutive.
  by rewrite rev_replicate.
Qed.

(** The loop keeps its buffer in cleaned form. *)
Lemma clean_step_cleaned r out e :
  no_slash e → cleaned r (rev out) → cleaned r (rev (clean_step r out e)).
Proof.
  intros He (n & reals & Hout & Hreal & Hns & Hr). unfold clean_step.
  destruct (String.eqb e EmptyString) eqn:E1; [by exists n, reals|].
  destruct (String.eqb e ".") eqn:E2; [by exists n, reals|].
  apply String.eqb_neq in E1, E2.
  destruct (String.eqb e "..") eqn:E3.
  - apply String.eqb_eq in E3. subst e.
    destruct reals as [|x xs _] using rev_ind.
    + rewrite app_nil_r in Hout.
      assert (out = replicate n "..") as ->.
      { rewrite <- (rev_involutive out), Hout. apply rev_replicate. }
      assert (can_backtrack (replicate n "..") = false) as ->
        by (by destruct n).
      destruct r.
      * exists n, []. by rewrite app_nil_r.
      * exists (S n), []. rewrite app_nil_r. simpl. rewrite rev_replicate.
        split; [|split; [done|split; [|done]]].
        -- clear. induction n; simpl; [done|]. by f_equal.
        -- rewrite Forall_app. split; [by rewrite <- Hout|]. by constructor.
    + rewrite app_assoc in Hout.
      assert (out = x :: rev (replicate n ".." ++ xs)) as ->.
      { rewrite <- (rev_involutive out), Hout. by rewrite rev_unit. }
      apply Forall_app in Hreal as [Hxs Hx]. inversion Hx as [|? ? Hxr _]; subst.
      simpl. rewrite eqb_false_iff' by apply Hxr. simpl.
      rewrite rev_involutive. exists n, xs. split; [done|]. split; [done|].
      split; [|done]. rewrite Hout in Hns. by apply Forall_app in Hns as [? _].
  - apply String.eqb_neq in E3. simpl. exists n, (reals ++ [e])%list.
    rewrite Hout, <- app_assoc. split; [done|].
    split; [rewrite Forall_app; split; [done|by constructor]|].
    split; [|done]. rewrite app_assoc, <- Hout. rewrite Forall_app.
    split; [done|by constructor].
Qed.

Lemma fold_cleaned r es out :
  Forall no_slash es → cleaned r (rev out) →
  cleaned r (rev (fold_left (clean_step r) es out)).
Proof.
  revert out. induction es as [|e es IH]; intros out Hes Hout; [done|].
  inversion Hes; subst. simpl. apply IH; [done|]. by apply clean_step_cleaned.
Qed.

Lemma cleaned_nil r : cleaned r [].
Proof. exists 0%nat, []. done. Qed.

Lemma clean_elems_cleaned r es : Forall no_slash es → cleaned r (clean_elems r es).
Proof. intros. apply fold_cleaned; [done|apply cleaned_nil]. Qed.

Lemma cleaned_head r e es : cleaned r (e :: es) → e ≠ EmptyString ∧ no_slash e.
Proof.
  intros (n & reals & Hes & Hreal & Hns & _).
  split; [|by inversion Hns].
  destruct n; simpl in Hes.
  - subst reals. inversion Hreal as [|? ? Hx _]. apply Hx.
  - by inversion Hes.
Qed.

Lemma cleaned_no_slash r es : cleaned r es → Forall no_slash es.
Proof. by intros (n & reals & _ & _ & Hns & _). Qed.

Lemma cleaned_removelast r es : cleaned r es → cleaned r (removelast es).
Proof.
  intros (n & reals & -> & Hreal & Hns & Hr).
  destruct reals as [|x xs _] using rev_ind.
  - rewrite app_nil_r in *. destruct n; [apply cleaned_nil|].
    exists n, []. rewrite app_nil_r.
    assert (replicate (S n) ".." = replicate n ".." ++ [".."])%list as Hs.
    { clear. induction n; simpl; [done|]. by f_equal. }
    rewrite Hs, removelast_last. split; [done|]. split; [done|].
    split; [|intros Hrt; by specialize (Hr Hrt)].
    rewrite Hs in Hns. by apply Forall_app in Hns as [? _].
  - rewrite app_assoc, removelast_last. exists n, xs.
    apply Forall_app in Hreal as [? _]. rewrite app_assoc in Hns.
    apply Forall_app in Hns as [? _]. done.
Qed.

Lemma clean_elems_cons_empty r es :
  clean_elems r (EmptyString :: es) = clean_elems r es.
Proof. reflexivity. Qed.

(** What a cleaned path reads back as. *)
Lemma render_cleaned r es :
  cleaned r es →
  render r es ≠ EmptyString ∧ rooted (render r es) = r
  ∧ clean_elems r (split (render r es)) = es.
Proof.
  intros Hc. destruct es as [|e es].
  - destruct r; done.
  - destruct (cleaned_head _ _ _ Hc) as [He Hs].
    pose proof (cleaned_no_slash _ _ Hc) as Hns.
    unfold render. destruct r.
    + split; [done|]. split; [done|].
      change ("/" +:+ join (e :: es)) with (EmptyString +:+ "/" +:+ join (e :: es)).
      rewrite split_app_slash, split_join by done.
      change (split EmptyString ++ e :: es)%list with (EmptyString :: e :: es).
      rewrite clean_elems_cons_empty. by apply clean_elems_cleaned_id.
    + rewrite append_nil_l. split; [by apply join_nonempty|].
      split; [by apply rooted_join|].
      rewrite split_join by done. by apply clean_elems_cleaned_id.
Qed.

Lemma loc_of_cleaned s : cleaned (loc_of s).1 (loc_of s).2.
Proof. apply clean_elems_cleaned, split_no_slash. Qed.

Lemma resolve_nonempty s : s ≠ EmptyString → OS.resolve s = Some (loc_of s).
Proof. intros Hs. unfold OS.resolve. by rewrite eqb_false_iff'. Qed.

Lemma resolve_render r es : cleaned r es → OS.resolve (render r es) = Some (r, es).
Proof.
  intros Hc. destruct (render_cleaned r es Hc) as (Hne & Hr & Hes).
  rewrite resolve_nonempty by done. unfold loc_of. by rewrite Hr, Hes.
Qed.

Lemma Clean_render s :
  s ≠ EmptyString → Clean s = render (loc_of s).1 (loc_of s).2.
Proof. intros Hs. unfold Clean. by rewrite eqb_false_iff'. Qed.

(** [path.Clean] does not change what a path names. *)
Lemma resolve_Clean s : s ≠ EmptyString → OS.resolve (Clean s) = Some (loc_of s).
Proof.
  intros Hs. rewrite Clean_render by done.
  rewrite resolve_render by apply loc_of_cleaned. by destruct (loc_of s).
Qed.

Lemma split_dir_fold xs :
  Forall no_slash xs →
  split (fold_right (λ e acc, e +:+ "/" +:+ acc) EmptyString xs)
  = (xs ++ [EmptyString])%list.
Proof.
  induction xs as [|x xs IH]; intros Hxs; [done|].
  inversion Hxs as [|? ? Hx Hxs']; subst. simpl.
  rewrite split_app_slash, Hx, IH; done.
Qed.

Lemma clean_elems_snoc_empty r es :
  clean_elems r (es ++ [EmptyString]) = clean_elems r es.
Proof. unfold clean_elems. by rewrite fold_left_app. Qed.

(** [path.Dir] of a cleaned path names the parent directory. *)
Lemma resolve_Dir_render r es :
  cleaned r es → OS.resolve (Dir (render r es)) = Some (r, removelast es).
Proof.
  intros Hc. pose proof (cleaned_removelast _ _ Hc) as Hc'.
  pose proof (cleaned_no_slash _ _ Hc) as Hns.
  assert (∀ xs, Forall no_slash xs → xs ≠ [] →
            rooted (fold_right (λ e acc, e +:+ "/" +:+ acc) EmptyString xs)
            = rooted (hd EmptyString xs +:+ "/")) as Hroot.
  { intros [|x xs] _ Hne; [done|]. simpl. by destruct x. }
  unfold Dir, dir_part.
  destruct es as [|e es].
  - destruct r; reflexivity.
  - destruct (cleaned_head _ _ _ Hc) as [He Hs].
    assert (split (render r (e :: es))
            = ((if r then [EmptyString] else []) ++ e :: es)%list) as ->.
    { unfold render. destruct r.
      - change ("/" +:+ join (e :: es))
          with (EmptyString +:+ "/" +:+ join (e :: es)).
        by rewrite split_app_slash, split_join.
      - by rewrite append_nil_l, split_join. }
    assert (removelast ((if r then [EmptyString] else []) ++ e :: es)
            = ((if r then [EmptyString] else []) ++ removelast (e :: es))%list) as ->.
    { destruct r; [|done]. change ([EmptyString] ++ e :: es)%list
        with (EmptyString :: e :: es). by destruct es. }
    set (xs := ((if r then [EmptyString] else []) ++ removelast (e :: es))%list).
    assert (Forall no_slash xs) as Hxs.
    { unfold xs. rewrite Forall_app. split.
      - destruct r; [|done]. by constructor.
      - by apply (cleaned_no_slash r). }
    destruct xs as [|x xs'] eqn:Exs.
    + (* relative path of one element: its directory is "." *)
      destruct r; [done|]. unfold xs in Exs. simpl in Exs.
      destruct es; [reflexivity|done].
    + rewrite <- Exs. rewrite <- Exs in Hxs.
      assert (fold_right (λ e acc, e +:+ "/" +:+ acc) EmptyString xs
              ≠ EmptyString) as Hne.
      { rewrite Exs. simpl. destruct x; done. }
      rewrite resolve_Clean by done. unfold loc_of.
      rewrite split_dir_fold, clean_elems_snoc_empty by done.
      rewrite Hroot by (done || by rewrite Exs).
      assert (rooted (hd EmptyString xs +:+ "/") = r) as ->.
      { destruct r; [done|]. rewrite Exs. simpl.
        assert (x ≠ EmptyString ∧ no_slash x) as [Hx1 Hx2].
        { apply (cleaned_head false x xs'). by rewrite <- Exs. }
        pose proof (no_slash_rooted x Hx2 Hx1). by destruct x. }
      f_equal. f_equal. unfold xs. destruct r.
      * change ([EmptyString] ++ removelast (e :: es))%list
          with (EmptyString :: removelast (e :: es)).
        rewrite clean_elems_cons_empty. by apply clean_elems_cleaned_id.
      * by apply clean_elems_cleaned_id.
Qed.

(** [path.Join] gives the empty string or a cleaned path. *)
Lemma Join_cases elem :
  Join elem = EmptyString
  ∨ ∃ s, s ≠ EmptyString ∧ Join elem = Clean s
         ∧ s = join (filter (λ e, nonempty e = true) elem).
Proof.
  unfold Join. destruct (filter _ elem) as [|e es] eqn:Hf; [by left|].
  right. exists (join (e :: es)). split; [|done].
  apply join_nonempty.
  assert (e ∈ filter (λ e, nonempty e = true) elem) as Hin
    by (rewrite Hf; constructor).
  apply list_elem_of_filter in Hin as [Hin _]. unfold nonempty in Hin.
  intros ->. done.
Qed.

Lemma resolve_Join_Dir elem l :
  OS.resolve (Join elem) = Some l →
  OS.resolve (Dir (Join elem)) = Some (OS.parent l) ∧ cleaned l.1 l.2.
Proof.
  destruct (Join_cases elem) as [->|(s & Hs & -> & _)]; [done|].
  rewrite resolve_Clean by done. intros [= <-].
  split; [|apply loc_of_cleaned].
  rewrite Clean_render by done. apply resolve_Dir_render, loc_of_cleaned.
Qed.

(** *** Joining a directory and a key *)

Lemma split_join_concat es :
  es ≠ [] → split (join es) = concat (map split es).
Proof.
  induction es as [|e es IH]; [done|]. intros _.
  destruct es as [|e' es]; [by rewrite (app_nil_r (split e) : concat (map split [e]) = split e)|].
  change (join (e :: e' :: es)) with (e +:+ "/" +:+ join (e' :: es)).
  rewrite split_app_slash, IH by done. reflexivity.
Qed.

Lemma rooted_join_head e es :
  e ≠ EmptyString → rooted (join (e :: es)) = rooted e.
Proof.
  intros He. destruct es as [|e' es]; [done|].
  change (join (e :: e' :: es)) with (e +:+ "/" +:+ join (e' :: es)).
  destruct e; [done|]. by rewrite append_String.
Qed.

Lemma fold_plain r es out :
  Forall plain es →
  fold_left (clean_step r) es out
  = rev (filter (λ e, nonempty e = true) es) ++ out.
Proof.
  revert out. induction es as [|e es IH]; intros out Hes; [done|].
  inversion Hes as [|? ? [H1 H2] Hes']; subst. simpl. rewrite IH by done.
  destruct (decide (e = EmptyString)) as [->|Hne].
  - reflexivity.
  - rewrite clean_step_real by done.
    rewrite filter_cons_True by (unfold nonempty; by rewrite eqb_false_iff').
    simpl. by rewrite <- app_assoc.
Qed.

Lemma clean_elems_app_plain r xs ks :
  Forall plain ks →
  clean_elems r (xs ++ ks)
  = clean_elems r xs ++ filter (λ e, nonempty e = true) ks.
Proof.
  intros Hks. unfold clean_elems.
  rewrite fold_left_app, fold_plain by done.
  by rewrite rev_app_distr, rev_involutive.
Qed.

Lemma filter_nonempty_head elem e es :
  filter (λ e, nonempty e = true) elem = e :: es → e ≠ EmptyString.
Proof.
  intros Hf.
  assert (e ∈ filter (λ e, nonempty e = true) elem) as Hin
    by (rewrite Hf; constructor).
  apply list_elem_of_filter in Hin as [Hin _]. unfold nonempty in Hin.
  intros ->. done.
Qed.

(** A path joined from elements of which the last is a real element without
    a slash names a location whose last element is that one. *)
Lemma resolve_Join_last elem e l :
  real e → no_slash e →
  OS.resolve (Join (elem ++ [e])) = Some l → last l.2 = Some e.
Proof.
  intros Hreal Hns. unfold Join. rewrite filter_app.
  rewrite (filter_cons_True _ e []) by
    (unfold nonempty; rewrite eqb_false_iff'; [done|apply Hreal]).
  rewrite filter_nil.
  destruct (filter _ elem ++ [e]) as [|d ds] eqn:Hf;
    [by destruct (filter _ elem)|].
  assert (d ≠ EmptyString) as Hd.
  { destruct (filter _ elem) as [|d' ds'] eqn:Hf'.
    - injection Hf as <- _. apply Hreal.
    - injection Hf as <- _. by apply (filter_nonempty_head elem d' ds'). }
  rewrite resolve_Clean by by apply join_nonempty.
  intros Heq. assert (l = loc_of (join (d :: ds))) as -> by congruence.
  unfold loc_of. cbn [snd].
  rewrite split_join_concat by done. rewrite <- Hf.
  rewrite map_app, concat_app. simpl. rewrite app_nil_r, Hns.
  unfold clean_elems. rewrite fold_left_app. simpl.
  rewrite clean_step_real by done. simpl. by rewrite last_snoc.
Qed.

End GoPathFacts.

(** * Facts about the file tree *)

Module OSFacts.
Import OS PathSpec TreeSpec.

Lemma all_dotdot_app xs ys :
  all_dotdot (xs ++ ys) = all_dotdot xs && all_dotdot ys.
Proof. unfold all_dotdot. apply forallb_app. Qed.

Lemma all_dotdot_prefix q es :
  q `prefix_of` es → all_dotdot es = true → all_dotdot q = true.
Proof.
  intros [k ->]. rewrite all_dotdot_app. by intros [? _]%andb_true_iff.
Qed.

Lemma node_at_insert fs l v x :
  node_at (<[l := v]> fs) x
  = if all_dotdot x.2 then Some Directory
    else if decide (l = x) then Some v else fs !! x.
Proof.
  unfold node_at. destruct (all_dotdot x.2); [done|].
  rewrite lookup_insert. by destruct (decide (l = x)).
Qed.

Lemma node_at_insert_ne fs l v x :
  l ≠ x → node_at (<[l := v]> fs) x = node_at fs x.
Proof.
  intros. unfold node_at. destruct (all_dotdot x.2); [done|].
  by rewrite lookup_insert_ne.
Qed.

Lemma node_at_insert_dir fs l x n :
  node_at fs x = Some n → node_at (<[l := Directory]> fs) x = Some n
                          ∨ (l = x ∧ node_at (<[l := Directory]> fs) x = Some Directory).
Proof.
  intros Hx. destruct (decide (l = x)) as [->|Hne].
  - right. split; [done|]. rewrite node_at_insert.
    destruct (all_dotdot x.2); [done|]. by rewrite decide_True.
  - left. by rewrite node_at_insert_ne.
Qed.

(** *** Names and their limits *)

Lemma length_append a b :
  String.length (a +:+ b) = (String.length a + String.length b)%nat.
Proof.
  induction a as [|c a IH]; [done|].
  rewrite GoPathFacts.append_String. simpl. by rewrite IH.
Qed.

Lemma has_nul_append a b : has_nul (a +:+ b) = has_nul a || has_nul b.
Proof.
  unfold has_nul. induction a as [|c a IH]; [done|].
  rewrite GoPathFacts.append_String. simpl. rewrite IH. by rewrite orb_assoc.
Qed.

Lemma append_assoc a b c : (a +:+ b) +:+ c = a +:+ b +:+ c.
Proof.
  induction a as [|x a IH]; [done|].
  rewrite !GoPathFacts.append_String. by rewrite IH.
Qed.

Lemma join_app q k :
  q ≠ [] → k ≠ [] →
  GoPath.join (q ++ k) = GoPath.join q +:+ "/" +:+ GoPath.join k.
Proof.
  induction q as [|x q IH]; [done|]. intros _ Hk.
  destruct q as [|y q].
  - destruct k; [done|]. reflexivity.
  - change (GoPath.join ((x :: y :: q) ++ k))
      with (x +:+ "/" +:+ GoPath.join ((y :: q) ++ k)).
    rewrite IH by done.
    change (GoPath.join (x :: y :: q))
      with (x +:+ "/" +:+ GoPath.join (y :: q)).
    by rewrite !append_assoc.
Qed.

Lemma name_of_app r q k :
  q ≠ [] → k ≠ [] →
  name_of (r, q ++ k) = name_of (r, q) +:+ "/" +:+ GoPath.join k.
Proof.
  intros Hq Hk. unfold name_of, GoPath.render. simpl.
  destruct q as [|x q]; [done|].
  change ((x :: q) ++ k) with (x :: (q ++ k)).
  change (x :: (q ++ k)) with ((x :: q) ++ k).
  destruct ((x :: q) ++ k) eqn:E; [done|]. rewrite <- E.
  rewrite join_app by done. by rewrite append_assoc.
Qed.

Lemma path_errno_root r : path_errno (r, []) = None.
Proof. by destruct r. Qed.

Lemma path_errno_None l :
  path_errno l = None ↔
  has_nul (name_of l) = false ∧ (String.length (name_of l) < PATH_MAX)%nat.
Proof.
  unfold path_errno. destruct (has_nul (name_of l)); [by split; [|intros []]|].
  destruct (Nat.leb_spec PATH_MAX (String.length (name_of l))).
  - split; [done|]. intros [_ ?]. lia.
  - done.
Qed.

(** What is above a path that passes passes too. *)
Lemma path_errno_prefix r q es :
  q `prefix_of` es → path_errno (r, es) = None → path_errno (r, q) = None.
Proof.
  intros [k ->] Hes. destruct q as [|x q]; [apply path_errno_root|].
  destruct k as [|y k]; [by rewrite app_nil_r in Hes|].
  apply path_errno_None in Hes as [Hnul Hlen]. apply path_errno_None.
  rewrite name_of_app in Hnul, Hlen by done.
  rewrite has_nul_append in Hnul. rewrite length_append in Hlen.
  apply orb_false_iff in Hnul as [Hnul _]. split; [done|lia].
Qed.

Lemma names_fit_prefix q es : q `prefix_of` es → names_fit es → names_fit q.
Proof. intros [k ->] Hes. by apply Forall_app in Hes as [? _]. Qed.

Lemma names_fit_removelast es : names_fit es → names_fit (removelast es).
Proof.
  destruct es as [|x es _] using rev_ind; [done|].
  rewrite removelast_last. intros Hes. by apply Forall_app in Hes as [? _].
Qed.

Lemma names_fit_dotdot es : all_dotdot es = true → names_fit es.
Proof.
  unfold all_dotdot. intros Hdd. apply Forall_forall. intros e He.
  apply list_elem_of_In in He.
  apply (proj1 (forallb_forall _ _) Hdd) in He.
  apply String.eqb_eq in He. by subst e.
Qed.

Lemma names_fit_last es : names_fit es → name_fits (List.last es EmptyString) = true.
Proof.
  destruct es as [|x es _] using rev_ind; [done|].
  rewrite last_last. intros Hes. apply Forall_app in Hes as [_ Hx].
  by inversion Hx.
Qed.

(** [os.Mkdir] refuses no path above one that resolves. *)
Lemma mkdir_errno_prefix r q es :
  q `prefix_of` es → path_errno (r, es) = None → names_fit es →
  mkdir_errno (r, q) = None.
Proof.
  intros Hq Hp Hn. unfold mkdir_errno.
  rewrite (path_errno_prefix r q es Hq Hp). simpl.
  by rewrite (names_fit_last q (names_fit_prefix _ _ Hq Hn)).
Qed.

(** *** Path resolution *)

Lemma walk_ok fs r pre rest n :
  walk fs r pre rest = inr n →
  node_at fs (r, pre ++ rest) = Some n
  ∧ ∀ q, proper_prefix q rest → node_at fs (r, pre ++ q) = Some Directory.
Proof.
  revert pre. induction rest as [|e rest IH]; intros pre; simpl.
  - destruct (node_at fs (r, pre)) eqn:Hn; [|done]. intros [= ->].
    rewrite app_nil_r. split; [done|].
    intros q [Hq Hne]. apply prefix_nil_inv in Hq. done.
  - destruct (node_at fs (r, pre)) as [[|]|] eqn:Hn; [done| |done].
    destruct (name_fits e); [|done].
    intros Hw. destruct (IH _ Hw) as [H1 H2].
    rewrite <- app_assoc in H1. split; [done|].
    intros q [Hq Hne]. destruct q as [|x q].
    + by rewrite app_nil_r.
    + pose proof (prefix_cons_inv_1 _ _ _ _ Hq) as ->.
      apply prefix_cons_inv_2 in Hq.
      specialize (H2 q). rewrite <- app_assoc in H2. apply H2.
      split; [done|]. by intros ->.
Qed.

Lemma walk_fits fs r pre rest n :
  walk fs r pre rest = inr n → names_fit rest.
Proof.
  revert pre. induction rest as [|e rest IH]; intros pre; simpl; [by constructor|].
  destruct (node_at fs (r, pre)) as [[|]|]; [done| |done].
  destruct (name_fits e) eqn:He; [|done].
  intros Hw. constructor; [done|]. by apply (IH _ Hw).
Qed.

Lemma walk_intro fs r pre rest n :
  names_fit rest →
  node_at fs (r, pre ++ rest) = Some n →
  (∀ q, proper_prefix q rest → node_at fs (r, pre ++ q) = Some Directory) →
  walk fs r pre rest = inr n.
Proof.
  revert pre. induction rest as [|e rest IH]; intros pre Hfit Hn Hd; simpl.
  - rewrite app_nil_r in Hn. by rewrite Hn.
  - inversion Hfit as [|? ? He Hfit']; subst.
    specialize (Hd []) as H0. rewrite app_nil_r in H0.
    rewrite H0 by (split; [apply prefix_nil|done]). rewrite He.
    apply IH; [done| |].
    + by rewrite <- app_assoc.
    + intros q [Hq Hne]. rewrite <- app_assoc. apply Hd.
      split; [by apply prefix_cons|]. by intros [= ->].
Qed.

Lemma walk_enoent fs r pre rest :
  walk fs r pre rest = inl ENOENT →
  ∃ q, q `prefix_of` rest ∧ names_fit q ∧ node_at fs (r, pre ++ q) = None
       ∧ ∀ q', proper_prefix q' q → node_at fs (r, pre ++ q') = Some Directory.
Proof.
  revert pre. induction rest as [|e rest IH]; intros pre; simpl.
  - destruct (node_at fs (r, pre)) eqn:Hn; [done|]. intros _.
    exists []. rewrite app_nil_r. split; [done|]. split; [by constructor|].
    split; [done|].
    intros q' [Hq' Hne]. apply prefix_nil_inv in Hq'. done.
  - destruct (node_at fs (r, pre)) as [[|]|] eqn:Hn; [done| |].
    + destruct (name_fits e) eqn:He; [|done].
      intros Hw. destruct (IH _ Hw) as (q & Hq & Hfit & Hnone & Hdirs).
      exists (e :: q). split; [by apply prefix_cons|].
      split; [by constructor|].
      rewrite <- app_assoc in Hnone. split; [done|].
      intros q' [Hq' Hne]. destruct q' as [|x q'].
      * by rewrite app_nil_r.
      * pose proof (prefix_cons_inv_1 _ _ _ _ Hq') as ->.
        apply prefix_cons_inv_2 in Hq'.
        specialize (Hdirs q'). rewrite <- app_assoc in Hdirs. apply Hdirs.
        split; [done|]. by intros ->.
    + intros _. exists []. rewrite app_nil_r. split; [apply prefix_nil|].
      split; [by constructor|].
      split; [done|]. intros q' [Hq' Hne]. apply prefix_nil_inv in Hq'. done.
Qed.

Lemma walk_enoent_intro fs r pre rest q :
  q `prefix_of` rest → names_fit q → node_at fs (r, pre ++ q) = None →
  (∀ q', proper_prefix q' q → node_at fs (r, pre ++ q') = Some Directory) →
  walk fs r pre rest = inl ENOENT.
Proof.
  revert pre q. induction rest as [|e rest IH];
    intros pre q Hq Hfit Hnone Hdirs; simpl.
  - apply prefix_nil_inv in Hq as ->. rewrite app_nil_r in Hnone. by rewrite Hnone.
  - destruct q as [|x q].
    + rewrite app_nil_r in Hnone. by rewrite Hnone.
    + pose proof (prefix_cons_inv_1 _ _ _ _ Hq) as ->.
      apply prefix_cons_inv_2 in Hq.
      inversion Hfit as [|? ? He Hfit']; subst.
      specialize (Hdirs []) as H0. rewrite app_nil_r in H0.
      rewrite H0 by (split; [apply prefix_nil|done]). rewrite He.
      apply (IH _ q); [done|done|by rewrite <- app_assoc|].
      intros q' [Hq' Hne]. rewrite <- app_assoc. apply Hdirs.
      split; [by apply prefix_cons|]. by intros [= ->].
Qed.

(** A path resolves when it passes the limits, everything above it is a
    directory, and it is there. *)
Lemma lookup_ok fs l n :
  lookup_path fs l = inr n →
  path_errno l = None ∧ names_fit l.2 ∧ node_at fs l = Some n
  ∧ ∀ q, proper_prefix q l.2 → node_at fs (l.1, q) = Some Directory.
Proof.
  unfold lookup_path. destruct (path_errno l); [done|]. intros Hw.
  split; [done|]. split; [by apply walk_fits in Hw|].
  apply walk_ok in Hw as [Hn Hd]. by destruct l.
Qed.

Lemma lookup_walk fs l n :
  lookup_path fs l = inr n → walk fs l.1 [] l.2 = inr n.
Proof. unfold lookup_path. by destruct (path_errno l). Qed.

Lemma lookup_intro fs l n :
  path_errno l = None → names_fit l.2 → node_at fs l = Some n →
  (∀ q, proper_prefix q l.2 → node_at fs (l.1, q) = Some Directory) →
  lookup_path fs l = inr n.
Proof.
  intros Hp Hfit Hn Hd. unfold lookup_path. rewrite Hp.
  apply walk_intro; [done|by destruct l|done].
Qed.

Lemma lookup_enoent fs l :
  lookup_path fs l = inl ENOENT →
  path_errno l = None
  ∧ ∃ q, q `prefix_of` l.2 ∧ names_fit q ∧ node_at fs (l.1, q) = None
         ∧ ∀ q', proper_prefix q' q → node_at fs (l.1, q') = Some Directory.
Proof.
  unfold lookup_path. destruct (path_errno l) as [e|] eqn:Hp.
  - intros [= ->]. revert Hp. unfold path_errno.
    destruct (has_nul _); [done|]. by destruct (_ <=? _)%nat.
  - intros Hw. split; [done|]. by apply walk_enoent in Hw.
Qed.

Lemma lookup_enoent_intro fs l q :
  path_errno l = None →
  q `prefix_of` l.2 → names_fit q → node_at fs (l.1, q) = None →
  (∀ q', proper_prefix q' q → node_at fs (l.1, q') = Some Directory) →
  lookup_path fs l = inl ENOENT.
Proof.
  intros Hp Hq Hfit Hnone Hd. unfold lookup_path. rewrite Hp.
  by apply (walk_enoent_intro _ _ _ _ q).
Qed.

Lemma proper_prefix_removelast q es :
  proper_prefix q es → q `prefix_of` removelast es.
Proof.
  intros [[k ->] Hne]. destruct k as [|x k _] using rev_ind.
  - by rewrite app_nil_r in Hne.
  - rewrite app_assoc, removelast_last. by apply prefix_app_r.
Qed.

Lemma prefix_removelast_proper q es :
  es ≠ [] → q `prefix_of` removelast es → proper_prefix q es.
Proof.
  intros Hes Hq. destruct es as [|x es _] using rev_ind; [done|].
  rewrite removelast_last in Hq. split; [by apply prefix_app_r|].
  intros ->. apply prefix_length in Hq. rewrite length_app in Hq. simpl in Hq. lia.
Qed.

(** In a well-formed tree everything above an entry is a directory. *)
Lemma wf_above fs r es n :
  wf fs → node_at fs (r, es) = Some n →
  ∀ q, proper_prefix q es → node_at fs (r, q) = Some Directory.
Proof.
  intros Hwf. revert n. induction es as [|x es IH] using rev_ind; intros n Hn q Hq.
  - destruct Hq as [Hq Hne]. by apply prefix_nil_inv in Hq.
  - assert (node_at fs (r, es) = Some Directory) as Hpar.
    { unfold node_at in Hn. simpl in Hn.
      destruct (all_dotdot (es ++ [x])) eqn:Hdd.
      - unfold node_at. simpl.
        rewrite (all_dotdot_prefix es (es ++ [x])); [done| by apply prefix_app_r |done].
      - apply Hwf in Hn. unfold parent in Hn. simpl in Hn.
        by rewrite removelast_last in Hn. }
    apply proper_prefix_removelast in Hq. rewrite removelast_last in Hq.
    destruct (decide (q = es)) as [->|Hne]; [done|].
    by apply (IH Directory).
Qed.

Lemma wf_walk fs l n :
  wf fs → path_errno l = None → names_fit l.2 →
  node_at fs l = Some n → lookup_path fs l = inr n.
Proof.
  intros Hwf Hp Hfit Hn. apply lookup_intro; [done..|].
  destruct l as [r es]. intros q Hq. by apply (wf_above fs r es n).
Qed.

Lemma wf_empty : wf ∅.
Proof. intros l n Hl. by rewrite lookup_empty in Hl. Qed.

Lemma node_at_root fs l : l.2 = [] → node_at fs l = Some Directory.
Proof. intros Hl. unfold node_at. by rewrite Hl. Qed.

(** *** Well-formedness is kept by every change the system calls make *)

Lemma wf_insert_dir fs l :
  wf fs → node_at fs (parent l) = Some Directory → wf (<[l := Directory]> fs).
Proof.
  intros Hwf Hpar k n Hk.
  assert (node_at fs (parent k) = Some Directory) as Hp.
  { destruct (decide (l = k)) as [->|Hne]; [done|].
    rewrite lookup_insert_ne in Hk by done. by apply Hwf in Hk. }
  by destruct (node_at_insert_dir fs l _ _ Hp) as [?|[_ ?]].
Qed.

Lemma wf_insert_file fs l c t :
  wf fs → node_at fs (parent l) = Some Directory →
  node_at fs l ≠ Some Directory →
  wf (<[l := File c t]> fs).
Proof.
  intros Hwf Hpar Hl k n Hk.
  assert (node_at fs (parent k) = Some Directory) as Hp.
  { destruct (decide (l = k)) as [->|Hne]; [done|].
    rewrite lookup_insert_ne in Hk by done. by apply Hwf in Hk. }
  rewrite node_at_insert_ne; [done|]. intros Heq. rewrite <- Heq in Hp. done.
Qed.

Lemma wf_delete fs l :
  wf fs → (∀ k n, fs !! k = Some n → k ≠ l → parent k ≠ l) → wf (delete l fs).
Proof.
  intros Hwf Hch k n Hk.
  apply lookup_delete_Some in Hk as [Hne Hk].
  pose proof (Hch _ _ Hk (not_eq_sym Hne)) as Hpk.
  apply Hwf in Hk. unfold node_at in *.
  destruct (all_dotdot (parent k).2); [done|].
  by rewrite lookup_delete_ne.
Qed.

Lemma wf_no_children_of_file fs l c t :
  wf fs → node_at fs l = Some (File c t) →
  ∀ k n, fs !! k = Some n → k ≠ l → parent k ≠ l.
Proof.
  intros Hwf Hl k n Hk _ Hpar. apply Hwf in Hk. rewrite Hpar in Hk. congruence.
Qed.

(** *** [os.MkdirAll] *)

Lemma grown_node_at P fs fs' l n :
  grown P fs fs' → node_at fs l = Some n → node_at fs' l = Some n.
Proof.
  intros Hg. unfold node_at. destruct (all_dotdot l.2); [done|].
  intros Hl. destruct (Hg l) as [->|[Hnone _]]; congruence.
Qed.

Lemma grown_node_at_outside (P : loc → Prop) fs fs' l :
  grown P fs fs' → ¬ P l → node_at fs' l = node_at fs l.
Proof.
  intros Hg Hl. unfold node_at. destruct (all_dotdot l.2); [done|].
  by destruct (Hg l) as [->|(_ & _ & ?)].
Qed.

Lemma grown_refl P fs : grown P fs fs.
Proof. intros l. by left. Qed.

Lemma grown_trans (P Q R : loc → Prop) fs fs1 fs2 :
  grown P fs fs1 → grown Q fs1 fs2 →
  (∀ l, P l → R l) → (∀ l, Q l → R l) → grown R fs fs2.
Proof.
  intros H1 H2 HP HQ l.
  destruct (H1 l) as [E1|(N1 & D1 & P1)], (H2 l) as [E2|(N2 & D2 & Q2)].
  - left. congruence.
  - right. split; [congruence|]. split; [done|]. by apply HQ.
  - right. split; [done|]. split; [congruence|]. by apply HP.
  - congruence.
Qed.

Lemma grown_insert fs l :
  node_at fs l = None → grown (λ k, k = l) fs (<[l := Directory]> fs).
Proof.
  intros Hn k. destruct (decide (k = l)) as [->|Hne].
  - right. rewrite lookup_insert_eq. unfold node_at in Hn.
    by destruct (all_dotdot l.2).
  - left. by rewrite lookup_insert_ne.
Qed.

Lemma node_at_insert_eq fs l :
  node_at (<[l := Directory]> fs) l = Some Directory.
Proof.
  rewrite node_at_insert. destruct (all_dotdot l.2); [done|].
  by rewrite decide_True.
Qed.

Lemma mkdir_walk_unfold fs r pre rest :
  mkdir_walk fs r pre rest
  = match mkdir_errno (r, pre) with
    | Some e => inl (e, pre, fs)
    | None =>
        match node_at fs (r, pre) with
        | Some (File _ _) => inl (ENOTDIR, pre, fs)
        | o =>
            let fs' := match o with
                       | None => <[(r, pre) := Directory]> fs
                       | Some _ => fs
                       end in
            match rest with
            | [] => inr fs'
            | e :: rest' => mkdir_walk fs' r (pre ++ [e]) rest'
            end
        end
    end.
Proof. by destruct rest. Qed.

(** However it ends, [mkdir_walk] only adds directories on its way. *)
Lemma mkdir_walk_grown fs r pre rest :
  grown (λ l, ∃ q, q `prefix_of` rest ∧ l = (r, pre ++ q))
    fs (mkdir_tree (mkdir_walk fs r pre rest)).
Proof.
  revert fs pre. induction rest as [|e rest IH]; intros fs pre;
    rewrite mkdir_walk_unfold;
    (destruct (mkdir_errno (r, pre)); [apply grown_refl|]);
    destruct (node_at fs (r, pre)) as [[|]|] eqn:Hn; try apply grown_refl.
  - apply (grown_trans _ _ _ _ _ _ (grown_insert fs _ Hn) (grown_refl (λ _, False) _));
      [|done].
    intros l ->. exists []. by rewrite app_nil_r.
  - simpl. apply (grown_trans _ _ _ _ _ _ (grown_refl (λ _, False) _) (IH fs _));
      [done|].
    intros l (q & Hq & ->). exists (e :: q).
    split; [by apply prefix_cons|]. by rewrite <- app_assoc.
  - simpl. apply (grown_trans _ _ _ _ _ _ (grown_insert fs _ Hn) (IH _ _)).
    + intros l ->. exists []. split; [apply prefix_nil|]. by rewrite app_nil_r.
    + intros l (q & Hq & ->). exists (e :: q).
      split; [by apply prefix_cons|]. by rewrite <- app_assoc.
Qed.

Lemma mkdir_walk_dirs fs r pre rest fs' :
  mkdir_walk fs r pre rest = inr fs' →
  ∀ q, q `prefix_of` rest →
    node_at fs' (r, pre ++ q) = Some Directory
    ∧ mkdir_errno (r, pre ++ q) = None.
Proof.
  revert fs pre. induction rest as [|e rest IH]; intros fs pre;
    rewrite mkdir_walk_unfold;
    (destruct (mkdir_errno (r, pre)) eqn:Herr; [done|]);
    destruct (node_at fs (r, pre)) as [[|]|] eqn:Hn; try done; simpl.
  - intros [= <-] q ->%prefix_nil_inv. by rewrite app_nil_r.
  - intros [= <-] q ->%prefix_nil_inv. rewrite app_nil_r.
    by rewrite node_at_insert_eq.
  - intros Hw q Hq. destruct q as [|x q].
    + rewrite app_nil_r. split; [|done].
      pose proof (mkdir_walk_grown fs r (pre ++ [e]) rest) as Hg.
      rewrite Hw in Hg. by apply (grown_node_at _ _ _ _ _ Hg).
    + pose proof (prefix_cons_inv_1 _ _ _ _ Hq) as ->.
      apply prefix_cons_inv_2 in Hq.
      specialize (IH _ _ Hw q Hq). by rewrite <- app_assoc in IH.
  - intros Hw q Hq. destruct q as [|x q].
    + rewrite app_nil_r. split; [|done].
      pose proof (mkdir_walk_grown (<[(r, pre):=Directory]> fs) r (pre ++ [e]) rest)
        as Hg.
      rewrite Hw in Hg. apply (grown_node_at _ _ _ _ _ Hg).
      apply node_at_insert_eq.
    + pose proof (prefix_cons_inv_1 _ _ _ _ Hq) as ->.
      apply prefix_cons_inv_2 in Hq.
      specialize (IH _ _ Hw q Hq). by rewrite <- app_assoc in IH.
Qed.

Lemma mkdir_walk_spec fs r pre rest fs' :
  mkdir_walk fs r pre rest = inr fs' →
  (∀ q, q `prefix_of` rest → node_at fs' (r, pre ++ q) = Some Directory)
  ∧ grown (λ l, ∃ q, q `prefix_of` rest ∧ l = (r, pre ++ q)) fs fs'.
Proof.
  intros Hw. split.
  - intros q Hq. by apply (mkdir_walk_dirs _ _ _ _ _ Hw q Hq).
  - pose proof (mkdir_walk_grown fs r pre rest) as Hg. by rewrite Hw in Hg.
Qed.

Lemma mkdir_walk_ok fs r pre rest :
  (∀ q, q `prefix_of` rest → mkdir_errno (r, pre ++ q) = None) →
  (∀ q c t, q `prefix_of` rest → node_at fs (r, pre ++ q) ≠ Some (File c t)) →
  ∃ fs', mkdir_walk fs r pre rest = inr fs'.
Proof.
  revert fs pre. induction rest as [|e rest IH]; intros fs pre Herr Hnf;
    rewrite mkdir_walk_unfold;
    specialize (Herr []) as He0; rewrite app_nil_r in He0;
    rewrite He0 by apply prefix_nil;
    specialize (Hnf []) as H0; rewrite app_nil_r in H0.
  - destruct (node_at fs (r, pre)) as [[c0 t0|]|] eqn:Hn; eauto.
    by destruct (H0 c0 t0 (prefix_nil _)).
  - destruct (node_at fs (r, pre)) as [[c0 t0|]|] eqn:Hn; simpl.
    + by destruct (H0 c0 t0 (prefix_nil _)).
    + apply IH.
      * intros q Hq. rewrite <- app_assoc. apply Herr. by apply prefix_cons.
      * intros q c t Hq. rewrite <- app_assoc. apply Hnf.
        by apply prefix_cons.
    + apply IH.
      * intros q Hq. rewrite <- app_assoc. apply Herr. by apply prefix_cons.
      * intros q c t Hq. rewrite <- app_assoc.
        rewrite node_at_insert_ne.
        -- apply Hnf. by apply prefix_cons.
        -- intros [= Heq]. apply (f_equal length) in Heq.
           rewrite length_app in Heq. simpl in Heq. lia.
Qed.

Lemma mkdir_walk_noop fs r pre rest :
  (∀ q, q `prefix_of` rest → mkdir_errno (r, pre ++ q) = None) →
  (∀ q, q `prefix_of` rest → node_at fs (r, pre ++ q) = Some Directory) →
  mkdir_walk fs r pre rest = inr fs.
Proof.
  revert pre. induction rest as [|e rest IH]; intros pre Herr Hd;
    rewrite mkdir_walk_unfold;
    specialize (Herr []) as He0; rewrite app_nil_r in He0;
    rewrite He0 by apply prefix_nil;
    specialize (Hd []) as H0; rewrite app_nil_r in H0;
    rewrite H0 by apply prefix_nil; [done|]. simpl.
  apply IH.
  - intros q Hq. rewrite <- app_assoc. apply Herr. by apply prefix_cons.
  - intros q Hq. rewrite <- app_assoc. apply Hd. by apply prefix_cons.
Qed.

(** A regular file on the way stops [os.MkdirAll] there, before anything
    is made. *)
Lemma mkdir_walk_blocked fs r pre es more c t :
  (∀ q, q `prefix_of` es → mkdir_errno (r, pre ++ q) = None) →
  walk fs r pre es = inr (File c t) →
  mkdir_walk fs r pre (es ++ more) = inl (ENOTDIR, pre ++ es, fs).
Proof.
  revert pre. induction es as [|e es IH]; intros pre Herr;
    rewrite mkdir_walk_unfold;
    specialize (Herr []) as He0; rewrite app_nil_r in He0;
    rewrite He0 by apply prefix_nil; simpl.
  - destruct (node_at fs (r, pre)) as [n|] eqn:Hn; [|done].
    intros [= ->]. by rewrite app_nil_r.
  - destruct (node_at fs (r, pre)) as [[c' t'|]|] eqn:Hn; [done| |done].
    destruct (name_fits e); [|done]. intros Hw.
    rewrite IH; [by rewrite <- app_assoc| |done].
    intros q Hq. rewrite <- app_assoc. apply Herr. by apply prefix_cons.
Qed.

Lemma mkdir_walk_wf fs r pre rest :
  wf fs → node_at fs (parent (r, pre)) = Some Directory →
  wf (mkdir_tree (mkdir_walk fs r pre rest)).
Proof.
  revert fs pre. induction rest as [|e rest IH]; intros fs pre Hwf Hpar;
    rewrite mkdir_walk_unfold;
    (destruct (mkdir_errno (r, pre)); [done|]);
    destruct (node_at fs (r, pre)) as [[|]|] eqn:Hn; try done; simpl.
  - by apply wf_insert_dir.
  - apply IH; [done|]. unfold parent. simpl. by rewrite removelast_last.
  - apply IH; [by apply wf_insert_dir|]. unfold parent. simpl.
    rewrite removelast_last. apply node_at_insert_eq.
Qed.

(** Making the directory of a path that resolves changes nothing. *)
Lemma mkdir_parent_found fs l n :
  lookup_path fs l = inr n →
  mkdir_walk fs l.1 [] (removelast l.2) = inr fs.
Proof.
  intros Hl. apply lookup_ok in Hl as (Hp & Hfit & _ & Hd).
  destruct l as [r es]. simpl in *. apply mkdir_walk_noop.
  - intros q Hq. simpl. apply (mkdir_errno_prefix r q es); [|done..].
    destruct Hq as [k Hk]. exists (k ++ drop (length (removelast es)) es).
    rewrite app_assoc, <- Hk. clear.
    destruct es as [|x es _] using rev_ind; [done|].
    rewrite removelast_last. by rewrite drop_app_length.
  - intros q Hq. simpl.
    destruct es as [|x es]; [by apply prefix_nil_inv in Hq as ->|].
    apply (Hd q). by apply prefix_removelast_proper.
Qed.

Lemma walk_all_dotdot fs r es : all_dotdot es = true → walk fs r [] es = inr Directory.
Proof.
  intros Hdd. apply walk_intro.
  - by apply names_fit_dotdot.
  - unfold node_at. simpl. by rewrite Hdd.
  - intros q [Hq _]. unfold node_at. simpl.
    by rewrite (all_dotdot_prefix q es).
Qed.

Lemma prefix_removelast_prefix {A} (q es : list A) :
  q `prefix_of` removelast es → q `prefix_of` es.
Proof.
  destruct es as [|x es _] using rev_ind; [done|].
  rewrite removelast_last. by apply prefix_app_r.
Qed.

(** Making the directory of a path of which some element is missing:
    the directory now exists, the path itself is still missing, and
    nothing that existed has changed. *)
Lemma mkdir_parent_missing fs l :
  wf fs → lookup_path fs l = inl ENOENT → names_fit l.2 →
  ∃ fs1, mkdir_walk fs l.1 [] (removelast l.2) = inr fs1
         ∧ wf fs1
         ∧ node_at fs1 l = None
         ∧ lookup_path fs1 l = inl ENOENT
         ∧ lookup_path fs1 (parent l) = inr Directory
         ∧ (∀ k n, node_at fs k = Some n → node_at fs1 k = Some n).
Proof.
  intros Hwf Hw Hfit.
  destruct (lookup_enoent _ _ Hw) as (Hp & q0 & Hq0 & _ & Hq0none & Hq0dirs).
  assert (node_at fs l = None) as Hnone.
  { destruct (node_at fs l) as [n|] eqn:Hn; [|done].
    apply (wf_walk fs l n Hwf Hp Hfit) in Hn. congruence. }
  destruct l as [r es]. simpl in *.
  assert (es ≠ []) as Hes.
  { intros ->. by rewrite (node_at_root fs (r, [])) in Hnone. }
  assert (∀ q, q `prefix_of` removelast es → mkdir_errno (r, q) = None) as Herr.
  { intros q Hq. apply (mkdir_errno_prefix r q es); [|done..].
    by apply prefix_removelast_prefix. }
  destruct (mkdir_walk_ok fs r [] (removelast es)) as [fs1 Hmk]; [done| |].
  { intros q c t Hq Hfile. simpl in Hfile.
    (* a file on the way would have all its ancestors, the missing one too *)
    apply prefix_removelast_proper in Hq; [|done].
    destruct (decide (q0 `prefix_of` q)) as [Hq0q|Hnq].
    - destruct (decide (q0 = q)) as [->|Hne]; [congruence|].
      pose proof (wf_above fs r q _ Hwf Hfile q0 (conj Hq0q Hne)). congruence.
    - destruct Hq as [Hq _].
      destruct (prefix_weak_total _ _ _ Hq0 Hq) as [?|Hqq0]; [done|].
      assert (proper_prefix q q0) as Hpp by (split; [done|by intros ->]).
      specialize (Hq0dirs q Hpp). congruence. }
  exists fs1. split; [done|].
  destruct (mkdir_walk_spec _ _ _ _ _ Hmk) as [Hdirs Hg]. simpl in Hdirs.
  assert (node_at fs1 (r, es) = None) as Hnone1.
  { rewrite (grown_node_at_outside _ _ _ _ Hg); [done|].
    intros (q & Hq & [= ->]). simpl in Hq.
    apply prefix_removelast_proper in Hq; [|done]. by destruct Hq. }
  split.
  { pose proof (mkdir_walk_wf fs r [] (removelast es) Hwf) as Hwf1.
    rewrite Hmk in Hwf1. apply Hwf1. by apply node_at_root. }
  split; [done|]. split; [|split].
  - apply (lookup_enoent_intro fs1 (r, es) es); [done|done|done|done|].
    intros q' Hq'. apply Hdirs. by apply proper_prefix_removelast.
  - apply lookup_intro; simpl.
    + apply (path_errno_prefix r _ es); [|done].
      by apply (prefix_removelast_prefix (removelast es)).
    + by apply names_fit_removelast.
    + by apply Hdirs.
    + intros q' [Hq' _]. by apply Hdirs.
  - intros k n. apply (grown_node_at _ _ _ _ _ Hg).
Qed.

(** *** The system calls on a world *)

Lemma set_files_id w : set_files w (files w) = w.
Proof. by destruct w. Qed.

Lemma lookup_after_write fs l c t :
  path_errno l = None → names_fit l.2 →
  all_dotdot l.2 = false →
  (∀ q, proper_prefix q l.2 → node_at fs (l.1, q) = Some Directory) →
  lookup_path (<[l := File c t]> fs) l = inr (File c t).
Proof.
  intros Hp Hfit Hdd Hdirs. apply lookup_intro; [done|done| |].
  - rewrite node_at_insert. by rewrite Hdd, decide_True.
  - intros q Hq. rewrite node_at_insert_ne; [by apply Hdirs|].
    destruct l as [r es]. intros [= ->]. by destruct Hq.
Qed.

(** A successful [os.Create]. *)
Lemma Create_ok name w f w' :
  Create name w = (Ok f, w') →
  resolve name = Some (fd_loc f)
  ∧ all_dotdot (fd_loc f).2 = false
  ∧ (∀ q, proper_prefix q (fd_loc f).2 →
          node_at (files w) ((fd_loc f).1, q) = Some Directory)
  ∧ node_at (files w) (fd_loc f) ≠ Some Directory
  ∧ w' = set_files w (<[fd_loc f := File [] (clock w)]> (files w)).
Proof.
  unfold Create. destruct (resolve name) as [l|]; [|done].
  destruct (lookup_path (files w) l) as [[]|[c t|]] eqn:Hl; try done.
  - destruct (lookup_path (files w) (parent l)) as [e|[|]] eqn:Hp; try done.
    intros [= <- <-]. simpl. split; [done|].
    destruct (lookup_enoent _ _ Hl) as (Hpe & q0 & Hq0 & Hq0fit & Hq0none & _).
    apply lookup_ok in Hp as (_ & _ & Hpn & Hpd).
    unfold parent in Hpn, Hpd. simpl in Hpn, Hpd.
    assert (∀ q, proper_prefix q l.2 →
                 node_at (files w) (l.1, q) = Some Directory) as Hdirs.
    { intros q Hq. apply proper_prefix_removelast in Hq.
      destruct (decide (q = removelast l.2)) as [->|Hne]; [done|].
      by apply Hpd. }
    assert (q0 = l.2) as ->.
    { destruct (decide (q0 = l.2)) as [|Hne]; [done|].
      rewrite Hdirs in Hq0none; done. }
    assert (all_dotdot l.2 = false) as Hnd.
    { unfold node_at in Hq0none. simpl in Hq0none.
      by destruct (all_dotdot l.2). }
    split; [done|]. split; [done|]. split; [|done].
    destruct l. simpl in *. congruence.
  - intros [= <- <-]. simpl. split; [done|].
    apply lookup_ok in Hl as (_ & _ & Hn & Hd).
    split; [|split; [done|split; [congruence|done]]].
    unfold node_at in Hn. destruct (all_dotdot l.2); [done|done].
Qed.

(** The path of a file that [os.Create] made passes the limits. *)
Lemma Create_fits name w f w' :
  Create name w = (Ok f, w') →
  path_errno (fd_loc f) = None ∧ names_fit (fd_loc f).2.
Proof.
  unfold Create. destruct (resolve name) as [l|]; [|done].
  destruct (lookup_path (files w) l) as [[]|[c t|]] eqn:Hl; try done.
  - destruct (lookup_path (files w) (parent l)) as [e|[|]] eqn:Hp; try done.
    intros [= <- <-]. simpl.
    destruct (lookup_enoent _ _ Hl) as (Hpe & q0 & Hq0 & Hq0fit & Hq0none & _).
    split; [done|].
    apply lookup_ok in Hp as (_ & _ & Hpn & Hpd).
    unfold parent in Hpn, Hpd. simpl in Hpn, Hpd.
    assert (q0 = l.2) as ->; [|done].
    destruct (decide (q0 = l.2)) as [|Hne]; [done|].
    assert (proper_prefix q0 l.2) as Hq by done.
    apply proper_prefix_removelast in Hq.
    destruct (decide (q0 = removelast l.2)) as [->|Hne']; [congruence|].
    rewrite Hpd in Hq0none; done.
  - intros [= <- <-]. simpl. by apply lookup_ok in Hl as (? & ? & _).
Qed.

Lemma Open_resolved name l w :
  resolve name = Some l →
  Open name w = match lookup_path (files w) l with
                | inr n => Ok (mkFile l n)
                | inl e => Err (PathError "open" name e)
                end.
Proof. unfold Open. by intros ->. Qed.

(** *** What a change elsewhere leaves alone *)

Lemma lookup_path_grown P fs fs' l n :
  grown P fs fs' → lookup_path fs l = inr n → lookup_path fs' l = inr n.
Proof.
  intros Hg Hl. apply lookup_ok in Hl as (Hp & Hfit & Hn & Hd).
  apply lookup_intro; [done|done| |].
  - by apply (grown_node_at P fs).
  - intros q Hq. apply (grown_node_at P fs); [done|by apply Hd].
Qed.

Lemma lookup_path_insert_other fs l k v n :
  lookup_path fs l = inr n → l ≠ k → node_at fs k ≠ Some Directory →
  lookup_path (<[k := v]> fs) l = inr n.
Proof.
  intros Hl Hne Hk. apply lookup_ok in Hl as (Hp & Hfit & Hn & Hd).
  apply lookup_intro; [done|done| |].
  - by rewrite node_at_insert_ne.
  - intros q Hq. rewrite node_at_insert_ne; [by apply Hd|].
    intros ->. apply Hk. by apply Hd.
Qed.

(** The tree after [os.MkdirAll], however it ends. *)
Lemma MkdirAll_tree name w e w' :
  MkdirAll name w = (e, w') →
  w' = w
  ∨ ∃ l, resolve name = Some l
         ∧ w' = set_files w (mkdir_tree (mkdir_walk (files w) l.1 [] l.2)).
Proof.
  unfold MkdirAll. destruct (resolve name) as [l|]; [|intros [= _ <-]; by left].
  intros Hm. right. exists l. split; [done|].
  by destruct (mkdir_walk _ _ _ _) as [[[? ?] ?]|fs']; injection Hm as _ <-.
Qed.

Lemma MkdirAll_keeps name w e w' l n :
  MkdirAll name w = (e, w') →
  lookup_path (files w) l = inr n → lookup_path (files w') l = inr n.
Proof.
  intros Hm Hl.
  destruct (MkdirAll_tree _ _ _ _ Hm) as [->|(d & _ & ->)]; [done|]. simpl.
  exact (lookup_path_grown _ _ _ _ _ (mkdir_walk_grown _ _ _ _) Hl).
Qed.

Lemma MkdirAll_clock name w e w' : MkdirAll name w = (e, w') → clock w' = clock w.
Proof.
  intros Hm. by destruct (MkdirAll_tree _ _ _ _ Hm) as [->|(d & _ & ->)].
Qed.

(** *** The system calls keep the tree well-formed *)

Lemma MkdirAll_wf name w e w' :
  wf (files w) → MkdirAll name w = (e, w') → wf (files w').
Proof.
  intros Hwf Hm.
  destruct (MkdirAll_tree _ _ _ _ Hm) as [->|(d & _ & ->)]; [done|]. simpl.
  apply mkdir_walk_wf; [done|]. by apply node_at_root.
Qed.

Lemma Create_wf name w r w' :
  wf (files w) → Create name w = (r, w') → wf (files w').
Proof.
  intros Hwf Hc. destruct r as [f|e].
  - apply Create_ok in Hc as (_ & Hdd & Hdirs & Hnd & ->). simpl.
    apply wf_insert_file; [done| |done].
    unfold parent. simpl. apply Hdirs.
    apply prefix_removelast_proper; [|done].
    intros Hnil. by rewrite Hnil in Hdd.
  - revert Hc. unfold Create. destruct (resolve name) as [l|]; [|by intros [= _ <-]].
    destruct (lookup_path (files w) l) as [[]|[|]]; try by intros [= _ <-].
    destruct (lookup_path (files w) (parent l)) as [|[|]]; by intros [= _ <-].
Qed.

(** Writing to a file that was just created. *)
Lemma Write_wf name w f w' content :
  wf (files w) → Create name w = (Ok f, w') → wf (files (Write f content w')).
Proof.
  intros Hwf Hc. pose proof (Create_wf _ _ _ _ Hwf Hc) as Hwf'.
  apply Create_ok in Hc as (_ & Hdd & Hdirs & Hnd & ->). simpl in *.
  rewrite insert_insert_eq. apply wf_insert_file; [done| |done].
  unfold parent. simpl. apply Hdirs.
  apply prefix_removelast_proper; [|done].
  intros Hnil. by rewrite Hnil in Hdd.
Qed.

Lemma has_children_false fs l :
  has_children fs l = false →
  ∀ k n, fs !! k = Some n → k ≠ l → parent k ≠ l.
Proof.
  intros Hch k n Hk Hne Hpar.
  assert (has_children fs l = true); [|congruence].
  unfold has_children. apply existsb_exists. exists (k, n).
  split; [by apply list_elem_of_In, elem_of_map_to_list|].
  apply bool_decide_eq_true. simpl. rewrite <- Hpar. unfold parent. simpl.
  split; [done|]. split; [done|]. intros Hnil. apply Hne.
  rewrite <- Hpar. destruct k as [r es]. simpl in Hnil. by subst es.
Qed.

Lemma Remove_wf name w e w' :
  wf (files w) → Remove name w = (e, w') → wf (files w').
Proof.
  intros Hwf. unfold Remove. destruct (resolve name) as [l|]; [|by intros [= _ <-]].
  destruct (lookup_path (files w) l) as [|[c t|]] eqn:Hl; [by intros [= _ <-]| |].
  - intros [= _ <-]. simpl. apply wf_delete; [done|].
    apply lookup_ok in Hl as (_ & _ & Hn & _).
    by apply (wf_no_children_of_file _ _ c t).
  - destruct (all_dotdot l.2); [by intros [= _ <-]|].
    destruct (has_children (files w) l) eqn:Hch; intros [= _ <-]; [done|].
    simpl. apply wf_delete; [done|]. by apply has_children_false.
Qed.

(** [os.Remove] of a path that does not resolve fails and changes
    nothing. *)
Lemma Remove_unresolved name w l errno :
  resolve name = Some l → lookup_path (files w) l = inl errno →
  Remove name w = (Some (PathError "remove" name errno), w).
Proof. unfold Remove. by intros -> ->. Qed.

End OSFacts.

(** * Facts about the file bucket *)

Module BucketFacts.
Import OS bucket PathSpec TreeSpec BucketSpec GoPathFacts OSFacts.

Section WithCodec.
  Context `{Codec}.

Lemma MkdirAll_intro name l w fs' :
  resolve name = Some l → mkdir_walk (files w) l.1 [] l.2 = inr fs' →
  MkdirAll name w = (None, set_files w fs').
Proof. unfold MkdirAll. by intros -> ->. Qed.

(** What a successful [PutObjectMetadata] leaves behind. *)
Lemma PutObjectMetadata_ok f key meta w m w' :
  FileBucket_PutObjectMetadata f key meta w = (Ok m, w') →
  m = meta
  ∧ ∃ ml, resolve (getObjectPath f key).2 = Some ml
          ∧ lookup_path (files w') ml
            = inr (File (json_Marshal meta) (clock w)).
Proof.
  unfold FileBucket_PutObjectMetadata.
  destruct (MkdirAll _ w) as [[e|] w1] eqn:Hmk; [done|].
  apply MkdirAll_clock in Hmk.
  destruct (Create _ w1) as [[mf|e] w2] eqn:Hc; [|done].
  intros [= <- <-]. split; [done|].
  destruct (Create_fits _ _ _ _ Hc) as [Hpe Hfit].
  apply Create_ok in Hc as (Hres & Hdd & Hdirs & _ & ->).
  exists (fd_loc mf). split; [done|]. unfold Write. simpl.
  rewrite Hmk. apply lookup_after_write; [done..|].
  intros q Hq. simpl. rewrite node_at_insert_ne; [by apply Hdirs|].
  intros Heq. destruct Hq as [_ Hne]. apply Hne.
  by rewrite Heq.
Qed.

Lemma GetObjectMetadata_read f key ml w content t m :
  resolve (getObjectPath f key).2 = Some ml →
  lookup_path (files w) ml = inr (File content t) →
  json_Unmarshal content = Ok m →
  FileBucket_GetObjectMetadata f key w = (Ok (Some m), w).
Proof.
  intros Hres Hl Hj. unfold FileBucket_GetObjectMetadata.
  rewrite (Open_resolved _ _ _ Hres), Hl. unfold ReadAll. simpl.
  by rewrite Hj.
Qed.

(** C5: what [PutObject] returns, and what [GetObjectMetadata] reads back
    right after it, carry the length and the hex MD5 digest of the bytes
    that were read from the object. *)
Theorem put_object_metadata_digest_and_length
  (Hjson : json_round_trip) f object w meta w' :
  FileBucket_PutObject f object w = (Ok meta, w') →
  ∃ content,
    io_ReadAll (ReadCloser object) = Ok content
    ∧ ContentLength meta = Z.of_nat (length content)
    ∧ Digest meta = EncodeToString (md5_Sum content)
    ∧ ∃ meta',
        FileBucket_GetObjectMetadata f (Key object) w' = (Ok (Some meta'), w')
        ∧ ContentLength meta' = Z.of_nat (length content)
        ∧ Digest meta' = EncodeToString (md5_Sum content).
Proof.
  unfold FileBucket_PutObject.
  destruct (getObjectFile f (Key object) true w) as [[cf|e] w1]; [|done].
  destruct (io_ReadAll (ReadCloser object)) as [content|e]; [|done].
  intros Hput. exists content. split; [done|].
  apply PutObjectMetadata_ok in Hput as [-> (ml & Hres & Hl)].
  simpl. split; [done|]. split; [done|].
  destruct (Hjson (md5_Sum content) (Z.of_nat (length content))
              (ObjectContentType object) (clock (Write cf content w1)))
    as (m' & Hm' & Hd & Hlen).
  exists m'. split; [|done].
  by apply (GetObjectMetadata_read f _ ml _ _ _ _ Hres Hl).
Qed.

(** *** Reading an object *)

Lemma getObjectPath_Join f key :
  ∃ e1 e2, getObjectPath f key = (GoPath.Join e1, GoPath.Join e2)
           ∧ (∃ x, x ∈ e2 ∧ x ≠ EmptyString).
Proof.
  unfold getObjectPath. destruct (directStore f).
  - eexists _, _. split; [done|]. exists ".metadata". split; [|done].
    apply list_elem_of_In. simpl. tauto.
  - eexists _, _. split; [done|]. exists "metadata.json". split; [|done].
    apply list_elem_of_In. simpl. tauto.
Qed.

Lemma Join_nonempty elem x :
  x ∈ elem → x ≠ EmptyString → GoPath.Join elem ≠ EmptyString.
Proof.
  intros Hx Hne. unfold GoPath.Join.
  destruct (filter _ elem) as [|e es] eqn:Hf.
  - assert (x ∈ filter (λ e, GoPath.nonempty e = true) elem) as Hin.
    { apply list_elem_of_filter. split; [|done]. unfold GoPath.nonempty.
      by rewrite eqb_false_iff'. }
    rewrite Hf in Hin. by apply elem_of_nil in Hin.
  - assert (e ≠ EmptyString) as He.
    { assert (e ∈ filter (λ e, GoPath.nonempty e = true) elem) as Hin
        by (rewrite Hf; constructor).
      apply list_elem_of_filter in Hin as [Hin _]. unfold GoPath.nonempty in Hin.
      intros ->. done. }
    rewrite Clean_render by by apply join_nonempty.
    apply render_cleaned, loc_of_cleaned.
Qed.

Lemma metadataPath_resolves f key : ∃ ml, resolve (getObjectPath f key).2 = Some ml.
Proof.
  destruct (getObjectPath_Join f key) as (e1 & e2 & -> & x & Hx & Hne). simpl.
  exists (loc_of (GoPath.Join e2)). apply resolve_nonempty.
  by apply (Join_nonempty _ x).
Qed.

Lemma contentPath_resolves f key :
  directStore f = false → ∃ cl, resolve (getObjectPath f key).1 = Some cl.
Proof.
  unfold getObjectPath. intros ->. simpl.
  eexists. apply resolve_nonempty. apply (Join_nonempty _ ".content"); [|done].
  apply list_elem_of_In. simpl. tauto.
Qed.

Lemma resolve_Dir_objectPath f key l :
  resolve (getObjectPath f key).1 = Some l →
  resolve (GoPath.Dir (getObjectPath f key).1) = Some (parent l).
Proof.
  destruct (getObjectPath_Join f key) as (e1 & e2 & -> & _). simpl.
  intros Hl. by apply resolve_Join_Dir.
Qed.

Lemma resolve_Dir_metadataPath f key l :
  resolve (getObjectPath f key).2 = Some l →
  resolve (GoPath.Dir (getObjectPath f key).2) = Some (parent l).
Proof.
  destruct (getObjectPath_Join f key) as (e1 & e2 & -> & _). simpl.
  intros Hl. by apply resolve_Join_Dir.
Qed.

Lemma Open_ok_inv name w l n :
  Open name w = Ok (mkFile l n) →
  resolve name = Some l ∧ lookup_path (files w) l = inr n.
Proof.
  unfold Open. destruct (resolve name) as [l'|]; [|done].
  destruct (lookup_path (files w) l') eqn:Hl; [done|]. by intros [= -> ->].
Qed.

Lemma Open_notexist_inv name w e :
  Open name w = Err e → IsNotExist e = true →
  resolve name = None
  ∨ ∃ l, resolve name = Some l ∧ lookup_path (files w) l = inl ENOENT.
Proof.
  unfold Open. destruct (resolve name) as [l|]; [|by left].
  destruct (lookup_path (files w) l) as [errno|] eqn:Hl; [|done].
  intros [= <-]. simpl. destruct errno; try done. right. eauto.
Qed.

(** Opening an object whose content path resolves makes no directory. *)
Lemma getObjectFile_found f key w cl n :
  resolve (getObjectPath f key).1 = Some cl →
  lookup_path (files w) cl = inr n →
  getObjectFile f key false w = (Ok (mkFile cl n), w).
Proof.
  intros Hres Hl. unfold getObjectFile.
  rewrite (MkdirAll_intro _ (parent cl) w (files w)).
  - rewrite set_files_id, (Open_resolved _ _ _ Hres), Hl. done.
  - by apply resolve_Dir_objectPath.
  - exact (mkdir_parent_found (files w) cl n Hl).
Qed.

(** [PutObjectMetadata] where nothing is at the metadata path. *)
Lemma PutObjectMetadata_missing f key meta w ml :
  wf (files w) →
  resolve (getObjectPath f key).2 = Some ml →
  lookup_path (files w) ml = inl ENOENT →
  names_fit ml.2 →
  ∃ w', FileBucket_PutObjectMetadata f key meta w = (Ok meta, w')
        ∧ lookup_path (files w') ml = inr (File (json_Marshal meta) (clock w))
        ∧ wf (files w')
        ∧ clock w' = clock w
        ∧ (∀ k n, node_at (files w) k = Some n → node_at (files w') k = Some n).
Proof.
  intros Hwf Hres Hl Hfit. unfold FileBucket_PutObjectMetadata.
  destruct (lookup_enoent _ _ Hl) as [Hpe _].
  destruct (mkdir_parent_missing _ _ Hwf Hl Hfit)
    as (fs1 & Hmk & Hwf1 & Hnone & Hl1 & Hpar & Hkeep).
  rewrite (MkdirAll_intro _ (parent ml) w fs1);
    [|by apply resolve_Dir_metadataPath|done].
  unfold Create. rewrite Hres. simpl. rewrite Hl1, Hpar.
  eexists. split; [done|]. unfold Write. simpl.
  rewrite insert_insert_eq.
  assert (all_dotdot ml.2 = false) as Hdd.
  { unfold node_at in Hnone. by destruct (all_dotdot ml.2). }
  apply lookup_ok in Hpar as (_ & _ & Hpn & Hpd).
  unfold parent in Hpn, Hpd. simpl in Hpn, Hpd.
  assert (∀ q, proper_prefix q ml.2 → node_at fs1 (ml.1, q) = Some Directory)
    as Hdirs.
  { intros q Hq. apply proper_prefix_removelast in Hq.
    destruct (decide (q = removelast ml.2)) as [->|Hne]; [done|].
    by apply Hpd. }
  split; [by apply lookup_after_write|].
  split; [|split; [done|]].
  - apply wf_insert_file; [done| |congruence].
    unfold parent. done.
  - intros k n Hk. rewrite node_at_insert_ne; [by apply Hkeep|].
    intros <-. apply Hkeep in Hk. congruence.
Qed.

(** C10, as the code has it: where the content file is there, nothing is
    at the metadata path ([os.Open] of it fails with a not-exist error)
    and no element of the metadata path is over [NAME_MAX] bytes,
    [GetObject] computes the metadata from the file (hex MD5 digest of the
    stored bytes, content type application/octet-stream, the file's
    modification time), stores it with [PutObjectMetadata] and returns the
    object with it; the metadata file exists afterwards, so the world has
    changed. *)
Theorem get_object_synthesizes_and_persists_metadata
  f key w cl content mtime e :
  wf (files w) →
  Open (getObjectPath f key).1 w = Ok (mkFile cl (File content mtime)) →
  Open (getObjectPath f key).2 w = Err e → IsNotExist e = true →
  (∀ ml, resolve (getObjectPath f key).2 = Some ml → names_fit ml.2) →
  let meta := {| Digest := EncodeToString (md5_Sum content);
                 ContentType := "application/octet-stream";
                 ContentLength := Z.of_nat (length content);
                 ModTime := mtime |} in
  ∃ w' ml,
    FileBucket_GetObject f key w
    = (Ok (Some {| Key := key;
                   ObjectContentType := "application/octet-stream";
                   ObjectMetadata := Some meta;
                   ReadCloser := FileReader (mkFile cl (File content mtime)) |}),
       w')
    ∧ FileBucket_PutObjectMetadata f key meta w = (Ok meta, w')
    ∧ resolve (getObjectPath f key).2 = Some ml
    ∧ lookup_path (files w) ml = inl ENOENT
    ∧ lookup_path (files w') ml = inr (File (json_Marshal meta) (clock w))
    ∧ w' ≠ w.
Proof.
  intros Hwf Hc Hm Hne Hfit meta.
  apply Open_ok_inv in Hc as [Hcres Hcl].
  destruct (metadataPath_resolves f key) as [ml Hmres].
  destruct (Open_notexist_inv _ _ _ Hm Hne) as [Hnone|(ml' & Hmres' & Hml)];
    [congruence|].
  assert (ml' = ml) as -> by congruence.
  destruct (PutObjectMetadata_missing f key meta w ml Hwf Hmres Hml
              (Hfit ml Hmres))
    as (w' & Hput & Hl' & _ & _ & _).
  exists w', ml. unfold FileBucket_GetObject.
  rewrite (getObjectFile_found f key w cl _ Hcres Hcl).
  unfold FileBucket_GetObjectMetadata. rewrite Hm, Hne.
  unfold createMetadataFromFile.
  rewrite (Open_resolved _ _ _ Hcres), Hcl. simpl.
  fold meta. rewrite Hput.
  split; [done|]. split; [done|]. split; [done|]. split; [done|].
  split; [done|]. intros ->. congruence.
Qed.

(** Looking for an object where nothing is at the content path and no
    element of the path is too long: the directories of the path are made,
    the object is reported absent. *)
Lemma GetObject_absent f key w e :
  wf (files w) →
  Open (getObjectPath f key).1 w = Err e → IsNotExist e = true →
  (∀ cl, resolve (getObjectPath f key).1 = Some cl → names_fit cl.2) →
  ∃ w', FileBucket_GetObject f key w = (Ok None, w') ∧ wf (files w').
Proof.
  intros Hwf Ho Hne Hfit. unfold FileBucket_GetObject, getObjectFile.
  destruct (Open_notexist_inv _ _ _ Ho Hne) as [Hnone|(l & Hres & Hl)].
  - destruct (getObjectPath_Join f key) as (e1 & e2 & Hp & _).
    rewrite Hp in Hnone |- *. simpl in Hnone |- *.
    destruct (Join_cases e1) as [Hj|(s & Hs & Hj & _)].
    + rewrite Hj. exists w. split; [|done].
      assert (MkdirAll (GoPath.Dir EmptyString) w = (None, w)) as ->
        by (by destruct w).
      done.
    + rewrite Hj, resolve_Clean in Hnone; done.
  - destruct (mkdir_parent_missing _ _ Hwf Hl (Hfit l Hres))
      as (fs1 & Hfs1 & Hwf1 & _ & Hl1 & _).
    rewrite (MkdirAll_intro _ (parent l) w fs1);
      [|by apply resolve_Dir_objectPath|done].
    rewrite (Open_resolved _ _ _ Hres). simpl. rewrite Hl1. simpl. eauto.
Qed.

(** *** Where the payload ends up *)

(** In the default layout the content file and the metadata file of a
    key are different files. *)
Lemma default_layout_paths_differ f key cl ml :
  directStore f = false →
  resolve (getObjectPath f key).1 = Some cl →
  resolve (getObjectPath f key).2 = Some ml →
  cl ≠ ml.
Proof.
  unfold getObjectPath. intros ->. simpl. intros Hc Hm.
  apply (resolve_Join_last [path f; name f; key] ".content") in Hc; [|done..].
  apply (resolve_Join_last [path f; name f; key] "metadata.json") in Hm; [|done..].
  intros ->. congruence.
Qed.

Lemma PutObjectMetadata_keeps f key meta w m w' ml l n :
  FileBucket_PutObjectMetadata f key meta w = (Ok m, w') →
  resolve (getObjectPath f key).2 = Some ml → l ≠ ml →
  lookup_path (files w) l = inr n → lookup_path (files w') l = inr n.
Proof.
  unfold FileBucket_PutObjectMetadata. intros Hput Hres Hne Hl.
  destruct (MkdirAll _ w) as [[e|] w1] eqn:Hmk; [done|].
  apply (MkdirAll_keeps _ _ _ _ _ _ Hmk) in Hl.
  destruct (Create _ w1) as [[mf|e] w2] eqn:Hc; [|done].
  injection Hput as _ <-.
  apply Create_ok in Hc as (Hres' & _ & _ & Hnd & ->).
  assert (fd_loc mf = ml) as Hmf by congruence.
  unfold Write. simpl. rewrite insert_insert_eq, Hmf.
  apply lookup_path_insert_other; [done|done|by rewrite <- Hmf].
Qed.

(** After a successful [PutObject], the content file holds the bytes that
    were read from the object, unless the metadata file is the same
    file. *)
Lemma PutObject_stores_payload f object w meta w' cl ml :
  FileBucket_PutObject f object w = (Ok meta, w') →
  resolve (getObjectPath f (Key object)).1 = Some cl →
  resolve (getObjectPath f (Key object)).2 = Some ml →
  cl ≠ ml →
  ∃ content,
    io_ReadAll (ReadCloser object) = Ok content
    ∧ lookup_path (files w') cl = inr (File content (clock w)).
Proof.
  unfold FileBucket_PutObject, getObjectFile. intros Hput Hc Hm Hne.
  destruct (MkdirAll _ w) as [[e|] w0] eqn:Hmk; [done|].
  apply MkdirAll_clock in Hmk.
  destruct (Create _ w0) as [[cf|e] w1] eqn:Hcr; [|done].
  destruct (io_ReadAll (ReadCloser object)) as [content|e]; [|done].
  exists content. split; [done|].
  destruct (Create_fits _ _ _ _ Hcr) as [Hpe Hfit].
  apply Create_ok in Hcr as (Hres & Hdd & Hdirs & _ & ->).
  assert (fd_loc cf = cl) as Hcf by congruence.
  apply (PutObjectMetadata_keeps _ _ _ _ _ _ ml cl _ Hput Hm Hne).
  unfold Write. simpl. rewrite insert_insert_eq, Hmk, Hcf.
  apply lookup_after_write; [by rewrite <- Hcf..|].
  intros q Hq. rewrite <- Hcf. by apply Hdirs; rewrite Hcf.
Qed.

(** *** Deleting an object *)

(** Where the content path does not resolve, [DeleteObject] returns the
    error of the first [os.Remove] and changes nothing. *)
Lemma DeleteObject_missing f key w cl errno :
  resolve (getObjectPath f key).1 = Some cl →
  lookup_path (files w) cl = inl errno →
  FileBucket_DeleteObject f key w
  = (Some (PathError "remove" (getObjectPath f key).1 errno), w).
Proof.
  intros Hres Hl. unfold FileBucket_DeleteObject.
  destruct (getObjectPath f key) as [keyPath MetadataPath]. simpl in *.
  by rewrite (Remove_unresolved _ _ _ _ Hres Hl).
Qed.

(** *** The bucket keeps the file tree well-formed *)

Lemma PutObjectMetadata_wf f key meta w r w' :
  wf (files w) → FileBucket_PutObjectMetadata f key meta w = (r, w') →
  wf (files w').
Proof.
  intros Hwf. unfold FileBucket_PutObjectMetadata.
  destruct (MkdirAll _ w) as [[e|] w1] eqn:Hmk;
    apply (MkdirAll_wf _ _ _ _ Hwf) in Hmk; [by intros [= _ <-]|].
  destruct (Create _ w1) as [[mf|e] w2] eqn:Hc; intros [= _ <-].
  - by apply (Write_wf _ w1 _ _ _ Hmk Hc).
  - by apply (Create_wf _ _ _ _ Hmk Hc).
Qed.

Lemma getObjectFile_wf f key create w r w' :
  wf (files w) → getObjectFile f key create w = (r, w') → wf (files w').
Proof.
  intros Hwf. unfold getObjectFile.
  destruct (MkdirAll _ w) as [[e|] w1] eqn:Hmk;
    apply (MkdirAll_wf _ _ _ _ Hwf) in Hmk; [by intros [= _ <-]|].
  destruct create; [by apply Create_wf|by intros [= _ <-]].
Qed.

Lemma PutObject_wf f object w r w' :
  wf (files w) → FileBucket_PutObject f object w = (r, w') → wf (files w').
Proof.
  intros Hwf. unfold FileBucket_PutObject, getObjectFile.
  destruct (MkdirAll _ w) as [[e|] w1] eqn:Hmk;
    apply (MkdirAll_wf _ _ _ _ Hwf) in Hmk; [by intros [= _ <-]|].
  destruct (Create _ w1) as [[cf|e] w2] eqn:Hc.
  - destruct (io_ReadAll _); [|intros [= _ <-]; by apply (Create_wf _ _ _ _ Hmk Hc)].
    apply PutObjectMetadata_wf. by apply (Write_wf _ w1 _ _ _ Hmk Hc).
  - intros [= _ <-]. by apply (Create_wf _ _ _ _ Hmk Hc).
Qed.

Lemma DeleteObject_wf f key w e w' :
  wf (files w) → FileBucket_DeleteObject f key w = (e, w') → wf (files w').
Proof.
  intros Hwf. unfold FileBucket_DeleteObject.
  destruct (getObjectPath f key) as [keyPath MetadataPath].
  destruct (Remove keyPath w) as [[err|] w1] eqn:Hr1;
    apply (Remove_wf _ _ _ _ Hwf) in Hr1; [by intros [= _ <-]|].
  destruct (Remove MetadataPath w1) as [[err|] w2] eqn:Hr2;
    apply (Remove_wf _ _ _ _ Hr1) in Hr2; by intros [= _ <-].
Qed.

Lemma GetObjectMetadata_world f key w r w' :
  FileBucket_GetObjectMetadata f key w = (r, w') → w' = w.
Proof.
  unfold FileBucket_GetObjectMetadata. destruct (Open _ w) as [mf|e].
  - destruct (ReadAll mf); [|by intros [= _ <-]].
    destruct (json_Unmarshal _); by intros [= _ <-].
  - destruct (IsNotExist e); by intros [= _ <-].
Qed.

Lemma GetObject_wf f key w r w' :
  wf (files w) → FileBucket_GetObject f key w = (r, w') → wf (files w').
Proof.
  intros Hwf. unfold FileBucket_GetObject.
  destruct (getObjectFile f key false w) as [[fc|e] w1] eqn:Hg;
    apply (getObjectFile_wf _ _ _ _ _ _ Hwf) in Hg.
  - destruct (FileBucket_GetObjectMetadata f key w1) as [[[m|]|e] w2] eqn:Hm;
      apply GetObjectMetadata_world in Hm as ->.
    + by intros [= _ <-].
    + unfold createMetadataFromFile. destruct (Open _ w1) as [fc'|e];
        [|by intros [= _ <-]].
      destruct (fd_node fc'); [|by intros [= _ <-]].
      destruct (FileBucket_PutObjectMetadata _ _ _ _) as [[m|e] w3] eqn:Hp;
        apply (PutObjectMetadata_wf _ _ _ _ _ _ Hg) in Hp; by intros [= _ <-].
    + destruct (IsNotExist e); by intros [= _ <-].
  - destruct (IsNotExist e); by intros [= _ <-].
Qed.

Lemma NewFileBucket_wf basePath bucketName direct w r w' :
  wf (files w) → NewFileBucket basePath bucketName direct w = (r, w') →
  wf (files w').
Proof.
  intros Hwf. unfold NewFileBucket. simpl.
  destruct (MkdirAll _ w) as [[e|] w1] eqn:Hmk;
    apply (MkdirAll_wf _ _ _ _ Hwf) in Hmk; [by intros [= _ <-]|].
  destruct direct; [|by intros [= _ <-]].
  destruct (MkdirAll _ w1) as [[e|] w2] eqn:Hmk2;
    apply (MkdirAll_wf _ _ _ _ Hmk) in Hmk2; by intros [= _ <-].
Qed.

Lemma NewFileBucket_ok basePath bucketName direct w b w' :
  NewFileBucket basePath bucketName direct w = (Ok b, w') →
  b = FileBucket_Bucket {| path := basePath; name := bucketName;
                           directStore := direct |}.
Proof.
  unfold NewFileBucket. simpl.
  destruct (MkdirAll _ w) as [[e|] w1]; [done|].
  destruct direct; [|by intros [= <- _]].
  destruct (MkdirAll _ w1) as [[e|] w2]; [done|]. by intros [= <- _].
Qed.

End WithCodec.

End BucketFacts.

(** * Facts about the credential store *)

Module CredsFacts.
Import signature Creds CredsSpec.

Lemma Get_Put accessKey c d :
  default_Get accessKey (default_Put c d)
  = if decide (AccessKey c = accessKey) then (c, true)
    else default_Get accessKey d.
Proof.
  unfold default_Get, default_Put. simpl. rewrite lookup_insert.
  by destruct (decide (AccessKey c = accessKey)).
Qed.

(** C3: after any sequence of [Put] calls on a new store, [Get] returns the
    credential of the most recent [Put] with that access key, and the zero
    credential with [false] when there was none. *)
Theorem get_returns_last_put accessKey puts :
  default_Get accessKey (put_all puts empty_store)
  = match last_put accessKey puts with
    | Some c => (c, true)
    | None => ({| AccessKey := EmptyString; SecretKey := EmptyString |}, false)
    end.
Proof.
  (* from any store [d]: the last matching [Put], or what [d] held *)
  enough (∀ d, default_Get accessKey (put_all puts d)
               = match last_put accessKey puts with
                 | Some c => (c, true)
                 | None => default_Get accessKey d
                 end) as Hgen by (by rewrite Hgen).
  induction puts as [|c puts IH]; intros d; [done|].
  unfold put_all. simpl. fold (put_all puts (default_Put c d)).
  rewrite IH, Get_Put. unfold last_put. rewrite filter_cons.
  destruct (decide (AccessKey c = accessKey)) as [Hc|Hc]; [|done].
  destruct (filter _ puts) as [|c' l] eqn:Hf; [done|].
  change (last (c :: c' :: l)) with (last (c' :: l)).
  destruct (last (c' :: l)) eqn:Hl; [done|].
  by apply last_None in Hl.
Qed.

End CredsFacts.

(** * Facts about the server *)

Module ServerFacts.
Import OS bucket signature Creds S3 PathSpec TreeSpec BucketSpec ServerSpec OSFacts BucketFacts.

Section WithEnv.
  Context `{C : Codec} `{E : Env}.

Lemma Write_calls body w : w_calls (Write body w) = w_calls w ++ [WriteCall body].
Proof. reflexivity. Qed.

Lemma WriteHeader_calls code w :
  w_calls (WriteHeader code w) = w_calls w ++ [WriteHeaderCall code].
Proof. reflexivity. Qed.

Lemma WriteError_calls w err :
  w_calls (WriteError w err)
  = w_calls w ++ [WriteHeaderCall (httpCode err);
                  WriteCall (xml_Marshal
                    (set_HostId (Header_Get (w_Header w) "X-Amz-Id-2")
                      (set_RequestId (Header_Get (w_Header w) "X-Amz-Request-Id")
                         err)))].
Proof. unfold WriteError, Write, WriteHeader. simpl. by rewrite <- app_assoc. Qed.

(** C2: with a credential store configured, a verdict other than
    [ErrNone] makes [ServeHTTP] write the signature error, once, and
    nothing else happens: the world is as before, and the answer is the
    same whatever buckets the server has. *)
Theorem failed_verification_ends_request s store w r world :
  credentials s = Some store →
  V4SignVerify r store world ≠ ErrNone →
  let err := ErrSignature (V4SignVerify r store world) in
  ServeHTTP s w r world = (WriteError w err, world)
  ∧ (∃ body, w_calls (ServeHTTP s w r world).1
             = w_calls w ++ [WriteHeaderCall (httpCode err); WriteCall body])
  ∧ ∀ fn, ServeHTTP (WithBucket fn s) w r world = ServeHTTP s w r world.
Proof.
  intros Hs Hv err.
  assert (∀ s', credentials s' = Some store →
            ServeHTTP s' w r world = (WriteError w err, world)) as Hgen.
  { intros s' Hs'. unfold ServeHTTP. rewrite Hs'. unfold errors_Is.
    by rewrite bool_decide_eq_false_2. }
  split; [by apply Hgen|]. split.
  - rewrite (Hgen s Hs). cbn [fst]. rewrite WriteError_calls. eauto.
  - intros fn. by rewrite (Hgen s Hs), (Hgen (WithBucket fn s)).
Qed.

Lemma options_keep_no_credentials (options : list Option) s0 :
  Forall (λ o, ∃ fn, o = WithBucket fn) options →
  credentials s0 = None →
  credentials (fold_left (λ s o, o s) options s0) = None.
Proof.
  intros Hopts. revert s0.
  induction Hopts as [|o options [fn ->] _ IH]; intros s0 Hs0; [done|].
  simpl. by apply IH.
Qed.

(** C9: when [DeleteObject] fails, [HandleDeleteObject] writes the
    internal-error response and goes on to write status 200 and an empty
    body. *)
Theorem delete_error_falls_through s w r world bucketName key b world1 err world2 :
  Method r = "DELETE" →
  uri_of r = [bucketName; key] →
  GetBucket s bucketName world = (Ok b, world1) →
  DeleteObject b key world1 = (Some err, world2) →
  let failure := ErrWith StatusInternalServerError (Some err) in
  HandleDeleteObject s w r world
  = (Write [] (WriteHeader StatusOK (WriteError w failure)), world2)
  ∧ ∃ body, w_calls (HandleDeleteObject s w r world).1
            = w_calls w ++ [WriteHeaderCall (httpCode failure); WriteCall body;
                            WriteHeaderCall StatusOK; WriteCall []].
Proof.
  intros Hm Huri Hb Hd failure.
  assert (HandleDeleteObject s w r world
          = (Write [] (WriteHeader StatusOK (WriteError w failure)), world2))
    as Heq.
  { unfold HandleDeleteObject. by rewrite Hm, Huri, Hb, Hd. }
  split; [done|]. rewrite Heq. cbn [fst].
  rewrite Write_calls, WriteHeader_calls, WriteError_calls.
  eexists. by rewrite <- !app_assoc.
Qed.

(** C7: without the streaming sentinel in [X-Amz-Content-Sha256], the
    object given to [PutObject] reads the request body as it is, and
    [HandlePutObject] answers what that call returns; on a file bucket of
    the default layout, the content file then holds the request body. *)
Theorem put_hands_over_raw_body s w r world bucketName key b world1 :
  Method r = "PUT" →
  uri_of r = [bucketName; key] →
  Header_Get (Header r) "X-Amz-Content-Sha256" ≠ STREAMING_PAYLOAD →
  GetBucket s bucketName world = (Ok b, world1) →
  let object := {| Key := key;
                   ObjectContentType := Header_Get (Header r) "Content-Type";
                   ObjectMetadata :=
                     Some {| Digest := EmptyString; ContentLength := 0;
                             ContentType := EmptyString;
                             ModTime := clock world |};
                   ReadCloser := BodyReader (Body r) |} in
  HandlePutObject s w r world = put_reply w (PutObject b object world1)
  ∧ io_ReadAll (ReadCloser object) = Ok (Body r)
  ∧ ∀ f meta world2,
      b = FileBucket_Bucket f → directStore f = false →
      PutObject b object world1 = (Ok meta, world2) →
      ∃ cl, resolve (getObjectPath f key).1 = Some cl
            ∧ lookup_path (files world2) cl
              = inr (File (Body r) (clock world1)).
Proof.
  intros Hm Huri Hsha Hb object. split; [|split; [done|]].
  - unfold HandlePutObject. rewrite Hm, Huri. simpl.
    rewrite (proj2 (String.eqb_neq _ _) Hsha). simpl. rewrite Hb.
    unfold put_reply. by destruct (PutObject b _ world1) as [[]].
  - intros f meta world2 -> Hdefault Hput. simpl in Hput.
    destruct (contentPath_resolves f key Hdefault) as [cl Hcl].
    destruct (metadataPath_resolves f key) as [ml Hml].
    pose proof (default_layout_paths_differ f key cl ml Hdefault Hcl Hml) as Hne.
    destruct (PutObject_stores_payload f object world1 meta world2 cl ml
                Hput Hcl Hml Hne) as (content & Hread & Hl).
    exists cl. split; [done|]. simpl in Hread. by injection Hread as <-.
Qed.

(** C4, as the code has it: a PUT with the streaming sentinel and without
    [X-Amz-Decoded-Content-Length] never reaches a bucket; the answer is
    the bad-request error when the path names a bucket and a key, and the
    not-found error when it does not. *)
Theorem streaming_put_without_length s w r world :
  Method r = "PUT" →
  Header_Get (Header r) "X-Amz-Content-Sha256" = STREAMING_PAYLOAD →
  Header r !! "X-Amz-Decoded-Content-Length" = None →
  HandlePutObject s w r world
  = (WriteError w (ErrWith (if bool_decide (length (uri_of r) = 2%nat)
                            then StatusBadRequest else StatusNotFound) None),
     world)
  ∧ ∀ fn, HandlePutObject (WithBucket fn s) w r world
          = HandlePutObject s w r world.
Proof.
  intros Hm Hsha Hlen.
  assert (∀ s', HandlePutObject s' w r world
          = (WriteError w (ErrWith (if bool_decide (length (uri_of r) = 2%nat)
                                    then StatusBadRequest else StatusNotFound) None),
             world)) as Hgen.
  { intros s'. unfold HandlePutObject. rewrite Hm. simpl.
    destruct (uri_of r) as [|u0 [|u1 [|u2 us]]]; try done.
    rewrite Hsha. unfold Header_Get at 1. rewrite Hlen. done. }
  split; [apply Hgen|]. intros fn. by rewrite !Hgen.
Qed.

(** C6, as the code has it: where the tree is well-formed, opening the
    content path of the key fails with a not-exist error and no element
    of that path is over [NAME_MAX] bytes, [GetObject] reports the object
    absent without an error, and [HandleGetObject] answers with the
    not-found error. *)
Theorem get_missing_object_not_found
  s w r world bucketName key f world1 e :
  Method r = "GET" →
  uri_of r = [bucketName; key] →
  GetBucket s bucketName world = (Ok (FileBucket_Bucket f), world1) →
  wf (files world1) →
  Open (getObjectPath f key).1 world1 = Err e → IsNotExist e = true →
  (∀ cl, resolve (getObjectPath f key).1 = Some cl → names_fit cl.2) →
  ∃ world2,
    FileBucket_GetObject f key world1 = (Ok None, world2)
    ∧ HandleGetObject s w r world
      = (WriteError w (ErrWith StatusNotFound None), world2).
Proof.
  intros Hm Huri Hb Hwf Hopen Hne Hfit.
  destruct (GetObject_absent f key world1 e Hwf Hopen Hne Hfit)
    as (world2 & Hget & _).
  exists world2. split; [done|].
  unfold HandleGetObject. rewrite Hm, Huri. simpl.
  rewrite andb_false_r, Hb. simpl. by rewrite Hget.
Qed.

(** *** The file server keeps the file tree well-formed *)

Lemma file_server_keeps_wf basePath creds w r world :
  let s := {| bucketFn := λ bucketName, NewFileBucket basePath bucketName false;
              credentials := creds |} in
  wf (files world) → wf (files (ServeHTTP s w r world).2).
Proof.
  intros s Hwf.
  assert (∀ bucketName,
            ∃ rb world1, GetBucket s bucketName world = (rb, world1)
              ∧ wf (files world1)
              ∧ ∀ b, rb = Ok b →
                  b = FileBucket_Bucket {| path := basePath; name := bucketName;
                                           directStore := false |}) as Hbucket.
  { intros bucketName. unfold GetBucket. simpl.
    destruct (NewFileBucket basePath bucketName false world) as [rb world1] eqn:Hb.
    exists rb, world1. split; [done|].
    split; [by apply (NewFileBucket_wf _ _ _ _ _ _ Hwf Hb)|].
    intros b ->. by apply NewFileBucket_ok in Hb. }
  assert (wf (files (dispatch s w r world).2)) as Hdispatch.
  { unfold dispatch, HandleGetObjectMetadata, HandlePutObject,
      HandleDeleteObject, HandleGetObject.
    repeat (match goal with
            | |- context [if ?c then _ else _] => destruct c
            | |- context [match uri_of r with _ => _ end] =>
                destruct (uri_of r) as [|uri0 [|uri1 [|? ?]]]
            end; try done).
    all: destruct (Hbucket uri0) as (rb & world1 & -> & Hwf1 & Hrb).
    all: destruct rb as [b|err]; [|done].
    all: rewrite (Hrb b eq_refl); simpl.
    - destruct (FileBucket_GetObjectMetadata _ _ _) as [[[m|]|e] world2] eqn:Hop;
        apply GetObjectMetadata_world in Hop as ->; done.
    - destruct (FileBucket_PutObject _ _ _) as [[m|e] world2] eqn:Hop;
        by apply (PutObject_wf _ _ _ _ _ Hwf1) in Hop.
    - destruct (FileBucket_PutObject _ _ _) as [[m|e] world2] eqn:Hop;
        by apply (PutObject_wf _ _ _ _ _ Hwf1) in Hop.
    - destruct (FileBucket_DeleteObject _ _ _) as [e world2] eqn:Hop.
      by apply (DeleteObject_wf _ _ _ _ _ Hwf1) in Hop.
    - destruct (FileBucket_GetObject _ _ _) as [[[o|]|e] world2] eqn:Hop;
        apply (GetObject_wf _ _ _ _ _ Hwf1) in Hop; [|done|done].
      by destruct (ObjectMetadata o). }
  unfold ServeHTTP. simpl. destruct creds as [store|]; [|done].
  by destruct (negb _).
Qed.

End WithEnv.


End ServerFacts.

(** * Worked examples *)

Module FixtureFacts.
Import OS bucket signature Creds S3 PathSpec TreeSpec BucketSpec CredsSpec ServerSpec GoPathFacts OSFacts BucketFacts CredsFacts ServerFacts Fixture.

Lemma get_put_nat n rest : get_nat (put_nat n ++ rest) = Some (n, rest).
Proof.
  unfold put_nat. induction n as [|n IH]; [done|].
  simpl. simpl in IH. by rewrite IH.
Qed.

Lemma get_put_string s rest : get_string (put_string s ++ rest) = Some (s, rest).
Proof.
  unfold get_string, put_string. rewrite <- app_assoc, get_put_nat.
  rewrite decide_True by (rewrite length_app; lia).
  by rewrite take_app_length, drop_app_length, string_of_list_byte_of_string.
Qed.

Lemma get_put_int z rest : get_int (put_int z ++ rest) = Some (z, rest).
Proof.
  unfold get_int, put_int. simpl. rewrite get_put_nat.
  destruct (decide (z < 0)%Z); simpl; do 2 f_equal; lia.
Qed.

Lemma decode_encode m : decode (encode m) = Ok m.
Proof.
  unfold decode, encode.
  rewrite get_put_string, get_put_int, get_put_string.
  rewrite <- (app_nil_r (put_int (ModTime m))), get_put_int.
  by destruct m.
Qed.

(** The stand-in codec meets what the model asks of [encoding/json]. *)
Lemma fixture_round_trip : @json_round_trip codec.
Proof.
  intros bs len ct mt. eexists. split; [apply decode_encode|done].
Qed.

Lemma world0_wf : wf (files world0).
Proof. apply wf_empty. Qed.

Lemma world_a_wf : wf (files world_a).
Proof.
  unfold world_a.
  destruct (FileBucket_PutObject data_b1 (object_at "a") world0) as [r w1] eqn:Hp.
  by apply (PutObject_wf _ _ _ _ _ world0_wf) in Hp.
Qed.

Lemma world_zk_wf : wf (files world_zk).
Proof.
  unfold world_zk, world_z.
  destruct (FileBucket_PutObject data_b1 (object_at "k/metadata.json/z") world0)
    as [r w1] eqn:Hp.
  apply (PutObject_wf _ _ _ _ _ world0_wf) in Hp. simpl.
  destruct (FileBucket_PutObject data_b1 (object_at "k") w1) as [r' w2] eqn:Hp'.
  by apply (PutObject_wf _ _ _ _ _ Hp) in Hp'.
Qed.

Lemma world_k_wf : wf (files world_k).
Proof.
  unfold world_k.
  destruct (FileBucket_PutObject data_b1 (object_at "k") world0) as [r w1] eqn:Hp.
  apply (PutObject_wf _ _ _ _ _ world0_wf) in Hp. simpl.
  destruct (Remove _ w1) as [e w2] eqn:Hr.
  by apply (Remove_wf _ _ _ _ Hp) in Hr.
Qed.

End FixtureFacts.

Module Examples.
Import OS bucket signature Creds S3 PathSpec TreeSpec BucketSpec CredsSpec ServerSpec GoPathFacts OSFacts BucketFacts CredsFacts ServerFacts Fixture FixtureFacts.

(** C2 at a request without an [Authorization] header. *)
Lemma failed_verification_ends_request_witness :
  let r := request "GET" "/b1/k" [] [] in
  ServeHTTP locked_server fresh_writer r world0
  = (WriteError fresh_writer (ErrSignature Denied), world0).
Proof.
  intros r.
  refine (proj1 (failed_verification_ends_request locked_server locked_store
                   fresh_writer r world0 _ _)).
  - reflexivity.
  - vm_compute. discriminate.
Defined.

(** C4 at a streaming PUT of [/b1/k] without the decoded length. *)
Lemma streaming_put_without_length_witness :
  HandlePutObject open_server fresh_writer (streaming_put "/b1/k") world0
  = (WriteError fresh_writer (ErrWith StatusBadRequest None), world0).
Proof.
  refine (proj1 (streaming_put_without_length open_server fresh_writer
                   (streaming_put "/b1/k") world0 _ _ _)); reflexivity.
Defined.

(** C5 at the object [k] stored in bucket [b1] of an empty tree. *)
Lemma put_object_metadata_digest_and_length_witness :
  ∃ meta w',
    FileBucket_PutObject data_b1 (object_at "k") world0 = (Ok meta, w')
    ∧ ∃ content,
        io_ReadAll (ReadCloser (object_at "k")) = Ok content
        ∧ ContentLength meta = Z.of_nat (length content)
        ∧ Digest meta = EncodeToString (md5_Sum content)
        ∧ ∃ meta',
            FileBucket_GetObjectMetadata data_b1 (Key (object_at "k")) w'
            = (Ok (Some meta'), w')
            ∧ ContentLength meta' = Z.of_nat (length content)
            ∧ Digest meta' = EncodeToString (md5_Sum content).
Proof.
  eexists _, _. split; [vm_compute; reflexivity|].
  apply (put_object_metadata_digest_and_length fixture_round_trip
           data_b1 (object_at "k") world0).
  vm_compute. reflexivity.
Defined.

(** C6 at a GET of [/b1/nokey] on an empty tree. *)
Lemma get_missing_object_not_found_witness :
  ∃ world2,
    FileBucket_GetObject data_b1 "nokey"
      (NewFileBucket "/data" "b1" false world0).2 = (Ok None, world2)
    ∧ HandleGetObject open_server fresh_writer (request "GET" "/b1/nokey" [] [])
        world0
      = (WriteError fresh_writer (ErrWith StatusNotFound None), world2).
Proof.
  apply (get_missing_object_not_found open_server fresh_writer
           (request "GET" "/b1/nokey" [] []) world0 "b1" "nokey" data_b1
           (NewFileBucket "/data" "b1" false world0).2
           (PathError "open" "/data/b1/nokey/.content" ENOENT)).
  - reflexivity.
  - reflexivity.
  - reflexivity.
  - destruct (NewFileBucket "/data" "b1" false world0) as [rb w1] eqn:Hb.
    exact (NewFileBucket_wf _ _ _ _ _ _ world0_wf Hb).
  - vm_compute. reflexivity.
  - reflexivity.
  - intros cl [= <-]. repeat constructor.
Defined.

(** C7 at a plain PUT of [/b1/k]. *)
Lemma put_hands_over_raw_body_witness :
  let r := request "PUT" "/b1/k" [("Content-Type", ["text/plain"])] hello in
  HandlePutObject open_server fresh_writer r world0
  = put_reply fresh_writer
      (FileBucket_PutObject data_b1
         {| Key := "k"; ObjectContentType := "text/plain";
            ObjectMetadata :=
              Some {| Digest := EmptyString; ContentLength := 0;
                      ContentType := EmptyString; ModTime := 1000 |};
            ReadCloser := BodyReader hello |}
         (NewFileBucket "/data" "b1" false world0).2).
Proof.
  intros r.
  refine (proj1 (put_hands_over_raw_body open_server fresh_writer r world0
                   "b1" "k" (FileBucket_Bucket data_b1)
                   (NewFileBucket "/data" "b1" false world0).2 _ _ _ _)).
  - reflexivity.
  - reflexivity.
  - vm_compute. discriminate.
  - reflexivity.
Defined.


(** C9 at a DELETE of [/b1/nokey], a key that does not exist. *)
Lemma delete_error_falls_through_witness :
  w_calls (HandleDeleteObject open_server fresh_writer
             (request "DELETE" "/b1/nokey" [] []) world0).1
  = [WriteHeaderCall 500; WriteCall []; WriteHeaderCall 200; WriteCall []].
Proof.
  destruct (delete_error_falls_through open_server fresh_writer
              (request "DELETE" "/b1/nokey" [] []) world0 "b1" "nokey"
              (FileBucket_Bucket data_b1)
              (NewFileBucket "/data" "b1" false world0).2
              (PathError "remove" "/data/b1/nokey/.content" ENOENT)
              (NewFileBucket "/data" "b1" false world0).2)
    as [Heq _].
  - reflexivity.
  - reflexivity.
  - reflexivity.
  - vm_compute. reflexivity.
  - rewrite Heq. reflexivity.
Defined.

(** C10 at the object [k] whose metadata file was removed. *)
Lemma get_object_synthesizes_and_persists_metadata_witness :
  ∃ w' ml,
    FileBucket_GetObject data_b1 "k" world_k
    = (Ok (Some {| Key := "k";
                   ObjectContentType := "application/octet-stream";
                   ObjectMetadata :=
                     Some {| Digest := EncodeToString (md5_Sum hello);
                             ContentType := "application/octet-stream";
                             ContentLength := 5;
                             ModTime := 1000 |};
                   ReadCloser :=
                     FileReader (mkFile (true, ["data"; "b1"; "k"; ".content"])
                                        (File hello 1000)) |}),
       w')
    ∧ FileBucket_PutObjectMetadata data_b1 "k"
        {| Digest := EncodeToString (md5_Sum hello);
           ContentType := "application/octet-stream";
           ContentLength := 5; ModTime := 1000 |} world_k
      = (Ok {| Digest := EncodeToString (md5_Sum hello);
               ContentType := "application/octet-stream";
               ContentLength := 5; ModTime := 1000 |}, w')
    ∧ resolve (getObjectPath data_b1 "k").2 = Some ml
    ∧ lookup_path (files world_k) ml = inl ENOENT
    ∧ lookup_path (files w') ml
      = inr (File (json_Marshal
                     {| Digest := EncodeToString (md5_Sum hello);
                        ContentType := "application/octet-stream";
                        ContentLength := 5; ModTime := 1000 |})
                  (clock world_k))
    ∧ w' ≠ world_k.
Proof.
  apply (get_object_synthesizes_and_persists_metadata data_b1 "k" world_k
           (true, ["data"; "b1"; "k"; ".content"]) hello 1000
           (PathError "open" "/data/b1/k/metadata.json" ENOENT)).
  - apply world_k_wf.
  - vm_compute. reflexivity.
  - vm_compute. reflexivity.
  - reflexivity.
  - intros ml [= <-]. repeat constructor.
Defined.

(** C1 fails on the code: the key [../b2/k] given to bucket [b1] is not
    rejected; [path.Join] resolves it to the files of key [k] of bucket
    [b2], outside the directory of [b1], and [PutObject] writes there. *)
Lemma traversal_key_leaves_bucket :
  let key := "../b2/k" in
  uri_of (request "PUT" "/b1/../b2/k" [] hello) = ["b1"; key]
  ∧ ".." ∈ GoPath.split key
  ∧ getObjectPath data_b1 key
    = ("/data/b2/k/.content", "/data/b2/k/metadata.json")
  ∧ getObjectPath data_b1 key = getObjectPath data_b2 "k"
  ∧ ¬ inside (bucketDir data_b1) (getObjectPath data_b1 key).1
  ∧ ∃ meta w1,
      FileBucket_PutObject data_b1 (object_at key) world0 = (Ok meta, w1)
      ∧ Open "/data/b2/k/.content" w1
        = Ok (mkFile (true, ["data"; "b2"; "k"; ".content"]) (File hello 1000)).
Proof.
  intros key. split; [reflexivity|]. split.
  { apply list_elem_of_In. vm_compute. tauto. }
  split; [reflexivity|]. split; [reflexivity|]. split.
  - intros (ld & lp & Hd & Hp & _ & k & Hk & _).
    vm_compute in Hd, Hp. injection Hd as <-. injection Hp as <-.
    simpl in Hk. discriminate.
  - eexists _, _. split; vm_compute; reflexivity.
Qed.

(** C4 fails on the code: a streaming PUT without the decoded length whose
    path has no key part is answered with the not-found error. *)
Lemma streaming_put_without_key_is_not_found :
  let r := streaming_put "/b1" in
  Method r = "PUT"
  ∧ Header_Get (Header r) "X-Amz-Content-Sha256" = STREAMING_PAYLOAD
  ∧ Header r !! "X-Amz-Decoded-Content-Length" = None
  ∧ HandlePutObject open_server fresh_writer r world0
    = (WriteError fresh_writer (ErrWith StatusNotFound None), world0)
  ∧ w_calls (HandlePutObject open_server fresh_writer r world0).1
    = [WriteHeaderCall 404; WriteCall []]
  ∧ (HandlePutObject open_server fresh_writer r world0).1
    ≠ WriteError fresh_writer (ErrWith StatusBadRequest None).
Proof.
  intros r. repeat (split; [reflexivity|]).
  vm_compute. discriminate.
Qed.

(** C6 fails on the code: after [a] is stored, nothing is stored under
    [a/.content/x], yet [GetObject] returns an error for it, not absence,
    and the GET handler answers with the internal error: the content file
    of [a] is in the way of the directory that [getObjectFile] makes. *)
Lemma get_below_content_file_is_internal_error :
  let key := "a/.content/x" in
  (HandlePutObject open_server fresh_writer
     (request "PUT" "/b1/a" [("Content-Type", ["text/plain"])] hello) world0).2
  = world_a
  ∧ wf (files world_a)
  ∧ Open (getObjectPath data_b1 key).1 world_a
    = Err (PathError "open" "/data/b1/a/.content/x/.content" ENOTDIR)
  ∧ FileBucket_GetObject data_b1 key world_a
    = (Err (PathError "mkdir" "/data/b1/a/.content" ENOTDIR), world_a)
  ∧ HandleGetObject open_server fresh_writer
      (request "GET" "/b1/a/.content/x" [] []) world_a
    = (WriteError fresh_writer
         (ErrWith StatusInternalServerError
            (Some (PathError "mkdir" "/data/b1/a/.content" ENOTDIR))),
       world_a)
  ∧ w_calls (HandleGetObject open_server fresh_writer
               (request "GET" "/b1/a/.content/x" [] []) world_a).1
    = [WriteHeaderCall 500; WriteCall []].
Proof.
  intros key. split; [vm_compute; reflexivity|].
  split; [apply world_a_wf|].
  repeat split; vm_compute; reflexivity.
Qed.

(** C10 fails on the code: after [k/metadata.json/z] is stored, the
    metadata path of [k] is a directory; a put of [k] then leaves the
    content file and fails on the metadata.  The content file of [k] is
    there and no metadata file is, yet [GetObject] synthesizes nothing: it
    returns the error of reading the directory, and the GET handler answers
    with the internal error. *)
Lemma metadata_directory_blocks_synthesis :
  (HandlePutObject open_server fresh_writer
     (request "PUT" "/b1/k" [("Content-Type", ["text/plain"])] hello)
     (HandlePutObject open_server fresh_writer
        (request "PUT" "/b1/k/metadata.json/z" [("Content-Type", ["text/plain"])]
           hello) world0).2).2
  = world_zk
  ∧ wf (files world_zk)
  ∧ Open (getObjectPath data_b1 "k").1 world_zk
    = Ok (mkFile (true, ["data"; "b1"; "k"; ".content"]) (File hello 1000))
  ∧ lookup_path (files world_zk) (true, ["data"; "b1"; "k"; "metadata.json"])
    = inr Directory
  ∧ FileBucket_GetObject data_b1 "k" world_zk
    = (Err (PathError "read" "/data/b1/k/metadata.json" EISDIR), world_zk)
  ∧ HandleGetObject open_server fresh_writer (request "GET" "/b1/k" [] [])
      world_zk
    = (WriteError fresh_writer
         (ErrWith StatusInternalServerError
            (Some (PathError "read" "/data/b1/k/metadata.json" EISDIR))),
       world_zk).
Proof.
  split; [vm_compute; reflexivity|].
  split; [apply world_zk_wf|].
  repeat split; vm_compute; reflexivity.
Qed.

End Examples.

(** * Keys, request paths and the paths of a bucket *)

Module KeyFacts.
Import GoPath OS bucket S3 PathSpec TreeSpec BucketSpec CredsSpec ServerSpec KeySpec GoPathFacts OSFacts BucketFacts.

(** *** [strings.Trim] and [strings.SplitN] on a request path *)

Lemma SplitN2_cases t :
  (∃ b k, SplitN2 t = [b; k] ∧ no_slash b ∧ t = b +:+ "/" +:+ k)
  ∨ (SplitN2 t = [t] ∧ no_slash t).
Proof.
  induction t as [|c t IH]; [by right|]. simpl.
  destruct (Ascii.eqb c "/") eqn:Hc.
  - left. exists EmptyString, t. apply Ascii.eqb_eq in Hc as ->. done.
  - destruct IH as [(b & k & -> & Hb & Ht)|[-> Ht]].
    + left. exists (String c b), k. split; [done|]. split.
      * unfold no_slash in *. simpl. by rewrite Hc, Hb.
      * by rewrite Ht.
    + right. split; [done|]. unfold no_slash in *. simpl. by rewrite Hc, Ht.
Qed.

Lemma trim_left_not_rooted s : rooted (trim_left s) = false.
Proof.
  induction s as [|c s IH]; [done|]. simpl.
  destruct (Ascii.eqb c "/") eqn:Hc; [done|]. simpl. by rewrite Hc.
Qed.

Lemma trim_right_not_rooted u : rooted u = false → rooted (trim_right u) = false.
Proof.
  destruct u as [|c u]; [done|]. simpl. intros Hc.
  destruct (trim_right u); simpl; by rewrite Hc.
Qed.

Lemma trim_right_idem u : trim_right (trim_right u) = trim_right u.
Proof.
  induction u as [|c u IH]; [done|]. simpl.
  destruct (trim_right u) as [|c' t] eqn:Ht.
  - destruct (Ascii.eqb c "/") eqn:Hc; [done|]. simpl. by rewrite Hc.
  - simpl in *. by rewrite IH.
Qed.

(** A string that [trim_right] leaves alone has no part that it would
    shorten at its end. *)
Lemma trim_right_fixed_tail a k :
  trim_right (a +:+ k) = a +:+ k → trim_right k = k.
Proof.
  induction a as [|c a IH]; [done|]. rewrite append_String. simpl.
  destruct (trim_right (a +:+ k)) as [|c' t] eqn:Ht.
  - destruct (Ascii.eqb c "/"); [done|]. intros [= Heq].
    destruct a as [|c0 a0]; [|by rewrite append_String in Heq].
    rewrite append_nil_l in Heq. by subst k.
  - intros [= Heq]. by apply IH.
Qed.

Lemma append_assoc_slash b k : (b +:+ "/") +:+ k = b +:+ "/" +:+ k.
Proof. induction b as [|c b IH]; [done|]. rewrite !append_String. by rewrite IH. Qed.

(** X1: the path of a request, trimmed, is cut at its first slash.  When
    there are two parts, the bucket name is not empty and has no slash, and
    the key is not empty and does not end with a slash; otherwise the whole
    trimmed path, without a slash, is the only part. *)
Theorem uri_of_shape r :
  (∃ bucketName key,
      uri_of r = [bucketName; key]
      ∧ Trim (URL_Path r) = bucketName +:+ "/" +:+ key
      ∧ bucketName ≠ EmptyString ∧ no_slash bucketName
      ∧ key ≠ EmptyString ∧ trim_right key = key)
  ∨ (uri_of r = [Trim (URL_Path r)] ∧ no_slash (Trim (URL_Path r))).
Proof.
  unfold uri_of. set (t := Trim (URL_Path r)).
  assert (rooted t = false) as Hroot
    by apply trim_right_not_rooted, trim_left_not_rooted.
  assert (trim_right t = t) as Hfix by apply trim_right_idem.
  destruct (SplitN2_cases t) as [(b & k & Hs & Hb & Ht)|[Hs Ht]]; [left|by right].
  exists b, k. split; [done|]. split; [done|].
  split; [|split; [done|]].
  - intros ->. by rewrite Ht in Hroot.
  - assert (trim_right k = k) as Hk.
    { apply (trim_right_fixed_tail (b +:+ "/")).
      by rewrite append_assoc_slash, <- Ht. }
    split; [|done]. intros ->.
    assert (trim_right "/" = "/"); [|done].
    apply (trim_right_fixed_tail b).
    change (b +:+ "/" +:+ EmptyString) with (b +:+ "/") in Ht.
    by rewrite <- Ht.
Qed.

(** *** The paths of a key *)

Lemma fold_skip_empty r xs out :
  fold_left (clean_step r) xs out
  = fold_left (clean_step r) (filter (λ e, nonempty e = true) xs) out.
Proof.
  revert out. induction xs as [|x xs IH]; intros out; [done|].
  rewrite filter_cons. destruct (decide (nonempty x = true)) as [Hx|Hx].
  - simpl. apply IH.
  - simpl. rewrite <- IH. f_equal. unfold nonempty in Hx.
    destruct (String.eqb x EmptyString) eqn:E; [|done].
    apply String.eqb_eq in E as ->. done.
Qed.

Lemma clean_elems_app_skip r xs ys :
  clean_elems r (xs ++ ys)
  = clean_elems r (xs ++ filter (λ e, nonempty e = true) ys).
Proof.
  unfold clean_elems. rewrite !fold_left_app. by rewrite fold_skip_empty.
Qed.

Lemma key_segments_empty : key_segments EmptyString = [].
Proof. reflexivity. Qed.

(** The segments that a list of path elements contributes. *)
Lemma filter_concat_split ks :
  filter (λ e, nonempty e = true)
    (concat (map split (filter (λ e, nonempty e = true) ks)))
  = concat (map key_segments ks).
Proof.
  induction ks as [|k ks IH]; [done|].
  rewrite filter_cons. destruct (decide (nonempty k = true)) as [Hk|Hk].
  - simpl. rewrite filter_app. by rewrite IH.
  - simpl. rewrite IH. unfold nonempty in Hk.
    destruct (String.eqb k EmptyString) eqn:E; [|done].
    apply String.eqb_eq in E as ->. done.
Qed.

(** What [path.Join] makes of a directory and further elements: only the
    non-empty segments of the further elements matter. *)
Lemma Join_key_segments dir ks d ds :
  filter (λ e, nonempty e = true) dir = d :: ds →
  Join (dir ++ ks)
  = render (rooted d)
      (clean_elems (rooted d)
         (concat (map split (d :: ds)) ++ concat (map key_segments ks))).
Proof.
  intros Hd. pose proof (filter_nonempty_head _ _ _ Hd) as Hdne.
  unfold Join. rewrite filter_app, Hd.
  change ((d :: ds) ++ filter (λ e, nonempty e = true) ks)
    with (d :: (ds ++ filter (λ e, nonempty e = true) ks)).
  cbv beta iota.
  rewrite Clean_render by by apply join_nonempty.
  unfold loc_of. cbn [fst snd].
  rewrite rooted_join_head by done.
  rewrite split_join_concat by done.
  change (d :: ds ++ filter (λ e, nonempty e = true) ks)
    with ((d :: ds) ++ filter (λ e, nonempty e = true) ks).
  rewrite map_app, concat_app.
  by rewrite clean_elems_app_skip, filter_concat_split.
Qed.

Lemma bucketDir_named f :
  bucketDir f ≠ EmptyString →
  ∃ d ds, filter (λ e, nonempty e = true) [path f; name f] = d :: ds.
Proof.
  unfold bucketDir, Join. intros Hne.
  destruct (filter _ [path f; name f]) as [|d ds]; [done|]. eauto.
Qed.

Lemma metadata_dir_named f :
  ∃ d ds, filter (λ e, nonempty e = true) [path f; ".metadata"; name f] = d :: ds.
Proof.
  rewrite filter_cons. destruct (decide _).
  - eauto.
  - rewrite filter_cons_True by done. eauto.
Qed.

(** X2: two keys with the same non-empty segments (keys that differ only
    in repeated, leading or trailing slashes) are mapped to the same content
    path and the same metadata path. *)
Theorem same_segments_same_paths f key1 key2 :
  bucketDir f ≠ EmptyString →
  key_segments key1 = key_segments key2 →
  getObjectPath f key1 = getObjectPath f key2.
Proof.
  intros Hdir Hseg.
  destruct (bucketDir_named f Hdir) as (d & ds & Hd).
  destruct (metadata_dir_named f) as (d' & ds' & Hd').
  assert (∀ dir ks d ds, filter (λ e, nonempty e = true) dir = d :: ds →
            ∀ k1 k2, key_segments k1 = key_segments k2 →
              Join (dir ++ k1 :: ks) = Join (dir ++ k2 :: ks)) as Hjoin.
  { intros dir ks d0 ds0 Hd0 k1 k2 Hk.
    rewrite (Join_key_segments dir (k1 :: ks) d0 ds0 Hd0),
      (Join_key_segments dir (k2 :: ks) d0 ds0 Hd0).
    simpl. by rewrite Hk. }
  unfold getObjectPath. destruct (directStore f); f_equal.
  - exact (Hjoin [path f; name f] [] d ds Hd key1 key2 Hseg).
  - exact (Hjoin [path f; ".metadata"; name f] [] d' ds' Hd' key1 key2 Hseg).
  - exact (Hjoin [path f; name f] [".content"] d ds Hd key1 key2 Hseg).
  - exact (Hjoin [path f; name f] ["metadata.json"] d ds Hd key1 key2 Hseg).
Qed.

Lemma key_segments_no_slash key : Forall no_slash (key_segments key).
Proof.
  apply Forall_forall. intros e He. apply list_elem_of_filter in He as [_ He].
  by apply (proj1 (Forall_forall _ _) (split_no_slash key)).
Qed.

Lemma key_segments_plain key : traversal_free key → Forall plain (key_segments key).
Proof.
  intros Hk. apply Forall_forall. intros e He.
  apply list_elem_of_filter in He as [_ He].
  by apply (proj1 (Forall_forall _ _) Hk).
Qed.

Lemma key_segments_filtered key :
  filter (λ e, nonempty e = true) (key_segments key) = key_segments key.
Proof.
  unfold key_segments. induction (split key) as [|x xs IH]; [done|].
  rewrite filter_cons. destruct (decide (nonempty x = true)); [|done].
  rewrite filter_cons_True by done. by rewrite IH.
Qed.

Lemma concat_split_no_slash ds : Forall no_slash (concat (map split ds)).
Proof.
  induction ds as [|d ds IH]; [done|]. simpl. rewrite Forall_app.
  split; [apply split_no_slash|done].
Qed.

(** Further elements without [.] and [..] are told apart by their
    segments. *)
Lemma Join_plain_injective dir d ds s1 s2 post :
  filter (λ e, nonempty e = true) dir = d :: ds →
  traversal_free s1 → traversal_free s2 → traversal_free post →
  Join (dir ++ [s1; post]) = Join (dir ++ [s2; post]) →
  key_segments s1 = key_segments s2.
Proof.
  intros Hd H1 H2 Hp.
  rewrite (Join_key_segments dir [s1; post] d ds Hd),
    (Join_key_segments dir [s2; post] d ds Hd).
  pose proof (concat_split_no_slash (d :: ds)) as HD.
  set (D := concat (map split (d :: ds))) in *.
  change (concat (map key_segments [s1; post]))
    with (key_segments s1 ++ key_segments post ++ []).
  change (concat (map key_segments [s2; post]))
    with (key_segments s2 ++ key_segments post ++ []).
  rewrite !app_nil_r. intros Heq.
  assert (∀ s, traversal_free s →
            OS.resolve (render (rooted d)
              (clean_elems (rooted d) (D ++ key_segments s ++ key_segments post)))
            = Some (rooted d,
                    clean_elems (rooted d) D
                    ++ key_segments s ++ key_segments post)) as Hres.
  { intros s Hs. rewrite resolve_render.
    - rewrite clean_elems_app_plain.
      + by rewrite filter_app, !key_segments_filtered.
      + rewrite Forall_app. split; by apply key_segments_plain.
    - apply clean_elems_cleaned. rewrite !Forall_app.
      split; [done|]. split; apply key_segments_no_slash. }
  pose proof (Hres s1 H1) as R1. pose proof (Hres s2 H2) as R2.
  rewrite Heq in R1. rewrite R1 in R2.
  injection R2 as R2. apply app_inv_head in R2. by apply app_inv_tail in R2.
Qed.

(** X3: two keys without [.] and [..] segments that are mapped to the same
    content path, or to the same metadata path, have the same non-empty
    segments; and in the default layout the content path of a key is never
    the metadata path of a key. *)
Theorem same_path_same_segments f key1 key2 :
  bucketDir f ≠ EmptyString →
  traversal_free key1 → traversal_free key2 →
  ((getObjectPath f key1).1 = (getObjectPath f key2).1
   ∨ (getObjectPath f key1).2 = (getObjectPath f key2).2 →
   key_segments key1 = key_segments key2)
  ∧ (directStore f = false →
     (getObjectPath f key1).1 ≠ (getObjectPath f key2).2).
Proof.
  intros Hdir H1 H2.
  destruct (bucketDir_named f Hdir) as (d & ds & Hd).
  destruct (metadata_dir_named f) as (d' & ds' & Hd').
  assert (traversal_free EmptyString ∧ traversal_free ".content"
          ∧ traversal_free "metadata.json") as (He & Hc & Hm).
  { repeat split; (constructor; [by split|constructor]). }
  assert (∀ dir key, Join (dir ++ [key]) = Join (dir ++ [key; EmptyString]))
    as Hpad.
  { intros dir key. unfold Join. by rewrite !filter_app. }
  split.
  - unfold getObjectPath. destruct (directStore f); simpl; intros [Heq|Heq].
    + apply (Join_plain_injective [path f; name f] d ds key1 key2 EmptyString);
        try done; by rewrite <- !Hpad.
    + apply (Join_plain_injective [path f; ".metadata"; name f] d' ds' key1 key2
               EmptyString); try done; by rewrite <- !Hpad.
    + by apply (Join_plain_injective [path f; name f] d ds key1 key2 ".content").
    + by apply (Join_plain_injective [path f; name f] d ds key1 key2 "metadata.json").
  - unfold getObjectPath. intros ->. simpl. intros Heq.
    assert (Join [path f; name f; key1; ".content"] ≠ EmptyString) as Hne.
    { apply (Join_nonempty _ ".content"); [|done].
      apply list_elem_of_In. simpl. tauto. }
    pose proof (resolve_nonempty _ Hne) as Hres.
    set (l := loc_of (Join [path f; name f; key1; ".content"])) in Hres.
    assert (OS.resolve (Join [path f; name f; key2; "metadata.json"]) = Some l)
      as Hres' by (by rewrite <- Heq).
    apply (resolve_Join_last [path f; name f; key1] ".content") in Hres; [|done..].
    apply (resolve_Join_last [path f; name f; key2] "metadata.json") in Hres';
      [|done..].
    congruence.
Qed.

(** X4: the bucket name is joined to the base path as it is: the bucket
    named [..] has the parent of the base directory as its directory. *)
Theorem dotdot_bucket_is_parent_of_base base direct l e :
  OS.resolve base = Some l → last l.2 = Some e → e ≠ ".." →
  OS.resolve (bucketDir {| path := base; name := ".."; directStore := direct |})
  = Some (OS.parent l).
Proof.
  intros Hres Hlast He.
  assert (base ≠ EmptyString) as Hbase by (by intros ->).
  rewrite resolve_nonempty in Hres by done. injection Hres as <-.
  unfold bucketDir, Join. cbn [path name].
  rewrite filter_cons_True
    by (unfold nonempty; by rewrite eqb_false_iff').
  rewrite filter_cons_True by done. rewrite filter_nil.
  rewrite resolve_Clean by by apply join_nonempty.
  unfold loc_of, OS.parent. cbn [fst snd].
  rewrite rooted_join_head by done. f_equal. f_equal.
  change (join [base; ".."]) with (base +:+ "/" +:+ "..").
  rewrite split_app_slash. unfold loc_of in Hlast. cbn [snd] in Hlast.
  unfold clean_elems in *. rewrite fold_left_app.
  apply last_Some in Hlast as [es' Hes'].
  set (S := fold_left (clean_step (rooted base)) (split base) []) in *.
  assert (S = e :: rev es') as HS.
  { apply (f_equal (@rev string)) in Hes'.
    by rewrite rev_involutive, rev_unit in Hes'. }
  rewrite Hes', removelast_last, HS. simpl. unfold clean_step. simpl.
  rewrite (eqb_false_iff' e "..") by done. simpl. by rewrite rev_involutive.
Qed.

(** *** A key that climbs out of its bucket *)

Lemma clean_elems_pop r xs n rest :
  real n →
  clean_elems r (xs ++ n :: ".." :: rest) = clean_elems r (xs ++ rest).
Proof.
  intros (Hn0 & Hn1 & Hn2). unfold clean_elems. rewrite !fold_left_app.
  f_equal. set (st := fold_left (clean_step r) xs []).
  change (fold_left (clean_step r) (n :: ".." :: rest) st)
    with (fold_left (clean_step r) rest
            (clean_step r (clean_step r st n) "..")).
  f_equal.
  assert (clean_step r st n = n :: st) as ->.
  { unfold clean_step.
    by rewrite !(proj2 (String.eqb_neq _ _)) by done. }
  unfold clean_step. simpl.
  by rewrite (proj2 (String.eqb_neq n "..")) by done.
Qed.

Lemma key_segments_single n :
  n ≠ EmptyString → no_slash n → key_segments n = [n].
Proof.
  intros Hn Hs. unfold key_segments. rewrite Hs.
  rewrite filter_cons_True; [done|].
  unfold nonempty. by rewrite (proj2 (String.eqb_neq _ _)).
Qed.

Lemma key_segments_climb n2 key :
  key_segments ("../" +:+ n2 +:+ "/" +:+ key)
  = ".." :: key_segments n2 ++ key_segments key.
Proof.
  change ("../" +:+ n2 +:+ "/" +:+ key) with (".." +:+ "/" +:+ n2 +:+ "/" +:+ key).
  unfold key_segments. rewrite !split_app_slash, !filter_app. reflexivity.
Qed.

Lemma Join_climb pre d ds n1 n2 key post :
  filter (λ e, nonempty e = true) pre = d :: ds →
  real n1 → no_slash n1 →
  Join (pre ++ n1 :: ("../" +:+ n2 +:+ "/" +:+ key) :: post)
  = Join (pre ++ n2 :: key :: post).
Proof.
  intros Hpre Hreal Hns.
  rewrite !(Join_key_segments pre _ d ds Hpre). f_equal.
  change (concat (map key_segments (n1 :: ("../" +:+ n2 +:+ "/" +:+ key) :: post)))
    with (key_segments n1 ++ key_segments ("../" +:+ n2 +:+ "/" +:+ key)
            ++ concat (map key_segments post)).
  change (concat (map key_segments (n2 :: key :: post)))
    with (key_segments n2 ++ key_segments key
            ++ concat (map key_segments post)).
  rewrite key_segments_single by (done || apply Hreal).
  rewrite key_segments_climb.
  set (D := concat (map split (d :: ds))).
  set (P := concat (map key_segments post)).
  change (D ++ [n1] ++ (".." :: key_segments n2 ++ key_segments key) ++ P)
    with (D ++ n1 :: ".." :: (key_segments n2 ++ key_segments key) ++ P).
  rewrite clean_elems_pop by done. by rewrite <- app_assoc.
Qed.

(** X20: a key that starts with [../<other>/] addresses the objects of
    bucket [<other>]: for a bucket whose name is a real path element, both
    paths of the key [../<other>/<key>] are the paths of [<key>] in the
    bucket named [<other>] under the same base path. *)
Theorem dotdot_key_reaches_other_bucket base n1 n2 direct key :
  base ≠ EmptyString → real n1 → no_slash n1 →
  getObjectPath {| path := base; name := n1; directStore := direct |}
    ("../" +:+ n2 +:+ "/" +:+ key)
  = getObjectPath {| path := base; name := n2; directStore := direct |} key.
Proof.
  intros Hbase Hreal Hns.
  assert (filter (λ e, nonempty e = true) [base] = [base]) as H1.
  { rewrite filter_cons_True; [done|].
    unfold nonempty. by rewrite (proj2 (String.eqb_neq _ _)). }
  assert (filter (λ e, nonempty e = true) [base; ".metadata"]
          = [base; ".metadata"]) as H2.
  { rewrite filter_cons_True; [done|].
    unfold nonempty. by rewrite (proj2 (String.eqb_neq _ _)). }
  unfold getObjectPath. destruct direct; simpl; f_equal.
  - exact (Join_climb [base] _ _ n1 n2 key [] H1 Hreal Hns).
  - exact (Join_climb [base; ".metadata"] _ _ n1 n2 key [] H2 Hreal Hns).
  - exact (Join_climb [base] _ _ n1 n2 key [".content"] H1 Hreal Hns).
  - exact (Join_climb [base] _ _ n1 n2 key ["metadata.json"] H1 Hreal Hns).
Qed.

(** *** Which keys stay in the bucket *)

Lemma route_step_skip st xs :
  fold_left route_step xs st
  = fold_left route_step (filter (λ e, nonempty e = true) xs) st.
Proof.
  revert st. induction xs as [|x xs IH]; intros st; [done|].
  rewrite filter_cons. destruct (decide (nonempty x = true)) as [Hx|Hx].
  - simpl. apply IH.
  - simpl. rewrite <- IH. f_equal. unfold nonempty in Hx.
    destruct (String.eqb x EmptyString) eqn:E; [|done].
    unfold route_step. by rewrite E.
Qed.

(** Reading a path from inside a directory: the elements it goes down are
    put on what is left of the directory after it has climbed. *)
Lemma route_sim r es : ∀ c down out,
  Forall real down →
  fold_left (clean_step r) es (down ++ Nat.iter c (pop r) out)
  = (fold_left route_step es (c, down)).2
    ++ Nat.iter (fold_left route_step es (c, down)).1 (pop r) out
  ∧ Forall real (fold_left route_step es (c, down)).2.
Proof.
  induction es as [|e es IH]; intros c down out Hdown; [done|]. simpl.
  assert (clean_step r (down ++ Nat.iter c (pop r) out) e
          = (route_step (c, down) e).2
            ++ Nat.iter (route_step (c, down) e).1 (pop r) out
          ∧ Forall real (route_step (c, down) e).2) as [Hstep Hreal].
  { unfold route_step, clean_step at 1.
    destruct (String.eqb e EmptyString) eqn:E1; [done|].
    destruct (String.eqb e ".") eqn:E2; [done|].
    destruct (String.eqb e "..") eqn:E3.
    - destruct down as [|x down]; simpl.
      + split; [|done]. fold (clean_step r (Nat.iter c (pop r) out) "..").
        unfold clean_step. reflexivity.
      + inversion Hdown as [|? ? Hx Hdown']; subst.
        rewrite eqb_false_iff' by apply Hx. simpl. done.
    - simpl. split; [done|]. constructor; [|done].
      apply String.eqb_neq in E1, E2, E3. done. }
  rewrite Hstep. destruct (route_step (c, down) e) as [c' down'].
  by apply IH.
Qed.

Lemma route_real es : Forall real (route es).2.
Proof.
  unfold route. simpl. apply Forall_rev.
  by apply (route_sim false es 0 [] []).
Qed.

Lemma pop_real r x out : real x → pop r (x :: out) = out.
Proof.
  intros Hx. unfold pop, clean_step. simpl.
  by rewrite (eqb_false_iff' x "..") by apply Hx.
Qed.

Lemma pop_iter_reals r xs out c :
  Forall real xs → (c ≤ length xs)%nat →
  Nat.iter c (pop r) (rev xs ++ out) = rev (take (length xs - c) xs) ++ out.
Proof.
  intros Hxs. induction c as [|c IH]; intros Hc.
  - simpl. by rewrite Nat.sub_0_r, firstn_all.
  - simpl. rewrite IH by lia.
    destruct (lookup_lt_is_Some_2 xs (length xs - S c)) as [x Hx]; [lia|].
    replace (length xs - c)%nat with (S (length xs - S c)) by lia.
    rewrite (take_S_r _ _ x Hx), rev_unit. simpl.
    apply pop_real. apply (proj1 (Forall_lookup _ _) Hxs _ _ Hx).
Qed.

Lemma pop_iter_dotdot u c :
  Nat.iter c (pop false) (replicate u "..") = replicate (c + u) "..".
Proof.
  induction c as [|c IH]; [done|]. simpl. rewrite IH.
  unfold pop, clean_step. simpl. by destruct (c + u)%nat.
Qed.

Lemma pop_iter_root c : Nat.iter c (pop true) [] = [].
Proof. induction c as [|c IH]; [done|]. simpl. by rewrite IH. Qed.

Lemma iter_add {A} (f : A → A) a b x :
  Nat.iter (a + b) f x = Nat.iter a f (Nat.iter b f x).
Proof. induction a as [|a IH]; [done|]. simpl. by rewrite IH. Qed.

Lemma real_not_dotdot xs : Forall real xs → ".." ∉ xs.
Proof.
  intros Hxs Hin. apply (proj1 (Forall_forall _ _) Hxs) in Hin.
  by destruct Hin as (_ & _ & ?).
Qed.

(** Where a path that climbs [c] levels and then goes [down] ends, seen
    from a cleaned directory. *)
Lemma climb_inside r ds c down :
  cleaned r ds → Forall real down →
  (∃ k, rev (Nat.iter c (pop r) (rev ds)) ++ down = ds ++ k ∧ ".." ∉ k)
  ↔ reenters (r, ds) c down.
Proof.
  intros (u & reals & -> & Hreals & _ & Hr) Hdown. unfold reenters. simpl.
  rewrite rev_app_distr, rev_replicate.
  rewrite !length_app, length_replicate.
  destruct (decide (c ≤ length reals)%nat) as [Hc|Hc].
  - rewrite pop_iter_reals by done.
    rewrite rev_app_distr, rev_replicate, rev_involutive.
    rewrite drop_app_ge by (rewrite length_replicate; lia).
    rewrite length_replicate.
    replace (u + length reals - c - u)%nat with (length reals - c)%nat by lia.
    set (n := (length reals - c)%nat).
    assert (∀ k, (replicate u ".." ++ reals) ++ k
                 = (replicate u ".." ++ take n reals) ++ drop n reals ++ k) as E.
    { intros k. rewrite <- !app_assoc. f_equal.
      by rewrite app_assoc, take_drop. }
    split.
    + intros (k & Hk & _). rewrite E in Hk. apply app_inv_head in Hk.
      split; [by exists k|right; lia].
    + intros [[k ->] _]. exists k. split; [by rewrite E|].
      apply real_not_dotdot. by apply Forall_app in Hdown as [_ ?].
  - assert (Nat.iter c (pop r) (rev reals ++ replicate u "..")
            = Nat.iter (c - length reals) (pop r) (replicate u "..")) as ->.
    { transitivity (Nat.iter ((c - length reals) + length reals) (pop r)
                      (rev reals ++ replicate u "..")); [f_equal; lia|].
      rewrite iter_add, pop_iter_reals by (done || lia).
      by rewrite Nat.sub_diag, take_0. }
    destruct r.
    + rewrite (Hr eq_refl). simpl.
      rewrite pop_iter_root. simpl.
      replace (length reals - c)%nat with 0%nat by lia. simpl. split.
      * intros (k & -> & _). split; [by exists k|by left].
      * intros [[k ->] _]. exists k. split; [done|].
        apply real_not_dotdot. by apply Forall_app in Hdown as [_ ?].
    + rewrite pop_iter_dotdot, rev_replicate. split.
      * intros (k & Hk & Hdd). exfalso.
        assert ((replicate (c - length reals + u) ".." ++ down) !! u = Some "..")
          as Hu.
        { rewrite lookup_app_l by (rewrite length_replicate; lia).
          apply lookup_replicate_2. lia. }
        rewrite Hk, <- app_assoc in Hu.
        rewrite lookup_app_r in Hu by (by rewrite length_replicate).
        rewrite length_replicate, Nat.sub_diag in Hu.
        destruct reals as [|x reals]; simpl in Hu.
        -- destruct k as [|y k]; [done|]. injection Hu as ->.
           apply Hdd. constructor.
        -- injection Hu as ->. inversion Hreals as [|? ? Hx _].
           by destruct Hx as (_ & _ & ?).
      * intros [Hpre [?|Hle]]; [done|]. exfalso.
        assert (drop (u + length reals - c) (replicate u ".." ++ reals) !! 0%nat
                = Some "..") as H0.
        { rewrite lookup_drop, Nat.add_0_r.
          rewrite lookup_app_l by (rewrite length_replicate; lia).
          apply lookup_replicate_2. lia. }
        destruct Hpre as [k Hk]. rewrite Hk in Hdown.
        destruct (drop _ _) as [|x xs]; [done|]. injection H0 as ->.
        inversion Hdown as [|? ? Hx _]. by destruct Hx as (_ & _ & ?).
Qed.

Lemma key_segments_concat_single ks :
  Forall real ks → Forall no_slash ks → concat (map key_segments ks) = ks.
Proof.
  induction ks as [|k ks IH]; [done|]. intros Hr Hs.
  inversion Hr as [|? ? Hk Hr']; inversion Hs as [|? ? Hk' Hs']; subst.
  simpl. rewrite key_segments_single by (done || apply Hk).
  simpl. by rewrite IH.
Qed.

Lemma concat_key_segments_no_slash ks :
  Forall no_slash (concat (map key_segments ks)).
Proof.
  induction ks as [|k ks IH]; [done|]. simpl. rewrite Forall_app.
  split; [apply key_segments_no_slash|done].
Qed.

(** The location that [path.Join] of a directory and further elements
    names. *)
Lemma Join_loc dir ks d ds :
  filter (λ e, nonempty e = true) dir = d :: ds →
  OS.resolve (Join (dir ++ ks))
  = Some (rooted d,
          clean_elems (rooted d)
            (concat (map split (d :: ds)) ++ concat (map key_segments ks))).
Proof.
  intros Hd. rewrite (Join_key_segments dir ks d ds Hd).
  apply resolve_render, clean_elems_cleaned. rewrite Forall_app.
  split; [apply concat_split_no_slash|apply concat_key_segments_no_slash].
Qed.

(** A key joined to a directory, with the elements that end the path, is
    inside the directory exactly when its route comes back into it. *)
Lemma Join_inside_iff dir d ds key suffix ld :
  filter (λ e, nonempty e = true) dir = d :: ds →
  Forall real suffix → Forall no_slash suffix →
  OS.resolve (Join dir) = Some ld →
  inside (Join dir) (Join (dir ++ key :: suffix))
  ↔ reenters ld (route (split key)).1 ((route (split key)).2 ++ suffix).
Proof.
  intros Hd Hsr Hss Hld.
  pose proof (Join_loc dir [] d ds Hd) as Hdir.
  pose proof (Join_loc dir (key :: suffix) d ds Hd) as Hp.
  rewrite app_nil_r in Hdir.
  change (concat (map key_segments [])) with (@nil string) in Hdir.
  rewrite app_nil_r in Hdir.
  set (r := rooted d) in *.
  set (D := concat (map split (d :: ds))) in *.
  assert (ld = (r, clean_elems r D)) as -> by congruence.
  assert (cleaned r (clean_elems r D)) as Hclean
    by apply clean_elems_cleaned, concat_split_no_slash.
  change (concat (map key_segments (key :: suffix)))
    with (key_segments key ++ concat (map key_segments suffix)) in Hp.
  rewrite key_segments_concat_single in Hp by done.
  assert (clean_elems r (D ++ key_segments key ++ suffix)
          = rev (Nat.iter (route (split key)).1 (pop r) (rev (clean_elems r D)))
            ++ (route (split key)).2 ++ suffix) as HL.
  { unfold clean_elems at 1. rewrite !fold_left_app.
    rewrite (fold_real r suffix) by done.
    pose proof (route_sim r (key_segments key) 0 []
                  (fold_left (clean_step r) D []) (Forall_nil_2 _)) as [Hsim _].
    simpl in Hsim. rewrite Hsim.
    unfold key_segments. rewrite <- route_step_skip.
    unfold route. simpl. unfold clean_elems. rewrite rev_involutive.
    by rewrite !rev_app_distr, rev_involutive, <- app_assoc. }
  rewrite HL in Hp.
  rewrite <- (climb_inside r (clean_elems r D)); [|done|].
  - unfold inside. split.
    + intros (ld' & lp & H1 & H2 & _ & k & Hk & Hdd).
      rewrite Hdir in H1. rewrite Hp in H2.
      injection H1 as <-. injection H2 as <-. simpl in Hk. by exists k.
    + intros (k & Hk & Hdd). eexists _, _.
      split; [exact Hdir|]. split; [exact Hp|]. split; [done|].
      by exists k.
  - rewrite Forall_app. split; [apply route_real|done].
Qed.

(** Both paths of a key, for both layouts. *)
Lemma object_paths_inside f key ld lm :
  OS.resolve (bucketDir f) = Some ld →
  OS.resolve (metadataDir f) = Some lm →
  (inside (bucketDir f) (getObjectPath f key).1
   ↔ reenters ld (route (split key)).1
       ((route (split key)).2 ++ content_suffix f))
  ∧ (inside (metadataDir f) (getObjectPath f key).2
     ↔ reenters lm (route (split key)).1
         ((route (split key)).2 ++ metadata_suffix f)).
Proof.
  intros Hld Hlm.
  assert (bucketDir f ≠ EmptyString) as Hdir.
  { intros Heq. by rewrite Heq in Hld. }
  destruct (bucketDir_named f Hdir) as (d & ds & Hd).
  destruct (metadata_dir_named f) as (d' & ds' & Hd').
  assert (Forall real [".content"] ∧ Forall no_slash [".content"]
          ∧ Forall real ["metadata.json"] ∧ Forall no_slash ["metadata.json"])
    as (Hc1 & Hc2 & Hm1 & Hm2).
  { repeat split; by repeat constructor. }
  revert Hld Hlm.
  unfold bucketDir, metadataDir, getObjectPath, content_suffix, metadata_suffix.
  destruct (directStore f); intros Hld Hlm; split.
  - exact (Join_inside_iff [path f; name f] d ds key [] ld Hd
             (Forall_nil_2 _) (Forall_nil_2 _) Hld).
  - exact (Join_inside_iff [path f; ".metadata"; name f] d' ds' key [] lm Hd'
             (Forall_nil_2 _) (Forall_nil_2 _) Hlm).
  - exact (Join_inside_iff [path f; name f] d ds key [".content"] ld Hd
             Hc1 Hc2 Hld).
  - exact (Join_inside_iff [path f; name f] d ds key ["metadata.json"] lm Hd
             Hm1 Hm2 Hlm).
Qed.

(** C1, as the code has it: a key is never refused; [path.Join] resolves
    its [.] and [..] segments.  The content path lies in the bucket's
    directory, and the metadata path in the metadata directory, exactly
    when the route of the key comes back into the directory: for a key
    that climbs, when it goes down again through the directories it left.
    A key that does not climb above its own start stays in both
    directories, whatever [.] and [..] segments it has. *)
Theorem key_stays_in_bucket_iff f key ld lm :
  OS.resolve (bucketDir f) = Some ld →
  OS.resolve (metadataDir f) = Some lm →
  (inside (bucketDir f) (getObjectPath f key).1
   ↔ reenters ld (route (split key)).1
       ((route (split key)).2 ++ content_suffix f))
  ∧ (inside (metadataDir f) (getObjectPath f key).2
     ↔ reenters lm (route (split key)).1
         ((route (split key)).2 ++ metadata_suffix f))
  ∧ ((route (split key)).1 = 0%nat →
     inside (bucketDir f) (getObjectPath f key).1
     ∧ inside (metadataDir f) (getObjectPath f key).2).
Proof.
  intros Hld Hlm.
  destruct (object_paths_inside f key ld lm Hld Hlm) as [Hc Hm].
  split; [done|]. split; [done|]. intros H0.
  assert (∀ l down, reenters l 0 down) as Hstay.
  { intros l down. split; [|right; lia].
    rewrite Nat.sub_0_r, drop_all. apply prefix_nil. }
  split; [apply Hc|apply Hm]; rewrite H0; apply Hstay.
Qed.

End KeyFacts.

(** * The object operations on the file tree *)

Module StoreFacts.
Import GoPath OS bucket PathSpec TreeSpec BucketSpec CredsSpec ServerSpec KeySpec GoPathFacts OSFacts BucketFacts KeyFacts.

(** *** Removing a file *)

Lemma node_at_delete_ne fs k x : k ≠ x → node_at (delete k fs) x = node_at fs x.
Proof.
  intros. unfold node_at. destruct (all_dotdot x.2); [done|].
  by rewrite lookup_delete_ne.
Qed.

Lemma lookup_path_delete_other fs l k n :
  lookup_path fs l = inr n → l ≠ k → node_at fs k ≠ Some Directory →
  lookup_path (delete k fs) l = inr n.
Proof.
  intros Hl Hne Hk. apply lookup_ok in Hl as (Hp & Hfit & Hn & Hd).
  apply lookup_intro; [done|done| |].
  - by rewrite node_at_delete_ne.
  - intros q Hq. rewrite node_at_delete_ne; [by apply Hd|].
    intros ->. apply Hk. by apply Hd.
Qed.

Lemma lookup_path_missing_delete fs l k :
  lookup_path fs l = inl ENOENT → node_at fs k ≠ Some Directory →
  lookup_path (delete k fs) l = inl ENOENT.
Proof.
  intros Hl Hk.
  apply lookup_enoent in Hl as (Hp & q & Hq & Hfit & Hnone & Hdirs).
  apply (lookup_enoent_intro _ _ q); [done|done|done| |].
  - unfold node_at in *. simpl in *. destruct (all_dotdot q); [done|].
    destruct (decide (k = (l.1, q))) as [->|Hne];
      [apply lookup_delete_eq|by rewrite lookup_delete_ne].
  - intros q' Hq'. rewrite node_at_delete_ne; [by apply Hdirs|].
    intros ->. apply Hk. by apply Hdirs.
Qed.

Lemma lookup_path_deleted fs k c t :
  lookup_path fs k = inr (File c t) → lookup_path (delete k fs) k = inl ENOENT.
Proof.
  intros Hl. apply lookup_ok in Hl as (Hp & Hfit & Hn & Hd).
  apply (lookup_enoent_intro _ _ k.2); [done|done|done| |].
  - unfold node_at in *. destruct k as [r es]. simpl in *.
    destruct (all_dotdot es); [done|]. apply lookup_delete_eq.
  - intros q' Hq'. rewrite node_at_delete_ne; [by apply Hd|].
    destruct k as [r es]. intros [= ->]. by destruct Hq'.
Qed.

Lemma file_not_directory fs l c t :
  lookup_path fs l = inr (File c t) → node_at fs l ≠ Some Directory.
Proof. intros Hl. apply lookup_ok in Hl as (_ & _ & Hn & _). congruence. Qed.

Lemma missing_not_directory fs l n k errno :
  lookup_path fs l = inr n → lookup_path fs k = inl errno → l ≠ k.
Proof. intros Hl Hk ->. congruence. Qed.

Lemma Remove_file name l w c t :
  resolve name = Some l → lookup_path (files w) l = inr (File c t) →
  Remove name w = (None, set_files w (delete l (files w))).
Proof. unfold Remove. by intros -> ->. Qed.

(** *** Making a directory *)

(** A path of which [os.Mkdir] refuses no level passes the limits. *)
Lemma mkdir_errno_fits r es :
  (∀ q, q `prefix_of` es → mkdir_errno (r, q) = None) →
  path_errno (r, es) = None ∧ names_fit es.
Proof.
  intros Herr. split.
  - specialize (Herr es (reflexivity _)). unfold mkdir_errno in Herr.
    by destruct (path_errno (r, es)).
  - induction es as [|x es IH] using rev_ind; [by constructor|].
    apply Forall_app. split.
    + apply IH. intros q Hq. apply Herr. by apply prefix_app_r.
    + constructor; [|done]. specialize (Herr _ (reflexivity _)).
      unfold mkdir_errno in Herr. destruct (path_errno _); [done|].
      simpl in Herr. rewrite last_last in Herr.
      by destruct (name_fits x).
Qed.

Lemma MkdirAll_made name w w' :
  MkdirAll name w = (None, w') →
  ∃ l, resolve name = Some l ∧ lookup_path (files w') l = inr Directory.
Proof.
  unfold MkdirAll. destruct (resolve name) as [l|]; [|done].
  destruct (mkdir_walk _ _ _ _) as [[[? ?] ?]|fs'] eqn:Hm; [done|].
  intros [= <-]. exists l. split; [done|].
  pose proof (mkdir_walk_dirs _ _ _ _ _ Hm) as Hdirs. simpl in Hdirs.
  destruct (mkdir_errno_fits l.1 l.2) as [Hp Hfit];
    [intros q Hq; by apply Hdirs|].
  apply lookup_intro; simpl.
  - by destruct l.
  - done.
  - destruct l. by apply Hdirs.
  - intros q [Hq _]. by apply Hdirs.
Qed.

Lemma MkdirAll_again name l w :
  resolve name = Some l → lookup_path (files w) l = inr Directory →
  MkdirAll name w = (None, w).
Proof.
  intros Hres Hl. unfold MkdirAll. rewrite Hres.
  apply lookup_ok in Hl as (Hp & Hfit & Hn & Hd).
  rewrite mkdir_walk_noop; [by rewrite set_files_id| |].
  - intros q Hq. simpl. apply (mkdir_errno_prefix _ q l.2); [done| |done].
    by destruct l.
  - intros q Hq. simpl. destruct (decide (q = l.2)) as [->|Hne];
      [by destruct l|]. by apply Hd.
Qed.

Lemma Create_failed name w e w' : Create name w = (Err e, w') → w' = w.
Proof. unfold Create. repeat case_match; naive_solver. Qed.

Lemma Remove_failed name w e w' : Remove name w = (Some e, w') → w' = w.
Proof. unfold Remove. repeat case_match; naive_solver. Qed.

(** Nothing that resolves lies below a directory without children. *)
Lemma no_children_not_above fs k l n :
  has_children fs k = false → all_dotdot k.2 = false →
  lookup_path fs l = inr n → k.1 = l.1 → ¬ proper_prefix k.2 l.2.
Proof.
  intros Hch Hdd Hl Hr [[more Hmore] Hne].
  destruct more as [|x more]; [by rewrite app_nil_r in Hmore|].
  destruct l as [r es], k as [rk ek]. simpl in *. subst rk es.
  apply lookup_ok in Hl as (_ & _ & Hn & Hd). simpl in Hn, Hd.
  assert (∃ n', node_at fs (r, ek ++ [x]) = Some n') as [n' Hn'].
  { destruct more as [|y more].
    - eauto.
    - exists Directory. apply Hd. split.
      + exists (y :: more). by rewrite <- app_assoc.
      + intros Heq. apply (f_equal length) in Heq.
        rewrite !length_app in Heq. simpl in Heq. lia. }
  unfold node_at in Hn'. simpl in Hn'.
  rewrite all_dotdot_app, Hdd in Hn'. simpl in Hn'.
  assert (has_children fs (r, ek) = true); [|congruence].
  unfold has_children. apply existsb_exists. exists ((r, ek ++ [x]), n').
  split; [by apply list_elem_of_In, elem_of_map_to_list|].
  apply bool_decide_eq_true. simpl. rewrite removelast_last.
  split; [done|]. split; [done|]. by destruct ek.
Qed.

Lemma lookup_path_delete_unrelated fs l k n :
  lookup_path fs l = inr n → l ≠ k →
  (k.1 = l.1 → ¬ proper_prefix k.2 l.2) →
  lookup_path (delete k fs) l = inr n.
Proof.
  intros Hl Hne Hk. apply lookup_ok in Hl as (Hp & Hfit & Hn & Hd).
  apply lookup_intro; [done|done| |].
  - by rewrite node_at_delete_ne.
  - intros q Hq. rewrite node_at_delete_ne; [by apply Hd|].
    intros ->. by apply Hk.
Qed.

(** What [os.Remove] leaves alone. *)
Lemma Remove_keeps name k w e w' l n :
  resolve name = Some k → Remove name w = (e, w') → l ≠ k →
  lookup_path (files w) l = inr n → lookup_path (files w') l = inr n.
Proof.
  intros Hres Hrm Hne Hl. revert Hrm. unfold Remove. rewrite Hres.
  destruct (lookup_path (files w) k) as [|[c t|]] eqn:Hk; [by intros [= _ <-]| |].
  - intros [= _ <-]. simpl. apply lookup_path_delete_other; [done|done|].
    by apply (file_not_directory _ _ c t).
  - destruct (all_dotdot k.2) eqn:Hdd; [by intros [= _ <-]|].
    destruct (has_children (files w) k) eqn:Hch; intros [= _ <-]; [done|].
    simpl. apply lookup_path_delete_unrelated; [done|done|].
    by apply (no_children_not_above (files w) k l n).
Qed.

Section WithCodec.
  Context `{Codec}.

(** *** [NewFileBucket] *)

(** X5: when [NewFileBucket] succeeds, the directory of the bucket
    exists (and, in direct-store mode, the directory of its metadata
    files), and every path that resolved before resolves to the same
    node. *)
Theorem NewFileBucket_makes_directories basePath bucketName direct w b w' :
  NewFileBucket basePath bucketName direct w = (Ok b, w') →
  let f := {| path := basePath; name := bucketName; directStore := direct |} in
  b = FileBucket_Bucket f
  ∧ (∃ ld, resolve (bucketDir f) = Some ld
           ∧ lookup_path (files w') ld = inr Directory)
  ∧ (∃ lm, resolve (metadataDir f) = Some lm
           ∧ lookup_path (files w') lm = inr Directory)
  ∧ ∀ l n, lookup_path (files w) l = inr n → lookup_path (files w') l = inr n.
Proof.
  intros Hnew f. split; [by apply NewFileBucket_ok in Hnew|].
  revert Hnew. unfold NewFileBucket, metadataDir, bucketDir. simpl.
  destruct (MkdirAll _ w) as [[e|] w1] eqn:Hmk; [done|].
  destruct (MkdirAll_made _ _ _ Hmk) as (ld & Hld & Hdir).
  pose proof (λ l n, MkdirAll_keeps _ _ _ _ l n Hmk) as Hkeep.
  destruct direct.
  - destruct (MkdirAll _ w1) as [[e|] w2] eqn:Hmk2; [done|]. intros [= _ <-].
    destruct (MkdirAll_made _ _ _ Hmk2) as (lm & Hlm & Hdirm).
    pose proof (λ l n, MkdirAll_keeps _ _ _ _ l n Hmk2) as Hkeep2.
    split; [exists ld; split; [done|by apply Hkeep2]|].
    split; [by exists lm|]. intros l n Hl. by apply Hkeep2, Hkeep.
  - intros [= _ <-]. split; [by exists ld|]. split; [by exists ld|].
    intros l n Hl. by apply Hkeep.
Qed.

Lemma NewFileBucket_again basePath bucketName w ld :
  resolve (GoPath.Join [basePath; bucketName]) = Some ld →
  lookup_path (files w) ld = inr Directory →
  NewFileBucket basePath bucketName false w
  = (Ok (FileBucket_Bucket {| path := basePath; name := bucketName;
                              directStore := false |}), w).
Proof.
  intros Hres Hl. unfold NewFileBucket. simpl.
  by rewrite (MkdirAll_again _ _ _ Hres Hl).
Qed.

(** X6: making a bucket that was made before changes nothing: a second
    [NewFileBucket] with the same arguments succeeds and leaves the world
    as it is. *)
Theorem NewFileBucket_twice basePath bucketName direct w b w' :
  NewFileBucket basePath bucketName direct w = (Ok b, w') →
  NewFileBucket basePath bucketName direct w' = (Ok b, w').
Proof.
  intros Hnew. pose proof (NewFileBucket_ok _ _ _ _ _ _ Hnew) as ->.
  revert Hnew. unfold NewFileBucket. simpl.
  destruct (MkdirAll _ w) as [[e|] w1] eqn:Hmk; [done|].
  destruct (MkdirAll_made _ _ _ Hmk) as (ld & Hld & Hdir).
  destruct direct.
  - destruct (MkdirAll _ w1) as [[e|] w2] eqn:Hmk2; [done|]. intros [= <-].
    destruct (MkdirAll_made _ _ _ Hmk2) as (lm & Hlm & Hdirm).
    rewrite (MkdirAll_again _ ld w2 Hld (MkdirAll_keeps _ _ _ _ _ _ Hmk2 Hdir)).
    by rewrite (MkdirAll_again _ lm w2 Hlm Hdirm).
  - intros [= <-]. by rewrite (MkdirAll_again _ ld w1 Hld Hdir).
Qed.

(** *** [PutObject] *)

(** What is known after a successful [PutObject]. *)
Lemma PutObject_ok_inv f object w meta w' :
  FileBucket_PutObject f object w = (Ok meta, w') →
  ∃ content cl ml,
    io_ReadAll (ReadCloser object) = Ok content
    ∧ meta = {| Digest := EncodeToString (md5_Sum content);
                ContentType := ObjectContentType object;
                ContentLength := Z.of_nat (length content);
                ModTime := clock w |}
    ∧ resolve (getObjectPath f (Key object)).1 = Some cl
    ∧ resolve (getObjectPath f (Key object)).2 = Some ml
    ∧ lookup_path (files w') ml = inr (File (json_Marshal meta) (clock w))
    ∧ (cl ≠ ml → lookup_path (files w') cl = inr (File content (clock w)))
    ∧ ∀ l n, l ≠ cl → l ≠ ml →
        lookup_path (files w) l = inr n → lookup_path (files w') l = inr n.
Proof.
  intros Hput. pose proof Hput as Hput'. revert Hput'.
  unfold FileBucket_PutObject, getObjectFile.
  destruct (MkdirAll _ w) as [[e|] w0] eqn:Hmk; [done|].
  pose proof (MkdirAll_clock _ _ _ _ Hmk) as Hclock.
  destruct (Create _ w0) as [[cf|e] w1] eqn:Hcr; [|done].
  destruct (io_ReadAll (ReadCloser object)) as [content|e] eqn:Hread; [|done].
  intros Hmeta.
  apply Create_ok in Hcr as (Hcl & Hdd & Hdirs & Hnd & ->).
  set (cl := fd_loc cf) in *.
  destruct (PutObjectMetadata_ok _ _ _ _ _ _ Hmeta) as [-> (ml & Hml & Hlm)].
  exists content, cl, ml.
  assert (clock (Write cf content
            (set_files w0 (<[cl:=File [] (clock w0)]> (files w0)))) = clock w)
    as Hclock' by exact Hclock.
  rewrite Hclock' in *. clear Hclock'.
  split; [done|]. split; [done|]. split; [done|]. split; [done|].
  split; [done|]. split.
  - intros Hne.
    destruct (PutObject_stores_payload f object w _ w' cl ml Hput Hcl Hml Hne)
      as (content' & Hread' & Hl).
    rewrite Hread in Hread'. by injection Hread' as <-.
  - intros l n Hlc Hlm' Hl.
    apply (PutObjectMetadata_keeps _ _ _ _ _ _ ml l n Hmeta Hml Hlm').
    unfold Write. simpl. rewrite insert_insert_eq. fold cl.
    apply lookup_path_insert_other; [|done|done].
    by apply (MkdirAll_keeps _ _ _ _ _ _ Hmk).
Qed.

(** X7: a successful [PutObject] changes no other file: every path other
    than the content path and the metadata path of the key that resolved
    before resolves to the same node afterwards. *)
Theorem PutObject_changes_only_its_files f object w meta w' :
  FileBucket_PutObject f object w = (Ok meta, w') →
  ∃ cl ml,
    resolve (getObjectPath f (Key object)).1 = Some cl
    ∧ resolve (getObjectPath f (Key object)).2 = Some ml
    ∧ ∀ l n, l ≠ cl → l ≠ ml →
        lookup_path (files w) l = inr n → lookup_path (files w') l = inr n.
Proof.
  intros Hput.
  destruct (PutObject_ok_inv _ _ _ _ _ Hput)
    as (content & cl & ml & _ & _ & Hcl & Hml & _ & _ & Hkeep).
  by exists cl, ml.
Qed.

(** *** [GetObject] *)

(** [GetObject] where the content path resolves and the metadata file
    decodes: the object is returned and nothing changes. *)
Lemma GetObject_found f key w cl n ml bs t m :
  resolve (getObjectPath f key).1 = Some cl →
  lookup_path (files w) cl = inr n →
  resolve (getObjectPath f key).2 = Some ml →
  lookup_path (files w) ml = inr (File bs t) →
  json_Unmarshal bs = Ok m →
  FileBucket_GetObject f key w
  = (Ok (Some {| Key := key; ObjectContentType := ContentType m;
                 ObjectMetadata := Some m;
                 ReadCloser := FileReader (mkFile cl n) |}), w).
Proof.
  intros Hcl Hl Hml Hlm Hm. unfold FileBucket_GetObject.
  rewrite (getObjectFile_found f key w cl n Hcl Hl).
  by rewrite (GetObjectMetadata_read f key ml w bs t m Hml Hlm Hm).
Qed.

(** X8: in the default layout, [GetObject] right after a successful
    [PutObject] of the same key returns an object that reads the bytes
    that were stored, with metadata that carries their length and hex MD5
    digest, and changes nothing. *)
Theorem put_then_get (Hjson : json_round_trip) f object w meta w' :
  directStore f = false →
  FileBucket_PutObject f object w = (Ok meta, w') →
  ∃ content cl meta',
    io_ReadAll (ReadCloser object) = Ok content
    ∧ FileBucket_GetObject f (Key object) w'
      = (Ok (Some {| Key := Key object;
                     ObjectContentType := ContentType meta';
                     ObjectMetadata := Some meta';
                     ReadCloser :=
                       FileReader (mkFile cl (File content (clock w))) |}),
         w')
    ∧ io_ReadAll (FileReader (mkFile cl (File content (clock w)))) = Ok content
    ∧ ContentLength meta' = Z.of_nat (length content)
    ∧ Digest meta' = EncodeToString (md5_Sum content).
Proof.
  intros Hdefault Hput.
  destruct (PutObject_ok_inv _ _ _ _ _ Hput)
    as (content & cl & ml & Hread & -> & Hcl & Hml & Hlm & Hlc & _).
  pose proof (default_layout_paths_differ f _ cl ml Hdefault Hcl Hml) as Hne.
  destruct (Hjson (md5_Sum content) (Z.of_nat (length content))
              (ObjectContentType object) (clock w)) as (m' & Hm' & Hd & Hlen).
  exists content, cl, m'. split; [done|]. split; [|done].
  by apply (GetObject_found f _ w' cl _ ml _ _ m' Hcl (Hlc Hne) Hml Hlm).
Qed.

(** X9: where the metadata file is there but does not decode,
    [GetObject] returns the decoding error and changes nothing; it does
    not compute the metadata again from the content file. *)
Theorem get_object_with_undecodable_metadata f key w fc ml bs t err :
  Open (getObjectPath f key).1 w = Ok fc →
  resolve (getObjectPath f key).2 = Some ml →
  lookup_path (files w) ml = inr (File bs t) →
  json_Unmarshal bs = Err err → IsNotExist err = false →
  FileBucket_GetObjectMetadata f key w = (Err err, w)
  ∧ FileBucket_GetObject f key w = (Err err, w).
Proof.
  intros Hopen Hml Hlm Hbad Hne.
  assert (FileBucket_GetObjectMetadata f key w = (Err err, w)) as Hmeta.
  { unfold FileBucket_GetObjectMetadata.
    rewrite (Open_resolved _ _ _ Hml), Hlm. unfold ReadAll. simpl.
    by rewrite Hbad. }
  split; [done|]. destruct fc as [cl n].
  apply Open_ok_inv in Hopen as [Hcl Hl]. unfold FileBucket_GetObject.
  rewrite (getObjectFile_found f key w cl n Hcl Hl), Hmeta. by rewrite Hne.
Qed.

(** X10: a [PutObject] whose reader fails leaves an existing object
    truncated: the content file is empty afterwards, the error of the
    reader is returned, and every other file, the old metadata file
    included, is as before. *)
Theorem failed_read_truncates_object f object w cl c t err :
  resolve (getObjectPath f (Key object)).1 = Some cl →
  lookup_path (files w) cl = inr (File c t) →
  io_ReadAll (ReadCloser object) = Err err →
  ∃ w',
    FileBucket_PutObject f object w = (Err err, w')
    ∧ lookup_path (files w') cl = inr (File [] (clock w))
    ∧ ∀ l n, l ≠ cl →
        lookup_path (files w) l = inr n → lookup_path (files w') l = inr n.
Proof.
  intros Hcl Hl Hread. unfold FileBucket_PutObject, getObjectFile.
  rewrite (MkdirAll_intro _ (parent cl) w (files w));
    [|by apply resolve_Dir_objectPath|exact (mkdir_parent_found (files w) cl _ Hl)].
  rewrite set_files_id. unfold Create. rewrite Hcl, Hl, Hread.
  eexists. split; [done|]. simpl.
  pose proof (file_not_directory _ _ _ _ Hl) as Hnd.
  pose proof Hl as Hl'.
  apply lookup_ok in Hl' as (Hp & Hfit & Hn & Hd). split.
  - apply lookup_after_write; [done|done| |exact Hd].
    unfold node_at in Hn. destruct (all_dotdot cl.2); [congruence|done].
  - intros l n Hne Hln. by apply lookup_path_insert_other.
Qed.

(** *** [DeleteObject] *)

(** X11: [DeleteObject] is not all-or-nothing: where the content file is
    there and the metadata path does not exist, it removes the content
    file and then returns the error of the second [os.Remove]. *)
Theorem delete_without_metadata_removes_content f key w cl c t ml :
  resolve (getObjectPath f key).1 = Some cl →
  lookup_path (files w) cl = inr (File c t) →
  resolve (getObjectPath f key).2 = Some ml →
  lookup_path (files w) ml = inl ENOENT →
  ∃ w',
    FileBucket_DeleteObject f key w
    = (Some (PathError "remove" (getObjectPath f key).2 ENOENT), w')
    ∧ lookup_path (files w') cl = inl ENOENT.
Proof.
  intros Hcl Hl Hml Hlm. unfold FileBucket_DeleteObject.
  destruct (getObjectPath f key) as [keyPath MetadataPath]. simpl in *.
  rewrite (Remove_file _ _ _ _ _ Hcl Hl).
  pose proof (file_not_directory _ _ _ _ Hl) as Hnd.
  rewrite (Remove_unresolved MetadataPath _ ml ENOENT Hml);
    [|by apply lookup_path_missing_delete].
  eexists. split; [done|]. simpl. by apply (lookup_path_deleted _ _ c t).
Qed.

(** X12: in the default layout, [DeleteObject] after a successful
    [PutObject] of the same key succeeds; afterwards [GetObjectMetadata]
    and [GetObject] report the object absent, while the directory that
    held the two files of the key is still there. *)
Theorem put_then_delete f object w meta w1 :
  wf (files w) → directStore f = false →
  FileBucket_PutObject f object w = (Ok meta, w1) →
  ∃ w2 cl,
    FileBucket_DeleteObject f (Key object) w1 = (None, w2)
    ∧ FileBucket_GetObjectMetadata f (Key object) w2 = (Ok None, w2)
    ∧ (∃ w3, FileBucket_GetObject f (Key object) w2 = (Ok None, w3))
    ∧ resolve (getObjectPath f (Key object)).1 = Some cl
    ∧ lookup_path (files w2) (parent cl) = inr Directory.
Proof.
  intros Hwf Hdefault Hput.
  pose proof (PutObject_wf _ _ _ _ _ Hwf Hput) as Hwf1.
  destruct (PutObject_ok_inv _ _ _ _ _ Hput)
    as (content & cl & ml & _ & _ & Hcl & Hml & Hlm & Hlc & _).
  pose proof (default_layout_paths_differ f _ cl ml Hdefault Hcl Hml) as Hne.
  specialize (Hlc Hne).
  pose proof (file_not_directory _ _ _ _ Hlc) as Hcnd.
  pose proof (file_not_directory _ _ _ _ Hlm) as Hmnd.
  assert (FileBucket_DeleteObject f (Key object) w1
          = (None, set_files w1 (delete ml (delete cl (files w1))))) as Hdel.
  { unfold FileBucket_DeleteObject.
    destruct (getObjectPath f (Key object)) as [keyPath MetadataPath].
    simpl in *. rewrite (Remove_file _ _ _ _ _ Hcl Hlc).
    rewrite (Remove_file MetadataPath ml _ (json_Marshal meta) (clock w)); [done..|].
    simpl. apply lookup_path_delete_other; [done|by apply not_eq_sym|done]. }
  set (w2 := set_files w1 (delete ml (delete cl (files w1)))) in *.
  pose proof (DeleteObject_wf _ _ _ _ _ Hwf1 Hdel) as Hwf2.
  assert (node_at (delete cl (files w1)) ml ≠ Some Directory) as Hmnd'
    by (by rewrite node_at_delete_ne).
  assert (lookup_path (files w2) cl = inl ENOENT) as Hcgone.
  { simpl. apply lookup_path_missing_delete; [|done].
    by apply (lookup_path_deleted _ _ content (clock w)). }
  assert (lookup_path (files w2) ml = inl ENOENT) as Hmgone.
  { simpl. apply (lookup_path_deleted _ _ (json_Marshal meta) (clock w)).
    apply lookup_path_delete_other; [done|by apply not_eq_sym|done]. }
  exists w2, cl. split; [done|]. split; [|split; [|split; [done|]]].
  - unfold FileBucket_GetObjectMetadata.
    by rewrite (Open_resolved _ _ _ Hml), Hmgone.
  - destruct (GetObject_absent f (Key object) w2
                (PathError "open" (getObjectPath f (Key object)).1 ENOENT) Hwf2)
      as (w3 & Hget & _);
      [by rewrite (Open_resolved _ _ _ Hcl), Hcgone|done| |].
    + intros cl' Hcl'. assert (cl' = cl) as -> by congruence.
      by apply lookup_ok in Hlc as (_ & ? & _).
    + by exists w3.
  - simpl. pose proof Hlc as Hlc'.
    apply lookup_ok in Hlc' as (Hp & Hfit & Hn & Hd).
    assert (cl.2 ≠ []) as Hnonnil.
    { intros Hnil. apply Hcnd. by apply node_at_root. }
    assert (lookup_path (files w1) (parent cl) = inr Directory) as Hpar.
    { apply lookup_intro; unfold parent; simpl.
      - apply (path_errno_prefix _ _ cl.2);
          [by apply (prefix_removelast_prefix (removelast cl.2))|by destruct cl].
      - by apply names_fit_removelast.
      - apply Hd. by apply prefix_removelast_proper.
      - intros q [Hq _]. apply Hd. apply prefix_removelast_proper; [done|].
        by etrans. }
    assert (∀ k, node_at (files w1) k ≠ Some Directory → parent cl ≠ k) as Hpk.
    { intros k Hk <-. by apply lookup_ok in Hpar as (_ & _ & Hpn & _). }
    apply lookup_path_delete_other; [|by apply Hpk; rewrite node_at_delete_ne in Hmnd'|done].
    apply lookup_path_delete_other; [done|by apply Hpk|done].
Qed.

(** X17: [DeleteObject] removes nothing but the content file and the
    metadata file of the key: whatever it returns, every other path that
    resolved before resolves to the same node afterwards. *)
Theorem DeleteObject_removes_only_its_files f key w e w' cl ml :
  FileBucket_DeleteObject f key w = (e, w') →
  resolve (getObjectPath f key).1 = Some cl →
  resolve (getObjectPath f key).2 = Some ml →
  ∀ l n, l ≠ cl → l ≠ ml →
    lookup_path (files w) l = inr n → lookup_path (files w') l = inr n.
Proof.
  unfold FileBucket_DeleteObject. intros Hdel Hcl Hml l n Hlc Hlm Hl.
  destruct (getObjectPath f key) as [keyPath MetadataPath]. simpl in *.
  destruct (Remove keyPath w) as [[err|] w1] eqn:Hr1.
  - injection Hdel as _ <-. by apply Remove_failed in Hr1 as ->.
  - apply (Remove_keeps _ _ _ _ _ l n Hcl Hr1 Hlc) in Hl.
    destruct (Remove MetadataPath w1) as [[err|] w2] eqn:Hr2;
      injection Hdel as _ <-.
    + by apply Remove_failed in Hr2 as ->.
    + by apply (Remove_keeps _ _ _ _ _ l n Hml Hr2 Hlm).
Qed.

Lemma PutObjectMetadata_keeps_any f key meta w r w' ml l n :
  FileBucket_PutObjectMetadata f key meta w = (r, w') →
  resolve (getObjectPath f key).2 = Some ml → l ≠ ml →
  lookup_path (files w) l = inr n → lookup_path (files w') l = inr n.
Proof.
  intros Hput Hml Hne Hl. destruct r as [m|e].
  - by apply (PutObjectMetadata_keeps _ _ _ _ _ _ ml l n Hput Hml Hne).
  - revert Hput. unfold FileBucket_PutObjectMetadata.
    destruct (MkdirAll _ w) as [[e'|] w1] eqn:Hmk.
    + intros [= _ <-]. by apply (MkdirAll_keeps _ _ _ _ _ _ Hmk).
    + apply (MkdirAll_keeps _ _ _ _ _ _ Hmk) in Hl.
      destruct (Create _ w1) as [[mf|e'] w2] eqn:Hc; [done|].
      intros [= _ <-]. by apply Create_failed in Hc as ->.
Qed.

(** X18: [GetObject] may add directories and a metadata file, but it
    never changes or removes what is there: whatever it returns, every
    path that resolved before resolves to the same node afterwards. *)
Theorem GetObject_keeps_what_exists f key w r w' :
  FileBucket_GetObject f key w = (r, w') →
  ∀ l n, lookup_path (files w) l = inr n → lookup_path (files w') l = inr n.
Proof.
  unfold FileBucket_GetObject, getObjectFile. intros Hget l n Hl.
  destruct (MkdirAll _ w) as [[e|] w1] eqn:Hmk.
  - apply (MkdirAll_keeps _ _ _ _ _ _ Hmk) in Hl.
    destruct (IsNotExist e); by injection Hget as _ <-.
  - apply (MkdirAll_keeps _ _ _ _ _ _ Hmk) in Hl.
    destruct (Open _ w1) as [fc|e];
      [|destruct (IsNotExist e); by injection Hget as _ <-].
    revert Hget. unfold FileBucket_GetObjectMetadata.
    destruct (metadataPath_resolves f key) as [ml Hml].
    rewrite (Open_resolved _ _ _ Hml).
    destruct (lookup_path (files w1) ml) as [errno|nm] eqn:Hlm.
    + simpl. destruct errno; simpl; try by intros [= _ <-].
      unfold createMetadataFromFile.
      destruct (Open _ w1) as [fc'|e]; [|by intros [= _ <-]].
      destruct (fd_node fc'); [|by intros [= _ <-]].
      destruct (FileBucket_PutObjectMetadata _ _ _ _) as [[m|e] w2] eqn:Hput;
        intros [= _ <-];
        apply (PutObjectMetadata_keeps_any _ _ _ _ _ _ ml l n Hput Hml);
        try done; intros ->; congruence.
    + destruct (ReadAll _) as [bs|e]; [|destruct (IsNotExist e); by intros [= _ <-]].
      destruct (json_Unmarshal bs) as [m|e];
        [|destruct (IsNotExist e)]; by intros [= _ <-].
Qed.

(** X19: a regular file on the way of the content path of a key makes
    [PutObject] and [GetObject] fail with the ENOTDIR error of
    [os.MkdirAll], which names that file, and change nothing;
    [GetObject] does not report the object absent. *)
Theorem file_in_the_way_blocks_key f object w cl es c t :
  resolve (getObjectPath f (Key object)).1 = Some cl →
  proper_prefix es cl.2 →
  lookup_path (files w) (cl.1, es) = inr (File c t) →
  let blocked := PathError "mkdir" (name_of (cl.1, es)) ENOTDIR in
  FileBucket_PutObject f object w = (Err blocked, w)
  ∧ FileBucket_GetObject f (Key object) w = (Err blocked, w).
Proof.
  intros Hcl Hpre Hfile blocked.
  assert (MkdirAll (GoPath.Dir (getObjectPath f (Key object)).1) w
          = (Some blocked, w)) as Hmk.
  { unfold MkdirAll. rewrite (resolve_Dir_objectPath _ _ _ Hcl).
    apply proper_prefix_removelast in Hpre as [more Hmore].
    unfold parent. simpl. rewrite Hmore.
    pose proof (lookup_walk _ _ _ Hfile) as Hwalk. simpl in Hwalk.
    apply lookup_ok in Hfile as (Hp & Hfit & _). simpl in Hp, Hfit.
    rewrite (mkdir_walk_blocked _ _ _ _ more c t);
      [simpl; by rewrite set_files_id| |done].
    intros q Hq. simpl. by apply (mkdir_errno_prefix _ q es). }
  unfold FileBucket_PutObject, FileBucket_GetObject, getObjectFile.
  by rewrite Hmk.
Qed.

Lemma GetObjectMetadata_none f key w w' ml :
  FileBucket_GetObjectMetadata f key w = (Ok None, w') →
  resolve (getObjectPath f key).2 = Some ml →
  ∃ errno, lookup_path (files w) ml = inl errno.
Proof.
  unfold FileBucket_GetObjectMetadata. intros Hmeta Hml. revert Hmeta.
  rewrite (Open_resolved _ _ _ Hml).
  destruct (lookup_path (files w) ml) as [errno|n]; [by eauto|].
  destruct (ReadAll _) as [bs|e]; [|done].
  by destruct (json_Unmarshal bs).
Qed.

Lemma createMetadataFromFile_keeps f key w r w' ml errno :
  createMetadataFromFile f key w = (r, w') →
  resolve (getObjectPath f key).2 = Some ml →
  lookup_path (files w) ml = inl errno →
  ∀ l n, lookup_path (files w) l = inr n → lookup_path (files w') l = inr n.
Proof.
  unfold createMetadataFromFile. intros Hc Hml Hno l n Hl. revert Hc.
  destruct (Open _ w) as [fc|e]; [|by intros [= _ <-]].
  destruct (fd_node fc); [|by intros [= _ <-]]. intros Hput.
  apply (PutObjectMetadata_keeps_any _ _ _ _ _ _ ml l n Hput Hml); [|done].
  intros ->. congruence.
Qed.

(** X21: an object returned by [GetObject] always carries its metadata,
    its content type is the one of the metadata and its key the one
    asked for, and its reader is the content file as it is then; the GET
    handler reads [object.Metadata] without a nil test. *)
Theorem GetObject_always_carries_metadata f key w obj w' :
  FileBucket_GetObject f key w = (Ok (Some obj), w') →
  ∃ fc m,
    Open (getObjectPath f key).1 w' = Ok fc
    ∧ obj = {| Key := key; ObjectContentType := ContentType m;
               ObjectMetadata := Some m; ReadCloser := FileReader fc |}.
Proof.
  unfold FileBucket_GetObject, getObjectFile.
  destruct (MkdirAll _ w) as [[e|] w1] eqn:Hmk;
    [destruct (IsNotExist e); by intros|].
  destruct (Open _ w1) as [fc|e] eqn:Hopen;
    [|destruct (IsNotExist e); by intros].
  assert (∀ w2, (∀ l n, lookup_path (files w1) l = inr n →
                        lookup_path (files w2) l = inr n) →
                Open (getObjectPath f key).1 w2 = Ok fc) as Hstill.
  { intros w2 Hk. revert Hopen. unfold Open.
    destruct (resolve (getObjectPath f key).1) as [cl|]; [|done].
    destruct (lookup_path (files w1) cl) as [errno|n] eqn:Hl; [done|].
    by rewrite (Hk _ _ Hl). }
  destruct (FileBucket_GetObjectMetadata f key w1) as [[[m|]|e] w2] eqn:Hmeta;
    [| |destruct (IsNotExist e); by intros].
  - apply GetObjectMetadata_world in Hmeta as ->.
    intros [= <- <-]. exists fc, m. split; [|done]. by apply Hstill.
  - pose proof (GetObjectMetadata_world _ _ _ _ _ Hmeta) as ->.
    destruct (metadataPath_resolves f key) as [ml Hml].
    destruct (GetObjectMetadata_none _ _ _ _ _ Hmeta Hml) as [errno Hno].
    destruct (createMetadataFromFile f key w1) as [[m|e] w3] eqn:Hc; [|done].
    intros [= <- <-]. exists fc, m. split; [|done].
    apply Hstill.
    exact (createMetadataFromFile_keeps _ _ _ _ _ _ _ Hc Hml Hno).
Qed.

End WithCodec.

End StoreFacts.

(** * Requests that follow one another *)

Module RequestFacts.
Import GoPath OS bucket signature Creds S3 PathSpec TreeSpec BucketSpec CredsSpec ServerSpec KeySpec GoPathFacts OSFacts BucketFacts CredsFacts ServerFacts KeyFacts StoreFacts.

Lemma store_Put_default c d :
  store_Put c (default_store d) = default_store (default_Put c d).
Proof. reflexivity. Qed.

Lemma WithAuth_fold (creds : gmap string string) d :
  ∃ d',
    map_fold (λ accessKey secretKey cs,
                store_Put (Credential accessKey secretKey) cs)
             (default_store d) creds
    = default_store d'
    ∧ ∀ accessKey,
        credStore d' !! accessKey
        = match creds !! accessKey with
          | Some secretKey => Some (Credential accessKey secretKey)
          | None => credStore d !! accessKey
          end.
Proof.
  apply (map_fold_weak_ind
           (λ cs (m : gmap string string),
              ∃ d', cs = default_store d'
                    ∧ ∀ accessKey,
                        credStore d' !! accessKey
                        = match m !! accessKey with
                          | Some secretKey => Some (Credential accessKey secretKey)
                          | None => credStore d !! accessKey
                          end)).
  - exists d. split; [done|]. intros k. by rewrite lookup_empty.
  - intros i x m cs Hi (d' & -> & Hd').
    exists (default_Put (Credential i x) d'). split; [done|].
    intros k. unfold default_Put. simpl.
    destruct (decide (i = k)) as [->|Hne].
    + by rewrite !lookup_insert_eq.
    + rewrite !lookup_insert_ne by done. apply Hd'.
Qed.

Section WithEnv.
  Context `{C : Codec} `{E : Env}.

(** X13: [WithAuth] on a server without a credential store installs a
    default store (even for an empty map) in which [Get] finds, for each
    access key of the map, the credential with its secret key, and
    nothing for any other access key. *)
Theorem WithAuth_installs_credentials (creds : gmap string string) s :
  credentials s = None →
  ∃ store,
    credentials (WithAuth creds s) = Some store
    ∧ bucketFn (WithAuth creds s) = bucketFn s
    ∧ ∀ accessKey,
        store_Get accessKey store
        = match creds !! accessKey with
          | Some secretKey => (Credential accessKey secretKey, true)
          | None => ({| AccessKey := EmptyString; SecretKey := EmptyString |},
                     false)
          end.
Proof.
  intros Hs. unfold WithAuth. rewrite Hs. simpl.
  destruct (WithAuth_fold creds empty_store) as (d' & -> & Hd').
  eexists. split; [done|]. split; [done|].
  intros k. unfold store_Get. simpl. unfold default_Get. rewrite Hd'.
  destruct (creds !! k); [done|]. unfold empty_store. simpl.
  by rewrite lookup_empty.
Qed.

(** *** Requests on the file buckets of [NewFileServer] *)

Lemma insert_file_keeps_dir (fs : gmap loc node) k v l :
  lookup_path fs l = inr Directory → node_at fs k ≠ Some Directory →
  lookup_path (<[k := v]> fs) l = inr Directory.
Proof.
  intros Hl Hk. apply lookup_path_insert_other; [done| |done].
  intros ->. apply Hk. by apply lookup_ok in Hl as (_ & _ & Hn & _).
Qed.

Lemma PutObjectMetadata_keeps_dirs f key meta w r w' l :
  FileBucket_PutObjectMetadata f key meta w = (r, w') →
  lookup_path (files w) l = inr Directory →
  lookup_path (files w') l = inr Directory.
Proof.
  unfold FileBucket_PutObjectMetadata. intros Hput Hl.
  destruct (MkdirAll _ w) as [[e|] w1] eqn:Hmk.
  - injection Hput as _ <-. by apply (MkdirAll_keeps _ _ _ _ _ _ Hmk).
  - apply (MkdirAll_keeps _ _ _ _ _ _ Hmk) in Hl.
    destruct (Create _ w1) as [[mf|e] w2] eqn:Hc.
    + injection Hput as _ <-.
      apply Create_ok in Hc as (_ & _ & _ & Hnd & ->).
      unfold Write. simpl. rewrite insert_insert_eq.
      by apply insert_file_keeps_dir.
    + injection Hput as _ <-. by apply Create_failed in Hc as ->.
Qed.

Lemma PutObject_keeps_dirs f object w meta w' l :
  FileBucket_PutObject f object w = (Ok meta, w') →
  lookup_path (files w) l = inr Directory →
  lookup_path (files w') l = inr Directory.
Proof.
  unfold FileBucket_PutObject, getObjectFile. intros Hput Hl.
  destruct (MkdirAll _ w) as [[e|] w0] eqn:Hmk; [done|].
  apply (MkdirAll_keeps _ _ _ _ _ _ Hmk) in Hl.
  destruct (Create _ w0) as [[cf|e] w1] eqn:Hcr; [|done].
  destruct (io_ReadAll (ReadCloser object)) as [content|e]; [|done].
  apply Create_ok in Hcr as (_ & _ & _ & Hnd & ->).
  apply (PutObjectMetadata_keeps_dirs _ _ _ _ _ _ l Hput).
  unfold Write. simpl. rewrite insert_insert_eq.
  by apply insert_file_keeps_dir.
Qed.

(** After a successful [PutObject] through a server whose buckets are the
    file buckets under [basePath]: the bucket is found again without any
    change, and the object and its metadata are read back. *)
Lemma stored_object_is_served (Hjson : json_round_trip)
  s basePath bucketName object b world world1 meta world2 :
  bucketFn s = (λ bucketName, NewFileBucket basePath bucketName false) →
  GetBucket s bucketName world = (Ok b, world1) →
  PutObject b object world1 = (Ok meta, world2) →
  ∃ f content cl meta',
    b = FileBucket_Bucket f
    ∧ io_ReadAll (ReadCloser object) = Ok content
    ∧ Digest meta = EncodeToString (md5_Sum content)
    ∧ GetBucket s bucketName world2 = (Ok b, world2)
    ∧ FileBucket_GetObjectMetadata f (Key object) world2
      = (Ok (Some meta'), world2)
    ∧ FileBucket_GetObject f (Key object) world2
      = (Ok (Some {| Key := Key object;
                     ObjectContentType := ContentType meta';
                     ObjectMetadata := Some meta';
                     ReadCloser :=
                       FileReader (mkFile cl (File content (clock world1))) |}),
         world2)
    ∧ ContentLength meta' = Z.of_nat (length content)
    ∧ Digest meta' = EncodeToString (md5_Sum content).
Proof.
  intros Hfn Hb Hput. unfold GetBucket in *. rewrite Hfn in *.
  pose proof (NewFileBucket_ok _ _ _ _ _ _ Hb) as ->.
  set (f := {| path := basePath; name := bucketName; directStore := false |}) in *.
  simpl in Hput.
  destruct (PutObject_ok_inv _ _ _ _ _ Hput)
    as (content & cl & ml & Hread & Hmeta & Hcl & Hml & Hlm & Hlc & _).
  pose proof (default_layout_paths_differ f _ cl ml eq_refl Hcl Hml) as Hne.
  destruct (Hjson (md5_Sum content) (Z.of_nat (length content))
              (ObjectContentType object) (clock world1)) as (m' & Hm' & Hd & Hlen).
  rewrite <- Hmeta in Hm'.
  exists f, content, cl, m'. split; [done|]. split; [done|].
  split; [by rewrite Hmeta|]. split; [|split; [|split; [|done]]].
  - revert Hb. unfold NewFileBucket. simpl.
    destruct (MkdirAll _ world) as [[e|] w1] eqn:Hmk; [done|]. intros [= <-].
    destruct (MkdirAll_made _ _ _ Hmk) as (ld & Hld & Hdir).
    by rewrite (MkdirAll_again _ ld world2 Hld
                  (PutObject_keeps_dirs _ _ _ _ _ _ Hput Hdir)).
  - by apply (GetObjectMetadata_read f _ ml _ _ _ _ Hml Hlm).
  - by apply (GetObject_found f _ world2 cl _ ml _ _ m' Hcl (Hlc Hne) Hml Hlm).
Qed.

(** What [io.Copy] writes is the content, piece by piece. *)
Lemma pieces_concat fuel (content : bytes) :
  (length content ≤ fuel)%nat → concat (pieces fuel content) = content.
Proof.
  revert content. induction fuel as [|fuel IH]; intros content Hlen.
  - destruct content; [done|simpl in Hlen; lia].
  - destruct content as [|x content]; [done|].
    change (pieces (S fuel) (x :: content))
      with (take copy_buffer (x :: content)
            :: pieces fuel (drop copy_buffer (x :: content))).
    rewrite concat_cons, IH; [by rewrite take_drop|].
    rewrite length_drop. simpl in Hlen.
    assert (0 < copy_buffer)%nat by (unfold copy_buffer; lia).
    change (length (x :: content)) with (S (length content)). lia.
Qed.

(** No piece is empty, none is larger than the buffer. *)
Lemma pieces_bounded fuel (content : bytes) :
  Forall (λ piece, piece ≠ [] ∧ (length piece ≤ copy_buffer)%nat)
         (pieces fuel content).
Proof.
  assert (∃ n, copy_buffer = S n) as [n Hn].
  { exists (32 * 1024 - 1)%nat. unfold copy_buffer. lia. }
  revert content. induction fuel as [|fuel IH]; intros content.
  - by destruct content; constructor.
  - destruct content as [|x content]; [constructor|].
    change (pieces (S fuel) (x :: content))
      with (take copy_buffer (x :: content)
            :: pieces fuel (drop copy_buffer (x :: content))).
    constructor; [|apply IH]. split.
    + by rewrite Hn.
    + rewrite length_take. lia.
Qed.


(** X15: a HEAD of the path of an object that a PUT has just stored is
    answered with status 200, an empty body and the unquoted digest of the
    stored bytes as [Etag], and changes nothing. *)
Theorem put_request_then_head_request (Hjson : json_round_trip)
  s basePath world bucketName object b world1 meta world2 w' r' :
  bucketFn s = (λ bucketName, NewFileBucket basePath bucketName false) →
  GetBucket s bucketName world = (Ok b, world1) →
  PutObject b object world1 = (Ok meta, world2) →
  Method r' = "HEAD" → uri_of r' = [bucketName; Key object] →
  ∃ content meta',
    io_ReadAll (ReadCloser object) = Ok content
    ∧ HandleGetObjectMetadata s w' r' world2
      = (Write []
           (WriteHeader StatusOK
              (SetHeader HeaderEtag (EncodeToString (md5_Sum content))
                 (SetHeader "Last-Modified" (FormatHTTPTime (ModTime meta'))
                    (SetHeader "Content-Type" (ContentType meta') w')))),
         world2).
Proof.
  intros Hfn Hb Hput Hm' Huri'.
  destruct (stored_object_is_served Hjson _ _ _ _ _ _ _ _ _ Hfn Hb Hput)
    as (f & content & cl & meta' & -> & Hread & _ & Hb2 & Hmeta & _ & _ & Hdig').
  exists content, meta'. split; [done|].
  unfold HandleGetObjectMetadata. rewrite Hm', Huri'. simpl.
  rewrite Hb2. simpl. rewrite Hmeta. by rewrite Hdig'.
Qed.

(** X16: the answer to a HEAD follows the error of [os.Open] on the
    metadata path: a not-exist error is answered with the not-found
    error, any other error (a regular file on the way, an element that is
    too long) with the internal error that carries it; [GetObjectMetadata]
    makes no directory and does not look at the content file. *)
Theorem head_answer_follows_open_error
  s w r world bucketName key f world1 e :
  Method r = "HEAD" →
  uri_of r = [bucketName; key] →
  GetBucket s bucketName world = (Ok (FileBucket_Bucket f), world1) →
  Open (getObjectPath f key).2 world1 = Err e →
  FileBucket_GetObjectMetadata f key world1
  = (if IsNotExist e then Ok None else Err e, world1)
  ∧ HandleGetObjectMetadata s w r world
    = (WriteError w
         (if IsNotExist e then ErrWith StatusNotFound None
          else ErrWith StatusInternalServerError (Some e)),
       world1).
Proof.
  intros Hm Huri Hb Hopen.
  assert (FileBucket_GetObjectMetadata f key world1
          = (if IsNotExist e then Ok None else Err e, world1)) as Hmeta.
  { unfold FileBucket_GetObjectMetadata. rewrite Hopen.
    by destruct (IsNotExist e). }
  split; [done|]. unfold HandleGetObjectMetadata. rewrite Hm, Huri. simpl.
  rewrite Hb. simpl. rewrite Hmeta. by destruct (IsNotExist e).
Qed.

(** *** Requests that reach no bucket *)

Lemma no_slash_SplitN2 t : no_slash t → SplitN2 t = [t].
Proof.
  intros Hns.
  destruct (SplitN2_cases t) as [(b & k & _ & _ & ->)|[-> _]]; [|done].
  unfold no_slash in Hns. rewrite split_app_slash in Hns.
  apply (f_equal length) in Hns. rewrite length_app in Hns. simpl in Hns.
  pose proof (split_nonnil b). pose proof (split_nonnil k).
  destruct (split b), (split k); simpl in *; (done || lia).
Qed.

(** X22: a GET with the [location] query whose path names no key (no
    slash is left once the path is trimmed; the path [/] included) is
    answered with status 200 and the fixed location document, whatever
    the server's buckets are: no bucket is looked up and nothing is
    touched. *)
Theorem location_query_answers_without_bucket s w r world :
  Method r = "GET" →
  Query_Has (URL_Query r) "location" = true →
  no_slash (Trim (URL_Path r)) →
  HandleGetObject s w r world
  = (Write xml_LocationConstraint (WriteHeader StatusOK w), world)
  ∧ (credentials s = None →
     ServeHTTP s w r world
     = (Write xml_LocationConstraint (WriteHeader StatusOK w), world)).
Proof.
  intros Hm Hq Hns.
  assert (HandleGetObject s w r world
          = (Write xml_LocationConstraint (WriteHeader StatusOK w), world)) as Hget.
  { unfold HandleGetObject, uri_of. rewrite Hm, Hq.
    by rewrite (no_slash_SplitN2 _ Hns). }
  split; [done|]. intros Hnone.
  unfold ServeHTTP, dispatch. by rewrite Hnone, Hm.
Qed.

(** X23: a request whose method is none of HEAD, PUT, DELETE and GET
    reaches no handler: the world stays as it is, and the response is
    left unwritten unless the server has credentials and the
    verification fails, in which case it is the signature error. *)
Theorem other_methods_get_no_answer s w r world :
  Method r ≠ "HEAD" → Method r ≠ "PUT" →
  Method r ≠ "DELETE" → Method r ≠ "GET" →
  (ServeHTTP s w r world).2 = world
  ∧ ((ServeHTTP s w r world).1 = w
     ∨ ∃ store,
         credentials s = Some store
         ∧ V4SignVerify r store world ≠ ErrNone
         ∧ (ServeHTTP s w r world).1
           = WriteError w (ErrSignature (V4SignVerify r store world))).
Proof.
  intros Hh Hp Hd Hg.
  assert (dispatch s w r world = (w, world)) as Hdis.
  { unfold dispatch.
    by rewrite !(proj2 (String.eqb_neq _ _)) by done. }
  unfold ServeHTTP. destruct (credentials s) as [store|]; [|by rewrite Hdis; auto].
  unfold errors_Is.
  destruct (decide (V4SignVerify r store world = ErrNone)) as [Heq|Hne].
  - rewrite bool_decide_eq_true_2 by done. simpl. rewrite Hdis. auto.
  - rewrite bool_decide_eq_false_2 by done. simpl. split; [done|].
    right. by exists store.
Qed.

End WithEnv.

End RequestFacts.

(** * Further worked examples *)

Module Scenarios.
Import OS bucket signature Creds S3 PathSpec TreeSpec BucketSpec CredsSpec ServerSpec KeySpec GoPathFacts OSFacts BucketFacts CredsFacts ServerFacts Fixture FixtureFacts KeyFacts StoreFacts RequestFacts Scenario.

(** X2 at the keys [a//b/] and [/a/b] of bucket [b1]. *)
Lemma same_segments_same_paths_witness :
  getObjectPath data_b1 "a//b/" = getObjectPath data_b1 "/a/b".
Proof.
  apply (same_segments_same_paths data_b1 "a//b/" "/a/b").
  - vm_compute. discriminate.
  - reflexivity.
Defined.

(** C1 at the key [../b1/k] of bucket [b1]: it climbs out of the bucket's
    directory and comes back through [b1], so both of its paths are in the
    bucket. *)
Lemma key_stays_in_bucket_iff_witness :
  inside (bucketDir data_b1) (getObjectPath data_b1 "../b1/k").1
  ∧ inside (metadataDir data_b1) (getObjectPath data_b1 "../b1/k").2.
Proof.
  destruct (key_stays_in_bucket_iff data_b1 "../b1/k"
              (true, ["data"; "b1"]) (true, ["data"; "b1"]))
    as (Hcontent & Hmeta & _).
  - reflexivity.
  - reflexivity.
  - split.
    + apply Hcontent. split; [by exists ["k"; ".content"]|by left].
    + apply Hmeta. split; [by exists ["k"; "metadata.json"]|by left].
Defined.

(** The keys [./k] and [a/../k] of bucket [b1] are the key [k]: they are
    not refused, and their paths are in the bucket. *)
Lemma keys_with_dots_stay_in_bucket :
  getObjectPath data_b1 "./k"
  = ("/data/b1/k/.content", "/data/b1/k/metadata.json")
  ∧ getObjectPath data_b1 "a/../k" = getObjectPath data_b1 "./k"
  ∧ inside (bucketDir data_b1) (getObjectPath data_b1 "./k").1
  ∧ inside (metadataDir data_b1) (getObjectPath data_b1 "./k").2
  ∧ inside (bucketDir data_b1) (getObjectPath data_b1 "a/../k").1
  ∧ inside (metadataDir data_b1) (getObjectPath data_b1 "a/../k").2.
Proof.
  split; [reflexivity|]. split; [reflexivity|].
  destruct (object_paths_inside data_b1 "./k"
              (true, ["data"; "b1"]) (true, ["data"; "b1"]) eq_refl eq_refl)
    as [Hc1 Hm1].
  destruct (object_paths_inside data_b1 "a/../k"
              (true, ["data"; "b1"]) (true, ["data"; "b1"]) eq_refl eq_refl)
    as [Hc2 Hm2].
  repeat split; first [apply Hc1|apply Hm1|apply Hc2|apply Hm2];
    (split; [by eexists|by left]).
Qed.

(** A key with an element over [NAME_MAX] below a directory that is not
    there: [os.Open] of its content path reports not-exist, yet
    [GetObject] fails, with the ENAMETOOLONG error of [os.MkdirAll], and
    leaves the directory [x] that was made on the way; the GET handler
    answers with the internal error. *)
Lemma get_overlong_key_is_internal_error :
  let key := "x/" +:+ long_element in
  let toolong :=
    PathError "mkdir" ("/data/b1/x/" +:+ long_element) ENAMETOOLONG in
  Open (getObjectPath data_b1 key).1 world_b1
  = Err (PathError "open" (getObjectPath data_b1 key).1 ENOENT)
  ∧ (FileBucket_GetObject data_b1 key world_b1).1 = Err toolong
  ∧ lookup_path (files world_b1) (true, ["data"; "b1"; "x"]) = inl ENOENT
  ∧ lookup_path (files (FileBucket_GetObject data_b1 key world_b1).2)
      (true, ["data"; "b1"; "x"])
    = inr Directory
  ∧ (HandleGetObject open_server fresh_writer
       (request "GET" ("/b1/" +:+ key) [] []) world_b1).1
    = WriteError fresh_writer
        (ErrWith StatusInternalServerError (Some toolong)).
Proof.
  intros key toolong. repeat split; vm_compute; reflexivity.
Qed.

(** X3 at the keys [a//b] and [a/b/] of bucket [b1]. *)
Lemma same_path_same_segments_witness :
  key_segments "a//b" = key_segments "a/b/"
  ∧ (getObjectPath data_b1 "a//b").1 ≠ (getObjectPath data_b1 "a/b/").2.
Proof.
  destruct (same_path_same_segments data_b1 "a//b" "a/b/") as [Hsame Hdiff].
  - vm_compute. discriminate.
  - unfold traversal_free, plain. simpl. repeat constructor; discriminate.
  - unfold traversal_free, plain. simpl. repeat constructor; discriminate.
  - split; [apply Hsame; by left|by apply Hdiff].
Defined.

(** X4 at the base path [/srv/data]: the bucket named [..] is [/srv]. *)
Lemma dotdot_bucket_is_parent_of_base_witness :
  resolve (bucketDir {| path := "/srv/data"; name := ".."; directStore := false |})
  = Some (true, ["srv"]).
Proof.
  apply (dotdot_bucket_is_parent_of_base "/srv/data" false
           (true, ["srv"; "data"]) "data").
  - reflexivity.
  - reflexivity.
  - discriminate.
Defined.

(** X5 at bucket [b1] made on an empty tree. *)
Lemma NewFileBucket_makes_directories_witness :
  ∃ ld, resolve (bucketDir data_b1) = Some ld
        ∧ lookup_path (files world_b1) ld = inr Directory.
Proof.
  refine (proj1 (proj2 (NewFileBucket_makes_directories "/data" "b1" false
                          world0 (FileBucket_Bucket data_b1) world_b1 _))).
  reflexivity.
Defined.

(** X6 at bucket [b1] made on an empty tree. *)
Lemma NewFileBucket_twice_witness :
  NewFileBucket "/data" "b1" false world_b1
  = (Ok (FileBucket_Bucket data_b1), world_b1).
Proof.
  apply (NewFileBucket_twice "/data" "b1" false world0).
  reflexivity.
Defined.

(** X7 at the object [k] stored after [a]. *)
Lemma PutObject_changes_only_its_files_witness :
  ∃ cl ml,
    resolve (getObjectPath data_b1 "k").1 = Some cl
    ∧ resolve (getObjectPath data_b1 "k").2 = Some ml
    ∧ ∀ l n, l ≠ cl → l ≠ ml →
        lookup_path (files world_a) l = inr n →
        lookup_path (files world_ak) l = inr n.
Proof.
  apply (PutObject_changes_only_its_files data_b1 (object_at "k") world_a
           {| Digest := "14"; ContentLength := 5; ContentType := "text/plain";
              ModTime := 1000 |} world_ak).
  vm_compute. reflexivity.
Defined.

(** X8 at the object [k] stored in bucket [b1] of an empty tree. *)
Lemma put_then_get_witness :
  let w' := (FileBucket_PutObject data_b1 (object_at "k") world0).2 in
  ∃ content cl meta',
    io_ReadAll (ReadCloser (object_at "k")) = Ok content
    ∧ FileBucket_GetObject data_b1 "k" w'
      = (Ok (Some {| Key := "k";
                     ObjectContentType := ContentType meta';
                     ObjectMetadata := Some meta';
                     ReadCloser :=
                       FileReader (mkFile cl (File content (clock world0))) |}),
         w')
    ∧ io_ReadAll (FileReader (mkFile cl (File content (clock world0)))) = Ok content
    ∧ ContentLength meta' = Z.of_nat (length content)
    ∧ Digest meta' = EncodeToString (md5_Sum content).
Proof.
  intros w'.
  apply (put_then_get fixture_round_trip data_b1 (object_at "k") world0
           {| Digest := "14"; ContentLength := 5; ContentType := "text/plain";
              ModTime := 1000 |} w').
  - reflexivity.
  - vm_compute. reflexivity.
Defined.

(** X9 at the object [k] whose metadata file was overwritten. *)
Lemma get_object_with_undecodable_metadata_witness :
  FileBucket_GetObjectMetadata data_b1 "k" world_garbled
  = (Err UnmarshalError, world_garbled)
  ∧ FileBucket_GetObject data_b1 "k" world_garbled
    = (Err UnmarshalError, world_garbled).
Proof.
  apply (get_object_with_undecodable_metadata data_b1 "k" world_garbled
           (mkFile (true, ["data"; "b1"; "k"; ".content"]) (File hello 1000))
           (true, ["data"; "b1"; "k"; "metadata.json"]) [x02] 1000).
  - vm_compute. reflexivity.
  - reflexivity.
  - vm_compute. reflexivity.
  - reflexivity.
  - reflexivity.
Defined.

(** X10 at a second PUT of [a] whose body cannot be read. *)
Lemma failed_read_truncates_object_witness :
  ∃ w',
    FileBucket_PutObject data_b1 (stalled_at "a") world_a
    = (Err (ReadError "chunk-signature"), w')
    ∧ lookup_path (files w') (true, ["data"; "b1"; "a"; ".content"])
      = inr (File [] (clock world_a))
    ∧ ∀ l n, l ≠ (true, ["data"; "b1"; "a"; ".content"]) →
        lookup_path (files world_a) l = inr n → lookup_path (files w') l = inr n.
Proof.
  apply (failed_read_truncates_object data_b1 (stalled_at "a") world_a
           (true, ["data"; "b1"; "a"; ".content"]) hello 1000).
  - reflexivity.
  - vm_compute. reflexivity.
  - reflexivity.
Defined.

(** X11 at the object [k] whose metadata file was removed. *)
Lemma delete_without_metadata_removes_content_witness :
  ∃ w',
    FileBucket_DeleteObject data_b1 "k" world_k
    = (Some (PathError "remove" (getObjectPath data_b1 "k").2 ENOENT), w')
    ∧ lookup_path (files w') (true, ["data"; "b1"; "k"; ".content"]) = inl ENOENT.
Proof.
  apply (delete_without_metadata_removes_content data_b1 "k" world_k
           (true, ["data"; "b1"; "k"; ".content"]) hello 1000
           (true, ["data"; "b1"; "k"; "metadata.json"])).
  - reflexivity.
  - vm_compute. reflexivity.
  - reflexivity.
  - vm_compute. reflexivity.
Defined.

(** X12 at the object [a] stored in bucket [b1] of an empty tree. *)
Lemma put_then_delete_witness :
  ∃ w2 cl,
    FileBucket_DeleteObject data_b1 "a" world_a = (None, w2)
    ∧ FileBucket_GetObjectMetadata data_b1 "a" w2 = (Ok None, w2)
    ∧ (∃ w3, FileBucket_GetObject data_b1 "a" w2 = (Ok None, w3))
    ∧ resolve (getObjectPath data_b1 "a").1 = Some cl
    ∧ lookup_path (files w2) (parent cl) = inr Directory.
Proof.
  apply (put_then_delete data_b1 (object_at "a") world0
           {| Digest := "14"; ContentLength := 5; ContentType := "text/plain";
              ModTime := 1000 |} world_a).
  - apply world0_wf.
  - reflexivity.
  - vm_compute. reflexivity.
Defined.

(** X13 at the server of [NewFileServer] and one credential. *)
Lemma WithAuth_installs_credentials_witness :
  ∃ store,
    credentials (WithAuth {[ "AKIDEXAMPLE" := "secret1234" ]} open_server)
    = Some store
    ∧ bucketFn (WithAuth {[ "AKIDEXAMPLE" := "secret1234" ]} open_server)
      = bucketFn open_server
    ∧ ∀ accessKey,
        store_Get accessKey store
        = match ({[ "AKIDEXAMPLE" := "secret1234" ]} : gmap string string)
                  !! accessKey with
          | Some secretKey => (Credential accessKey secretKey, true)
          | None => ({| AccessKey := EmptyString; SecretKey := EmptyString |},
                     false)
          end.
Proof.
  apply (WithAuth_installs_credentials {[ "AKIDEXAMPLE" := "secret1234" ]}
           open_server).
  reflexivity.
Defined.


(** A GET of an object stored with an empty body: the header is written
    and [io.Copy] writes nothing. *)
Lemma get_of_empty_object_writes_no_body :
  let world2 :=
    (HandlePutObject open_server fresh_writer
       (request "PUT" "/b1/e" [("Content-Type", ["text/plain"])] []) world0).2 in
  w_calls (HandleGetObject open_server fresh_writer
             (request "GET" "/b1/e" [] []) world2).1
  = [WriteHeaderCall 200].
Proof.
  intros world2. vm_compute. reflexivity.
Qed.

(** X15 at the object [k] stored through bucket [b1] and a HEAD of
    [/b1/k]. *)
Lemma put_request_then_head_request_witness :
  let world2 := (FileBucket_PutObject data_b1 (object_at "k") world_b1).2 in
  ∃ content meta',
    io_ReadAll (ReadCloser (object_at "k")) = Ok content
    ∧ HandleGetObjectMetadata open_server fresh_writer
        (request "HEAD" "/b1/k" [] []) world2
      = (Write []
           (WriteHeader StatusOK
              (SetHeader HeaderEtag (EncodeToString (md5_Sum content))
                 (SetHeader "Last-Modified" (FormatHTTPTime (ModTime meta'))
                    (SetHeader "Content-Type" (ContentType meta') fresh_writer)))),
         world2).
Proof.
  intros world2.
  apply (put_request_then_head_request fixture_round_trip
           open_server "/data" world0 "b1" (object_at "k")
           (FileBucket_Bucket data_b1) world_b1
           {| Digest := "14"; ContentLength := 5;
              ContentType := "text/plain"; ModTime := 1000 |}
           world2 fresh_writer (request "HEAD" "/b1/k" [] [])).
  - reflexivity.
  - reflexivity.
  - vm_compute. reflexivity.
  - reflexivity.
  - reflexivity.
Defined.

(** X16 at a HEAD of [/b1/a/.content/x] after [a] was stored: the content
    file of [a] is on the way, and the answer is the internal error. *)
Lemma head_answer_follows_open_error_witness :
  let blocked :=
    PathError "open" "/data/b1/a/.content/x/metadata.json" ENOTDIR in
  FileBucket_GetObjectMetadata data_b1 "a/.content/x" world_a
  = (Err blocked, world_a)
  ∧ HandleGetObjectMetadata open_server fresh_writer
      (request "HEAD" "/b1/a/.content/x" [] []) world_a
    = (WriteError fresh_writer
         (ErrWith StatusInternalServerError (Some blocked)),
       world_a).
Proof.
  intros blocked.
  apply (head_answer_follows_open_error open_server fresh_writer
           (request "HEAD" "/b1/a/.content/x" [] []) world_a "b1"
           "a/.content/x" data_b1 world_a blocked).
  - reflexivity.
  - reflexivity.
  - reflexivity.
  - reflexivity.
Defined.

(** X17 at the deletion of [a] when [k] is stored too: the content of [k]
    stays. *)
Lemma DeleteObject_removes_only_its_files_witness :
  lookup_path (files (FileBucket_DeleteObject data_b1 "a" world_ak).2)
    (true, ["data"; "b1"; "k"; ".content"])
  = inr (File hello 1000).
Proof.
  apply (DeleteObject_removes_only_its_files data_b1 "a" world_ak
           (FileBucket_DeleteObject data_b1 "a" world_ak).1
           (FileBucket_DeleteObject data_b1 "a" world_ak).2
           (true, ["data"; "b1"; "a"; ".content"])
           (true, ["data"; "b1"; "a"; "metadata.json"])).
  - by destruct (FileBucket_DeleteObject data_b1 "a" world_ak).
  - reflexivity.
  - reflexivity.
  - discriminate.
  - discriminate.
  - vm_compute. reflexivity.
Defined.

(** X18 at a GET of [k] whose metadata file was removed: the content file
    stays as it is. *)
Lemma GetObject_keeps_what_exists_witness :
  lookup_path (files (FileBucket_GetObject data_b1 "k" world_k).2)
    (true, ["data"; "b1"; "k"; ".content"])
  = inr (File hello 1000).
Proof.
  apply (GetObject_keeps_what_exists data_b1 "k" world_k
           (FileBucket_GetObject data_b1 "k" world_k).1
           (FileBucket_GetObject data_b1 "k" world_k).2).
  - by destruct (FileBucket_GetObject data_b1 "k" world_k).
  - vm_compute. reflexivity.
Defined.

(** X19 at the key [a/x] of the direct-store bucket after [a] is stored. *)
Lemma file_in_the_way_blocks_key_witness :
  FileBucket_PutObject direct_b1 (object_at "a/x") world_direct_a
  = (Err (PathError "mkdir" "/data/b1/a" ENOTDIR), world_direct_a)
  ∧ FileBucket_GetObject direct_b1 "a/x" world_direct_a
    = (Err (PathError "mkdir" "/data/b1/a" ENOTDIR), world_direct_a).
Proof.
  apply (file_in_the_way_blocks_key direct_b1 (object_at "a/x") world_direct_a
           (true, ["data"; "b1"; "a"; "x"]) ["data"; "b1"; "a"] hello 1000).
  - reflexivity.
  - split; [by exists ["x"]|discriminate].
  - vm_compute. reflexivity.
Defined.

(** X20 at the key [../b2/k] of bucket [b1]. *)
Lemma dotdot_key_reaches_other_bucket_witness :
  getObjectPath data_b1 ("../" +:+ "b2" +:+ "/" +:+ "k")
  = getObjectPath data_b2 "k".
Proof.
  apply (dotdot_key_reaches_other_bucket "/data" "b1" "b2" false "k").
  - discriminate.
  - repeat split; discriminate.
  - reflexivity.
Defined.

(** X21 at a GET of [k] after [a] and [k] were stored. *)
Lemma GetObject_always_carries_metadata_witness :
  ∃ fc m,
    Open (getObjectPath data_b1 "k").1 world_ak = Ok fc
    ∧ {| Key := "k"; ObjectContentType := "text/plain";
         ObjectMetadata :=
           Some {| Digest := "14"; ContentLength := 5;
                   ContentType := "text/plain"; ModTime := 1000 |};
         ReadCloser :=
           FileReader (mkFile (true, ["data"; "b1"; "k"; ".content"])
                              (File hello 1000)) |}
      = {| Key := "k"; ObjectContentType := ContentType m;
           ObjectMetadata := Some m; ReadCloser := FileReader fc |}.
Proof.
  apply (GetObject_always_carries_metadata data_b1 "k" world_ak).
  vm_compute. reflexivity.
Defined.

(** X22 at [GET /?location] on a server whose buckets are not there. *)
Lemma location_query_answers_without_bucket_witness :
  HandleGetObject open_server fresh_writer location_request world0
  = (Write xml_LocationConstraint (WriteHeader StatusOK fresh_writer), world0).
Proof.
  refine (proj1 (location_query_answers_without_bucket open_server
                   fresh_writer location_request world0 _ _ _));
    reflexivity.
Defined.

(** X23 at a POST to the server with credentials. *)
Lemma other_methods_get_no_answer_witness :
  (ServeHTTP locked_server fresh_writer (request "POST" "/b1/k" [] hello)
     world0).2
  = world0.
Proof.
  refine (proj1 (other_methods_get_no_answer locked_server fresh_writer
                   (request "POST" "/b1/k" [] hello) world0 _ _ _ _));
    discriminate.
Defined.

End Scenarios.
